(** * The nonlinear state feedback (NSF) controller of mrs_uav_controllers

    A shallow embedding of [NsfController] (class and methods of
    src/pid_controller/pid_controller.cpp, the translation unit that starts with
    [#define VERSION "0.0.3.0"]): [activate], [deactivate], [update],
    [switchOdometrySource], [resetDisturbanceEstimators],
    [dynamicReconfigureCallback], [timerGainsFilter], [calculateGainChange] and
    [rotate2d].

    The C++ [double] is kept abstract: the controller is written once over the
    interface [DoubleOps] (the arithmetic, comparisons and libm calls the source
    uses), and the properties that only depend on the control flow are proved
    from [DoubleLaws], a handful of facts on comparisons, infinities, NaN and
    zeros.  Two instances follow.  [b64_ops] is IEEE 754 binary64 as the
    Standard Library specifies it, with [<math.h>] left as a parameter; it
    satisfies the laws ([b64_laws]).  [xq] has NaN, both infinities and exact
    rational arithmetic on finite values; examples are evaluated in it.  The
    convergence analysis of the gain filter is carried out in any instance,
    along the calls whose operations do not round ([exact_run]).

    Mutexes, logging ([ROS_INFO], [ROS_WARN], ...), the profiler and ROS timers
    have no counterpart here: every method is one atomic state transformer.

    The translation unit that comes first in the same file, [class Pid] and
    [PidController], is embedded in the modules [Pid] and [PidController].  The
    two [initialize] methods, which read the parameter server and start the
    dynamic reconfigure server, are not embedded. *)

From Stdlib Require Import ZArith QArith Qabs Qpower Qminmax Bool String List Lia Lqa.
From Stdlib Require Import SpecFloat.
Import ListNotations.

(** ** The interface of [double] *)

(** What the controller needs from [double], [<math.h>], [mrs_lib], [tf] and
    [ros::Duration]. *)
Class DoubleOps (D : Type) : Type := {
  (** the [double] a decimal literal of the source denotes *)
  dlit : Q -> D;
  dadd : D -> D -> D;
  dsub : D -> D -> D;
  dmul : D -> D -> D;
  ddiv : D -> D -> D;
  (** unary minus *)
  dopp : D -> D;
  fabs : D -> D;
  (** [x < y] and [x <= y]; both are false as soon as one side is NaN *)
  dlt : D -> D -> bool;
  dle : D -> D -> bool;
  (** [std::isfinite] *)
  isfinite : D -> bool;
  sqrt : D -> D;
  sin : D -> D;
  cos : D -> D;
  asin : D -> D;
  (** [mrs_lib::sign] *)
  sign : D -> Z;
  (** [ros::Duration::toSec] of a duration given in nanoseconds *)
  toSec : Z -> D;
  (** [tf::Matrix3x3(q).getRPY(roll, pitch, yaw)] of the quaternion [x y z w] *)
  getRPY : D -> D -> D -> D -> D * D * D
}.

Arguments dlit {D DoubleOps} _%_Q.

Declare Scope double_scope.
Delimit Scope double_scope with D.
Notation "0" := (dlit 0) : double_scope.
Notation "1" := (dlit 1) : double_scope.
Notation "x + y" := (dadd x y) : double_scope.
Notation "x - y" := (dsub x y) : double_scope.
Notation "x * y" := (dmul x y) : double_scope.
Notation "x / y" := (ddiv x y) : double_scope.
Notation "- x" := (dopp x) : double_scope.
Notation "x <? y" := (dlt x y) : double_scope.
Notation "x >? y" := (dlt y x) : double_scope.
Notation "x <=? y" := (dle x y) : double_scope.

(** The signum [(T(0) < val) - (val < T(0))], which the instances below take
    for [mrs_lib::sign]. *)
Definition signum {D : Type} (lt : D -> D -> bool) (zero val : D) : Z :=
  (Z.b2z (lt zero val) - Z.b2z (lt val zero))%Z.

(** [ros::Time], in nanoseconds. *)
Definition Time : Type := Z.

(** ** Messages

    Only the fields the controller reads or writes are kept. *)

Module Header.
Section Def.
Record t : Type := mk { stamp : Time; frame_id : string }.
End Def.
End Header.

Module Vector3.
Section Def.
Context {D : Type}.
Record t : Type := mk { x : D; y : D; z : D }.
End Def.
Arguments t : clear implicits.
End Vector3.

Module Quaternion.
Section Def.
Context {D : Type}.
Record t : Type := mk { x : D; y : D; z : D; w : D }.
End Def.
Arguments t : clear implicits.
End Quaternion.

Module Pose.
Section Def.
Context {D : Type}.
Record t : Type := mk { position : Vector3.t D; orientation : Quaternion.t D }.
End Def.
Arguments t : clear implicits.
End Pose.

Module Twist.
Section Def.
Context {D : Type}.
Record t : Type := mk { linear : Vector3.t D }.
End Def.
Arguments t : clear implicits.
End Twist.

(** [mrs_msgs::UavState] *)
Module UavState.
Section Def.
Context {D : Type}.
Record t : Type := mk { header : Header.t; pose : Pose.t D; velocity : Twist.t D }.
End Def.
Arguments t : clear implicits.
End UavState.

(** [mrs_msgs::PositionCommand] *)
Module PositionCommand.
Section Def.
Context {D : Type}.
Record t : Type := mk {
  position : Vector3.t D;
  velocity : Vector3.t D;
  acceleration : Vector3.t D;
  yaw : D;
  disable_position_gains : bool
}.
End Def.
Arguments t : clear implicits.
End PositionCommand.

(** [geometry_msgs::Vector3Stamped] *)
Module Vector3Stamped.
Section Def.
Context {D : Type}.
Record t : Type := mk { header : Header.t; vector : Vector3.t D }.
End Def.
Arguments t : clear implicits.
End Vector3Stamped.

(** The values of [mrs_msgs::AttitudeCommand::mode_mask]; a fresh message holds
    [MODE_UNSET]. *)
Inductive ModeMask : Type := MODE_UNSET | MODE_EULER_ATTITUDE.

(** [mrs_msgs::AttitudeCommand] *)
Module AttitudeCommand.
Section Def.
Context {D : Type}.
Record t : Type := mk {
  header : Header.t;
  controller : string;
  euler_attitude : Vector3.t D;
  euler_attitude_set : bool;
  quater_attitude_set : bool;
  attitude_rate_set : bool;
  thrust : D;
  mode_mask : ModeMask;
  mass_difference : D;
  total_mass : D;
  disturbance_wx_w : D;
  disturbance_wy_w : D;
  disturbance_bx_w : D;
  disturbance_by_w : D;
  disturbance_bx_b : D;
  disturbance_by_b : D;
  controller_enforcing_constraints : bool
}.

(** [activation_control_command_.controller_enforcing_constraints = ...] *)
Definition set_controller_enforcing_constraints (m : t) (v : bool) : t :=
  mk (header m) (controller m) (euler_attitude m) (euler_attitude_set m)
     (quater_attitude_set m) (attitude_rate_set m) (thrust m) (mode_mask m)
     (mass_difference m) (total_mass m) (disturbance_wx_w m) (disturbance_wy_w m)
     (disturbance_bx_w m) (disturbance_by_w m) (disturbance_bx_b m)
     (disturbance_by_b m) v.
End Def.
Arguments t : clear implicits.
End AttitudeCommand.

(** [mrs_controllers::nsf_controllerConfig], the gains of a dynamic
    reconfigure request *)
Module nsf_controllerConfig.
Section Def.
Context {D : Type}.
Record t : Type := mk {
  kpxy : D; kvxy : D; kaxy : D; kiwxy : D; kibxy : D;
  kpz : D; kvz : D; kaz : D;
  kiwxy_lim : D; kibxy_lim : D;
  km : D; km_lim : D
}.
End Def.
Arguments t : clear implicits.
End nsf_controllerConfig.

(** [mrs_uav_manager::MotorParams] *)
Module MotorParams.
Section Def.
Context {D : Type}.
Record t : Type := mk { hover_thrust_a : D; hover_thrust_b : D }.
End Def.
Arguments t : clear implicits.
End MotorParams.

(** [Eigen::Vector2d] and [Eigen::Vector3d] *)
Definition Vector2d (D : Type) : Type := (D * D)%type.
Definition Vector3d (D : Type) : Type := (D * D * D)%type.
(** ** The controller's members *)

Section Members.
Context {D : Type}.

Record NsfController : Type := Build_NsfController {
  (** [is_active] *)
  is_active : bool;
  (** [common_handlers_->transformer->transformSingle(to_frame, v)], [None] when
      the transform is not available *)
  transformer : string -> Vector3Stamped.t D -> option (Vector3Stamped.t D);
  uav_state_ : UavState.t D;
  (** desired gains (set by dynamic reconfigure) *)
  drs_desired_gains : nsf_controllerConfig.t D;
  uav_mass_ : D;
  uav_mass_difference : D;
  g_ : D;
  motor_params_ : MotorParams.t D;
  hover_thrust : D;
  (** actual gains (used and already filtered) *)
  kpxy : D;
  kiwxy : D;
  kibxy : D;
  kvxy : D;
  kaxy : D;
  kpz : D;
  kvz : D;
  kaz : D;
  kiwxy_lim : D;
  kibxy_lim : D;
  km : D;
  km_lim : D;
  max_tilt_angle_ : D;
  thrust_saturation_ : D;
  (** a null pointer is [None] *)
  last_output_command : option (AttitudeCommand.t D);
  activation_control_command_ : AttitudeCommand.t D;
  last_update : Time;
  first_iteration : bool;
  mute_lateral_gains : bool;
  mutex_lateral_gains_after_toggle : bool;
  mute_coefficitent_ : D;
  (** calculated from change_rate_/timer_rate_ *)
  gains_filter_max_change_ : D;
  (** calculated from change_rate_/timer_rate_ *)
  gains_filter_min_change_ : D;
  (** body error integral in the body frame *)
  Ib_b : Vector2d D;
  (** world error integral in the world frame *)
  Iw_w : Vector2d D
}.

(** Assignments to one member ([c.member = v]). *)

Definition set_is_active (c : NsfController) (v : bool) :
  NsfController :=
  Build_NsfController v (transformer c) (uav_state_ c) (drs_desired_gains c)
    (uav_mass_ c) (uav_mass_difference c) (g_ c) (motor_params_ c) (hover_thrust c)
    (kpxy c) (kiwxy c) (kibxy c) (kvxy c) (kaxy c) (kpz c) (kvz c) (kaz c) (kiwxy_lim c)
    (kibxy_lim c) (km c) (km_lim c) (max_tilt_angle_ c) (thrust_saturation_ c)
    (last_output_command c) (activation_control_command_ c) (last_update c)
    (first_iteration c) (mute_lateral_gains c) (mutex_lateral_gains_after_toggle c)
    (mute_coefficitent_ c) (gains_filter_max_change_ c) (gains_filter_min_change_ c)
    (Ib_b c) (Iw_w c).

Definition set_uav_state_ (c : NsfController) (v : UavState.t D) :
  NsfController :=
  Build_NsfController (is_active c) (transformer c) v (drs_desired_gains c)
    (uav_mass_ c) (uav_mass_difference c) (g_ c) (motor_params_ c) (hover_thrust c)
    (kpxy c) (kiwxy c) (kibxy c) (kvxy c) (kaxy c) (kpz c) (kvz c) (kaz c) (kiwxy_lim c)
    (kibxy_lim c) (km c) (km_lim c) (max_tilt_angle_ c) (thrust_saturation_ c)
    (last_output_command c) (activation_control_command_ c) (last_update c)
    (first_iteration c) (mute_lateral_gains c) (mutex_lateral_gains_after_toggle c)
    (mute_coefficitent_ c) (gains_filter_max_change_ c) (gains_filter_min_change_ c)
    (Ib_b c) (Iw_w c).

Definition set_drs_desired_gains (c : NsfController) (v : nsf_controllerConfig.t D) :
  NsfController :=
  Build_NsfController (is_active c) (transformer c) (uav_state_ c) v (uav_mass_ c)
    (uav_mass_difference c) (g_ c) (motor_params_ c) (hover_thrust c) (kpxy c) (kiwxy c)
    (kibxy c) (kvxy c) (kaxy c) (kpz c) (kvz c) (kaz c) (kiwxy_lim c) (kibxy_lim c)
    (km c) (km_lim c) (max_tilt_angle_ c) (thrust_saturation_ c) (last_output_command c)
    (activation_control_command_ c) (last_update c) (first_iteration c)
    (mute_lateral_gains c) (mutex_lateral_gains_after_toggle c) (mute_coefficitent_ c)
    (gains_filter_max_change_ c) (gains_filter_min_change_ c) (Ib_b c) (Iw_w c).

Definition set_uav_mass_difference (c : NsfController) (v : D) :
  NsfController :=
  Build_NsfController (is_active c) (transformer c) (uav_state_ c) (drs_desired_gains c)
    (uav_mass_ c) v (g_ c) (motor_params_ c) (hover_thrust c) (kpxy c) (kiwxy c)
    (kibxy c) (kvxy c) (kaxy c) (kpz c) (kvz c) (kaz c) (kiwxy_lim c) (kibxy_lim c)
    (km c) (km_lim c) (max_tilt_angle_ c) (thrust_saturation_ c) (last_output_command c)
    (activation_control_command_ c) (last_update c) (first_iteration c)
    (mute_lateral_gains c) (mutex_lateral_gains_after_toggle c) (mute_coefficitent_ c)
    (gains_filter_max_change_ c) (gains_filter_min_change_ c) (Ib_b c) (Iw_w c).

Definition set_hover_thrust (c : NsfController) (v : D) :
  NsfController :=
  Build_NsfController (is_active c) (transformer c) (uav_state_ c) (drs_desired_gains c)
    (uav_mass_ c) (uav_mass_difference c) (g_ c) (motor_params_ c) v (kpxy c) (kiwxy c)
    (kibxy c) (kvxy c) (kaxy c) (kpz c) (kvz c) (kaz c) (kiwxy_lim c) (kibxy_lim c)
    (km c) (km_lim c) (max_tilt_angle_ c) (thrust_saturation_ c) (last_output_command c)
    (activation_control_command_ c) (last_update c) (first_iteration c)
    (mute_lateral_gains c) (mutex_lateral_gains_after_toggle c) (mute_coefficitent_ c)
    (gains_filter_max_change_ c) (gains_filter_min_change_ c) (Ib_b c) (Iw_w c).

Definition set_kpxy (c : NsfController) (v : D) :
  NsfController :=
  Build_NsfController (is_active c) (transformer c) (uav_state_ c) (drs_desired_gains c)
    (uav_mass_ c) (uav_mass_difference c) (g_ c) (motor_params_ c) (hover_thrust c) v
    (kiwxy c) (kibxy c) (kvxy c) (kaxy c) (kpz c) (kvz c) (kaz c) (kiwxy_lim c)
    (kibxy_lim c) (km c) (km_lim c) (max_tilt_angle_ c) (thrust_saturation_ c)
    (last_output_command c) (activation_control_command_ c) (last_update c)
    (first_iteration c) (mute_lateral_gains c) (mutex_lateral_gains_after_toggle c)
    (mute_coefficitent_ c) (gains_filter_max_change_ c) (gains_filter_min_change_ c)
    (Ib_b c) (Iw_w c).

Definition set_kiwxy (c : NsfController) (v : D) :
  NsfController :=
  Build_NsfController (is_active c) (transformer c) (uav_state_ c) (drs_desired_gains c)
    (uav_mass_ c) (uav_mass_difference c) (g_ c) (motor_params_ c) (hover_thrust c)
    (kpxy c) v (kibxy c) (kvxy c) (kaxy c) (kpz c) (kvz c) (kaz c) (kiwxy_lim c)
    (kibxy_lim c) (km c) (km_lim c) (max_tilt_angle_ c) (thrust_saturation_ c)
    (last_output_command c) (activation_control_command_ c) (last_update c)
    (first_iteration c) (mute_lateral_gains c) (mutex_lateral_gains_after_toggle c)
    (mute_coefficitent_ c) (gains_filter_max_change_ c) (gains_filter_min_change_ c)
    (Ib_b c) (Iw_w c).

Definition set_kibxy (c : NsfController) (v : D) :
  NsfController :=
  Build_NsfController (is_active c) (transformer c) (uav_state_ c) (drs_desired_gains c)
    (uav_mass_ c) (uav_mass_difference c) (g_ c) (motor_params_ c) (hover_thrust c)
    (kpxy c) (kiwxy c) v (kvxy c) (kaxy c) (kpz c) (kvz c) (kaz c) (kiwxy_lim c)
    (kibxy_lim c) (km c) (km_lim c) (max_tilt_angle_ c) (thrust_saturation_ c)
    (last_output_command c) (activation_control_command_ c) (last_update c)
    (first_iteration c) (mute_lateral_gains c) (mutex_lateral_gains_after_toggle c)
    (mute_coefficitent_ c) (gains_filter_max_change_ c) (gains_filter_min_change_ c)
    (Ib_b c) (Iw_w c).

Definition set_kvxy (c : NsfController) (v : D) :
  NsfController :=
  Build_NsfController (is_active c) (transformer c) (uav_state_ c) (drs_desired_gains c)
    (uav_mass_ c) (uav_mass_difference c) (g_ c) (motor_params_ c) (hover_thrust c)
    (kpxy c) (kiwxy c) (kibxy c) v (kaxy c) (kpz c) (kvz c) (kaz c) (kiwxy_lim c)
    (kibxy_lim c) (km c) (km_lim c) (max_tilt_angle_ c) (thrust_saturation_ c)
    (last_output_command c) (activation_control_command_ c) (last_update c)
    (first_iteration c) (mute_lateral_gains c) (mutex_lateral_gains_after_toggle c)
    (mute_coefficitent_ c) (gains_filter_max_change_ c) (gains_filter_min_change_ c)
    (Ib_b c) (Iw_w c).

Definition set_kaxy (c : NsfController) (v : D) :
  NsfController :=
  Build_NsfController (is_active c) (transformer c) (uav_state_ c) (drs_desired_gains c)
    (uav_mass_ c) (uav_mass_difference c) (g_ c) (motor_params_ c) (hover_thrust c)
    (kpxy c) (kiwxy c) (kibxy c) (kvxy c) v (kpz c) (kvz c) (kaz c) (kiwxy_lim c)
    (kibxy_lim c) (km c) (km_lim c) (max_tilt_angle_ c) (thrust_saturation_ c)
    (last_output_command c) (activation_control_command_ c) (last_update c)
    (first_iteration c) (mute_lateral_gains c) (mutex_lateral_gains_after_toggle c)
    (mute_coefficitent_ c) (gains_filter_max_change_ c) (gains_filter_min_change_ c)
    (Ib_b c) (Iw_w c).

Definition set_kpz (c : NsfController) (v : D) :
  NsfController :=
  Build_NsfController (is_active c) (transformer c) (uav_state_ c) (drs_desired_gains c)
    (uav_mass_ c) (uav_mass_difference c) (g_ c) (motor_params_ c) (hover_thrust c)
    (kpxy c) (kiwxy c) (kibxy c) (kvxy c) (kaxy c) v (kvz c) (kaz c) (kiwxy_lim c)
    (kibxy_lim c) (km c) (km_lim c) (max_tilt_angle_ c) (thrust_saturation_ c)
    (last_output_command c) (activation_control_command_ c) (last_update c)
    (first_iteration c) (mute_lateral_gains c) (mutex_lateral_gains_after_toggle c)
    (mute_coefficitent_ c) (gains_filter_max_change_ c) (gains_filter_min_change_ c)
    (Ib_b c) (Iw_w c).

Definition set_kvz (c : NsfController) (v : D) :
  NsfController :=
  Build_NsfController (is_active c) (transformer c) (uav_state_ c) (drs_desired_gains c)
    (uav_mass_ c) (uav_mass_difference c) (g_ c) (motor_params_ c) (hover_thrust c)
    (kpxy c) (kiwxy c) (kibxy c) (kvxy c) (kaxy c) (kpz c) v (kaz c) (kiwxy_lim c)
    (kibxy_lim c) (km c) (km_lim c) (max_tilt_angle_ c) (thrust_saturation_ c)
    (last_output_command c) (activation_control_command_ c) (last_update c)
    (first_iteration c) (mute_lateral_gains c) (mutex_lateral_gains_after_toggle c)
    (mute_coefficitent_ c) (gains_filter_max_change_ c) (gains_filter_min_change_ c)
    (Ib_b c) (Iw_w c).

Definition set_kaz (c : NsfController) (v : D) :
  NsfController :=
  Build_NsfController (is_active c) (transformer c) (uav_state_ c) (drs_desired_gains c)
    (uav_mass_ c) (uav_mass_difference c) (g_ c) (motor_params_ c) (hover_thrust c)
    (kpxy c) (kiwxy c) (kibxy c) (kvxy c) (kaxy c) (kpz c) (kvz c) v (kiwxy_lim c)
    (kibxy_lim c) (km c) (km_lim c) (max_tilt_angle_ c) (thrust_saturation_ c)
    (last_output_command c) (activation_control_command_ c) (last_update c)
    (first_iteration c) (mute_lateral_gains c) (mutex_lateral_gains_after_toggle c)
    (mute_coefficitent_ c) (gains_filter_max_change_ c) (gains_filter_min_change_ c)
    (Ib_b c) (Iw_w c).

Definition set_kiwxy_lim (c : NsfController) (v : D) :
  NsfController :=
  Build_NsfController (is_active c) (transformer c) (uav_state_ c) (drs_desired_gains c)
    (uav_mass_ c) (uav_mass_difference c) (g_ c) (motor_params_ c) (hover_thrust c)
    (kpxy c) (kiwxy c) (kibxy c) (kvxy c) (kaxy c) (kpz c) (kvz c) (kaz c) v
    (kibxy_lim c) (km c) (km_lim c) (max_tilt_angle_ c) (thrust_saturation_ c)
    (last_output_command c) (activation_control_command_ c) (last_update c)
    (first_iteration c) (mute_lateral_gains c) (mutex_lateral_gains_after_toggle c)
    (mute_coefficitent_ c) (gains_filter_max_change_ c) (gains_filter_min_change_ c)
    (Ib_b c) (Iw_w c).

Definition set_kibxy_lim (c : NsfController) (v : D) :
  NsfController :=
  Build_NsfController (is_active c) (transformer c) (uav_state_ c) (drs_desired_gains c)
    (uav_mass_ c) (uav_mass_difference c) (g_ c) (motor_params_ c) (hover_thrust c)
    (kpxy c) (kiwxy c) (kibxy c) (kvxy c) (kaxy c) (kpz c) (kvz c) (kaz c) (kiwxy_lim c)
    v (km c) (km_lim c) (max_tilt_angle_ c) (thrust_saturation_ c)
    (last_output_command c) (activation_control_command_ c) (last_update c)
    (first_iteration c) (mute_lateral_gains c) (mutex_lateral_gains_after_toggle c)
    (mute_coefficitent_ c) (gains_filter_max_change_ c) (gains_filter_min_change_ c)
    (Ib_b c) (Iw_w c).

Definition set_km (c : NsfController) (v : D) :
  NsfController :=
  Build_NsfController (is_active c) (transformer c) (uav_state_ c) (drs_desired_gains c)
    (uav_mass_ c) (uav_mass_difference c) (g_ c) (motor_params_ c) (hover_thrust c)
    (kpxy c) (kiwxy c) (kibxy c) (kvxy c) (kaxy c) (kpz c) (kvz c) (kaz c) (kiwxy_lim c)
    (kibxy_lim c) v (km_lim c) (max_tilt_angle_ c) (thrust_saturation_ c)
    (last_output_command c) (activation_control_command_ c) (last_update c)
    (first_iteration c) (mute_lateral_gains c) (mutex_lateral_gains_after_toggle c)
    (mute_coefficitent_ c) (gains_filter_max_change_ c) (gains_filter_min_change_ c)
    (Ib_b c) (Iw_w c).

Definition set_km_lim (c : NsfController) (v : D) :
  NsfController :=
  Build_NsfController (is_active c) (transformer c) (uav_state_ c) (drs_desired_gains c)
    (uav_mass_ c) (uav_mass_difference c) (g_ c) (motor_params_ c) (hover_thrust c)
    (kpxy c) (kiwxy c) (kibxy c) (kvxy c) (kaxy c) (kpz c) (kvz c) (kaz c) (kiwxy_lim c)
    (kibxy_lim c) (km c) v (max_tilt_angle_ c) (thrust_saturation_ c)
    (last_output_command c) (activation_control_command_ c) (last_update c)
    (first_iteration c) (mute_lateral_gains c) (mutex_lateral_gains_after_toggle c)
    (mute_coefficitent_ c) (gains_filter_max_change_ c) (gains_filter_min_change_ c)
    (Ib_b c) (Iw_w c).

Definition set_last_output_command (c : NsfController) (v : option (AttitudeCommand.t D)) :
  NsfController :=
  Build_NsfController (is_active c) (transformer c) (uav_state_ c) (drs_desired_gains c)
    (uav_mass_ c) (uav_mass_difference c) (g_ c) (motor_params_ c) (hover_thrust c)
    (kpxy c) (kiwxy c) (kibxy c) (kvxy c) (kaxy c) (kpz c) (kvz c) (kaz c) (kiwxy_lim c)
    (kibxy_lim c) (km c) (km_lim c) (max_tilt_angle_ c) (thrust_saturation_ c) v
    (activation_control_command_ c) (last_update c) (first_iteration c)
    (mute_lateral_gains c) (mutex_lateral_gains_after_toggle c) (mute_coefficitent_ c)
    (gains_filter_max_change_ c) (gains_filter_min_change_ c) (Ib_b c) (Iw_w c).

Definition set_activation_control_command_ (c : NsfController) (v : AttitudeCommand.t D) :
  NsfController :=
  Build_NsfController (is_active c) (transformer c) (uav_state_ c) (drs_desired_gains c)
    (uav_mass_ c) (uav_mass_difference c) (g_ c) (motor_params_ c) (hover_thrust c)
    (kpxy c) (kiwxy c) (kibxy c) (kvxy c) (kaxy c) (kpz c) (kvz c) (kaz c) (kiwxy_lim c)
    (kibxy_lim c) (km c) (km_lim c) (max_tilt_angle_ c) (thrust_saturation_ c)
    (last_output_command c) v (last_update c) (first_iteration c) (mute_lateral_gains c)
    (mutex_lateral_gains_after_toggle c) (mute_coefficitent_ c)
    (gains_filter_max_change_ c) (gains_filter_min_change_ c) (Ib_b c) (Iw_w c).

Definition set_last_update (c : NsfController) (v : Time) :
  NsfController :=
  Build_NsfController (is_active c) (transformer c) (uav_state_ c) (drs_desired_gains c)
    (uav_mass_ c) (uav_mass_difference c) (g_ c) (motor_params_ c) (hover_thrust c)
    (kpxy c) (kiwxy c) (kibxy c) (kvxy c) (kaxy c) (kpz c) (kvz c) (kaz c) (kiwxy_lim c)
    (kibxy_lim c) (km c) (km_lim c) (max_tilt_angle_ c) (thrust_saturation_ c)
    (last_output_command c) (activation_control_command_ c) v (first_iteration c)
    (mute_lateral_gains c) (mutex_lateral_gains_after_toggle c) (mute_coefficitent_ c)
    (gains_filter_max_change_ c) (gains_filter_min_change_ c) (Ib_b c) (Iw_w c).

Definition set_first_iteration (c : NsfController) (v : bool) :
  NsfController :=
  Build_NsfController (is_active c) (transformer c) (uav_state_ c) (drs_desired_gains c)
    (uav_mass_ c) (uav_mass_difference c) (g_ c) (motor_params_ c) (hover_thrust c)
    (kpxy c) (kiwxy c) (kibxy c) (kvxy c) (kaxy c) (kpz c) (kvz c) (kaz c) (kiwxy_lim c)
    (kibxy_lim c) (km c) (km_lim c) (max_tilt_angle_ c) (thrust_saturation_ c)
    (last_output_command c) (activation_control_command_ c) (last_update c) v
    (mute_lateral_gains c) (mutex_lateral_gains_after_toggle c) (mute_coefficitent_ c)
    (gains_filter_max_change_ c) (gains_filter_min_change_ c) (Ib_b c) (Iw_w c).

Definition set_mute_lateral_gains (c : NsfController) (v : bool) :
  NsfController :=
  Build_NsfController (is_active c) (transformer c) (uav_state_ c) (drs_desired_gains c)
    (uav_mass_ c) (uav_mass_difference c) (g_ c) (motor_params_ c) (hover_thrust c)
    (kpxy c) (kiwxy c) (kibxy c) (kvxy c) (kaxy c) (kpz c) (kvz c) (kaz c) (kiwxy_lim c)
    (kibxy_lim c) (km c) (km_lim c) (max_tilt_angle_ c) (thrust_saturation_ c)
    (last_output_command c) (activation_control_command_ c) (last_update c)
    (first_iteration c) v (mutex_lateral_gains_after_toggle c) (mute_coefficitent_ c)
    (gains_filter_max_change_ c) (gains_filter_min_change_ c) (Ib_b c) (Iw_w c).

Definition set_mutex_lateral_gains_after_toggle (c : NsfController) (v : bool) :
  NsfController :=
  Build_NsfController (is_active c) (transformer c) (uav_state_ c) (drs_desired_gains c)
    (uav_mass_ c) (uav_mass_difference c) (g_ c) (motor_params_ c) (hover_thrust c)
    (kpxy c) (kiwxy c) (kibxy c) (kvxy c) (kaxy c) (kpz c) (kvz c) (kaz c) (kiwxy_lim c)
    (kibxy_lim c) (km c) (km_lim c) (max_tilt_angle_ c) (thrust_saturation_ c)
    (last_output_command c) (activation_control_command_ c) (last_update c)
    (first_iteration c) (mute_lateral_gains c) v (mute_coefficitent_ c)
    (gains_filter_max_change_ c) (gains_filter_min_change_ c) (Ib_b c) (Iw_w c).

Definition set_Ib_b (c : NsfController) (v : Vector2d D) :
  NsfController :=
  Build_NsfController (is_active c) (transformer c) (uav_state_ c) (drs_desired_gains c)
    (uav_mass_ c) (uav_mass_difference c) (g_ c) (motor_params_ c) (hover_thrust c)
    (kpxy c) (kiwxy c) (kibxy c) (kvxy c) (kaxy c) (kpz c) (kvz c) (kaz c) (kiwxy_lim c)
    (kibxy_lim c) (km c) (km_lim c) (max_tilt_angle_ c) (thrust_saturation_ c)
    (last_output_command c) (activation_control_command_ c) (last_update c)
    (first_iteration c) (mute_lateral_gains c) (mutex_lateral_gains_after_toggle c)
    (mute_coefficitent_ c) (gains_filter_max_change_ c) (gains_filter_min_change_ c) v
    (Iw_w c).

Definition set_Iw_w (c : NsfController) (v : Vector2d D) :
  NsfController :=
  Build_NsfController (is_active c) (transformer c) (uav_state_ c) (drs_desired_gains c)
    (uav_mass_ c) (uav_mass_difference c) (g_ c) (motor_params_ c) (hover_thrust c)
    (kpxy c) (kiwxy c) (kibxy c) (kvxy c) (kaxy c) (kpz c) (kvz c) (kaz c) (kiwxy_lim c)
    (kibxy_lim c) (km c) (km_lim c) (max_tilt_angle_ c) (thrust_saturation_ c)
    (last_output_command c) (activation_control_command_ c) (last_update c)
    (first_iteration c) (mute_lateral_gains c) (mutex_lateral_gains_after_toggle c)
    (mute_coefficitent_ c) (gains_filter_max_change_ c) (gains_filter_min_change_ c)
    (Ib_b c) v.

End Members.
Arguments NsfController : clear implicits.
(** ** The methods of [NsfController] *)

Section Controller.
Context {D : Type} {ops : DoubleOps D}.
Local Open Scope double_scope.

Local Abbreviation Controller := (NsfController D).

(** Components of an [Eigen] vector: [v[X]], [v[Y]], [v[Z]] with
    [#define X 0], [#define Y 1], [#define Z 2]. *)
Definition vX (v : Vector3d D) : D := fst (fst v).
Definition vY (v : Vector3d D) : D := snd (fst v).
Definition vZ (v : Vector3d D) : D := snd v.

(** [a + b], [a - b] and [a.cwiseProduct(b)] on [Eigen::Vector3d] *)
Definition vadd (a b : Vector3d D) : Vector3d D :=
  (vX a + vX b, vY a + vY b, vZ a + vZ b).
Definition vsub (a b : Vector3d D) : Vector3d D :=
  (vX a - vX b, vY a - vY b, vZ a - vZ b).
Definition cwiseProduct (a b : Vector3d D) : Vector3d D :=
  (vX a * vX b, vY a * vY b, vZ a * vZ b).

(** [rotate2d]: [Eigen::Rotation2D<double>(angle).toRotationMatrix() * vector_in],
    the matrix being [cos, -sin; sin, cos]. *)
Definition rotate2d (vector_in : Vector2d D) (angle : D) : Vector2d D :=
  (cos angle * fst vector_in + (- sin angle) * snd vector_in,
   sin angle * fst vector_in + cos angle * snd vector_in).

(** [calculateGainChange]; the gain's [name] is only logged. *)
Definition calculateGainChange (c : Controller) (current_value desired_value : D)
  (bypass_rate : bool) : D :=
  let change := desired_value - current_value in
  let change :=
    if negb bypass_rate then
      (* if current value is near 0... *)
      if fabs current_value <? dlit 0.000001 (* 1e-6 *) then
        change * gains_filter_max_change_ c
      else
        let saturated_change := change in
        let change_in_perc := (current_value + saturated_change) / current_value - 1 in
        let saturated_change :=
          if change_in_perc >? gains_filter_max_change_ c then
            current_value * gains_filter_max_change_ c
          else if change_in_perc <? - gains_filter_max_change_ c then
            current_value * - gains_filter_max_change_ c
          else saturated_change in
        if fabs saturated_change <? fabs change * gains_filter_min_change_ c then
          change * gains_filter_min_change_ c
        else saturated_change
    else change in
  current_value + change.

(** The local [bypass_filter] of [timerGainsFilter]. *)
Definition bypass_filter (c : Controller) : bool :=
  mute_lateral_gains c || mutex_lateral_gains_after_toggle c.

(** [timerGainsFilter], one tick of the gain filter timer. *)
Definition timerGainsFilter (c : Controller) : Controller :=
  let gain_coeff := 1 in
  let bypass_filter := bypass_filter c in
  let c := set_mutex_lateral_gains_after_toggle c false in
  let gain_coeff := if mute_lateral_gains c then mute_coefficitent_ c else gain_coeff in
  (* calculate the difference *)
  let d := drs_desired_gains c in
  let c := set_kpxy c (calculateGainChange c (kpxy c)
             (nsf_controllerConfig.kpxy d * gain_coeff) bypass_filter) in
  let c := set_kvxy c (calculateGainChange c (kvxy c)
             (nsf_controllerConfig.kvxy d * gain_coeff) bypass_filter) in
  let c := set_kaxy c (calculateGainChange c (kaxy c)
             (nsf_controllerConfig.kaxy d * gain_coeff) bypass_filter) in
  let c := set_kiwxy c (calculateGainChange c (kiwxy c)
             (nsf_controllerConfig.kiwxy d * gain_coeff) bypass_filter) in
  let c := set_kibxy c (calculateGainChange c (kibxy c)
             (nsf_controllerConfig.kibxy d * gain_coeff) bypass_filter) in
  let c := set_kpz c (calculateGainChange c (kpz c) (nsf_controllerConfig.kpz d) false) in
  let c := set_kvz c (calculateGainChange c (kvz c) (nsf_controllerConfig.kvz d) false) in
  let c := set_kaz c (calculateGainChange c (kaz c) (nsf_controllerConfig.kaz d) false) in
  let c := set_km c (calculateGainChange c (km c) (nsf_controllerConfig.km d) false) in
  let c := set_kiwxy_lim c (calculateGainChange c (kiwxy_lim c)
             (nsf_controllerConfig.kiwxy_lim d) false) in
  let c := set_kibxy_lim c (calculateGainChange c (kibxy_lim c)
             (nsf_controllerConfig.kibxy_lim d) false) in
  let c := set_km_lim c (calculateGainChange c (km_lim c)
             (nsf_controllerConfig.km_lim d) false) in
  c.

(** [dynamicReconfigureCallback] *)
Definition dynamicReconfigureCallback (c : Controller)
  (config : nsf_controllerConfig.t D) : Controller :=
  set_drs_desired_gains c config.

(** [activate]; a null [cmd] is [None]. *)
Definition activate (c : Controller) (cmd : option (AttitudeCommand.t D)) :
  Controller * bool :=
  match cmd with
  | None => (c, false)
  | Some cmd =>
      let c := set_activation_control_command_ c cmd in
      let c := set_uav_mass_difference c (AttitudeCommand.mass_difference cmd) in
      let c := set_activation_control_command_ c
                 (AttitudeCommand.set_controller_enforcing_constraints
                    (activation_control_command_ c) false) in
      let c := set_Ib_b c
                 (asin (AttitudeCommand.disturbance_bx_b cmd
                        / (g_ c * AttitudeCommand.total_mass cmd)),
                  asin (AttitudeCommand.disturbance_by_b cmd
                        / (g_ c * AttitudeCommand.total_mass cmd))) in
      let c := set_Iw_w c
                 (asin (AttitudeCommand.disturbance_wx_w cmd
                        / (g_ c * AttitudeCommand.total_mass cmd)),
                  asin (AttitudeCommand.disturbance_wy_w cmd
                        / (g_ c * AttitudeCommand.total_mass cmd))) in
      let c := set_first_iteration c true in
      let c := set_is_active c true in
      (c, true)
  end.

(** [deactivate] *)
Definition deactivate (c : Controller) : Controller :=
  let c := set_is_active c false in
  let c := set_first_iteration c false in
  let c := set_uav_mass_difference c 0 in
  c.

(** [getStatus], the [active] field of the [mrs_msgs::ControllerStatus] *)
Definition getStatus (c : Controller) : bool := is_active c.

(** [resetDisturbanceEstimators] *)
Definition resetDisturbanceEstimators (c : Controller) : Controller :=
  let c := set_Iw_w c (0, 0) in
  let c := set_Ib_b c (0, 0) in
  c.

(** The local [world_integrals] of [switchOdometrySource]: the world integral
    as a stamped vector in the frame of the stored [uav_state_]
    ("transform world disturabances to the new frame"). *)
Definition world_integrals (c : Controller) (now : Time) : Vector3Stamped.t D :=
  let uav_state := uav_state_ c in
  Vector3Stamped.mk
    (Header.mk now (Header.frame_id (UavState.header uav_state)))
    (Vector3.mk (fst (Iw_w c)) (snd (Iw_w c)) 0).

(** [switchOdometrySource]; [now] is [ros::Time::now()]. *)
Definition switchOdometrySource (c : Controller) (now : Time) (msg : UavState.t D) :
  Controller :=
  let res :=
    transformer c (Header.frame_id (UavState.header msg)) (world_integrals c now) in
  match res with
  | Some value =>
      set_Iw_w c (Vector3.x (Vector3Stamped.vector value),
                  Vector3.y (Vector3Stamped.vector value))
  | None => set_Iw_w c (0, 0)
  end.

(** *** [update] *)

(** The validation and saturation the source spells out for [feedback_w[X]],
    [feedback_w[Y]], [Iw_w[0]], [Iw_w[1]], [Ib_b[0]], [Ib_b[1]] and
    [uav_mass_difference]:
    [if (!std::isfinite(v)) v = 0;
     else if (v > lim) { v = lim; saturated = true; }
     else if (v < -lim) { v = -lim; saturated = true; }].
    The result is the new [v] and the [saturated] flag. *)
Definition saturate (v lim : D) : D * bool :=
  if negb (isfinite v) then (0, false)
  else if v >? lim then (lim, true)
  else if v <? - lim then (- lim, true)
  else (v, false).

(** The same for [feedback_w[Z]], with the bounds [0] and [thrust_saturation_]. *)
Definition saturate_thrust (v thrust_saturation : D) : D * bool :=
  if negb (isfinite v) then (0, false)
  else if v >? thrust_saturation then (thrust_saturation, true)
  else if v <? 0 then (0, true)
  else (v, false).

(** [Ep = Rp - Op] and [Ev = Rv - Ov], the control errors. *)
Definition control_error_Ep (uav_state : UavState.t D) (reference : PositionCommand.t D) :
  Vector3d D :=
  let Rp := (Vector3.x (PositionCommand.position reference),
             - Vector3.y (PositionCommand.position reference),
             Vector3.z (PositionCommand.position reference)) in
  let Op := (Vector3.x (Pose.position (UavState.pose uav_state)),
             - Vector3.y (Pose.position (UavState.pose uav_state)),
             Vector3.z (Pose.position (UavState.pose uav_state))) in
  vsub Rp Op.

Definition control_error_Ev (uav_state : UavState.t D) (reference : PositionCommand.t D) :
  Vector3d D :=
  let Rv := (Vector3.x (PositionCommand.velocity reference),
             - Vector3.y (PositionCommand.velocity reference),
             Vector3.z (PositionCommand.velocity reference)) in
  let Ov := (Vector3.x (Twist.linear (UavState.velocity uav_state)),
             - Vector3.y (Twist.linear (UavState.velocity uav_state)),
             Vector3.z (Twist.linear (UavState.velocity uav_state))) in
  vsub Rv Ov.

(** [(roll, pitch, yaw)] of the vehicle's attitude ("calculate the euler angles"). *)
Definition euler_angles (uav_state : UavState.t D) : D * D * D :=
  let q := Pose.orientation (UavState.pose uav_state) in
  getRPY (Quaternion.x q) (Quaternion.y q) (Quaternion.z q) (Quaternion.w q).

(** [dt = (uav_state->header.stamp - last_update).toSec()] *)
Definition update_dt (c : Controller) (uav_state : UavState.t D) : D :=
  toSec (Header.stamp (UavState.header uav_state) - last_update c)%Z.

(** "recalculate the hover thrust" *)
Definition recalculate_hover_thrust (c : Controller) : Controller :=
  let total_mass := uav_mass_ c + uav_mass_difference c in
  set_hover_thrust c
    (sqrt (total_mass * g_ c) * MotorParams.hover_thrust_a (motor_params_ c)
     + MotorParams.hover_thrust_b (motor_params_ c)).

(** "update parameters": the flags of the lateral gain muting *)
Definition update_mute_flags (c : Controller) (reference : PositionCommand.t D) :
  Controller :=
  let c :=
    if mute_lateral_gains c && negb (PositionCommand.disable_position_gains reference)
    then set_mutex_lateral_gains_after_toggle c true
    else c in
  set_mute_lateral_gains c (PositionCommand.disable_position_gains reference).

(** "calculate the NSFs": the local [feedback_w] before its validation *)
Definition nsf_feedback_w (c : Controller) (reference : PositionCommand.t D)
  (roll pitch yaw : D) (Ep Ev : Vector3d D) : Vector3d D :=
  let Ib_w := rotate2d (Ib_b c) (- yaw) in
  (* create vectors of gains *)
  let kp := (kpxy c, kpxy c, kpz c) in
  let kv := (kvxy c, kvxy c, kvz c) in
  let ka := (kaxy c, kaxy c, kaz c) in
  (* calculate the feed forwared acceleration *)
  let feed_forward :=
    (asin ((Vector3.x (PositionCommand.acceleration reference) * cos pitch * cos roll)
           / g_ c),
     asin ((- Vector3.y (PositionCommand.acceleration reference) * cos pitch * cos roll)
           / g_ c),
     Vector3.z (PositionCommand.acceleration reference) * (hover_thrust c / g_ c)) in
  (* calculate the componentes of our feedback *)
  let p_component := cwiseProduct kp Ep in
  let v_component := cwiseProduct kv Ev in
  let a_component := cwiseProduct ka feed_forward in
  let i_component := (fst Ib_w + fst (Iw_w c), snd Ib_w + snd (Iw_w c), 0) in
  cwiseProduct
    (vadd (vadd (vadd (vadd p_component v_component) a_component) i_component)
       (0, 0, hover_thrust c))
    (1, 1, 1 / (cos roll * cos pitch)).

(** "integrate the world error" on one horizontal axis: the entry of
    [integration_switch], the accumulation and the saturation of [Iw_w[i]].
    [saturated] and [feedback] are the axis' saturation flag and its validated
    feedback, [Ep_i] its position error. *)
Definition integration_switch (saturated : bool) (feedback Ep_i : D) : D :=
  if saturated && (sign feedback =? sign Ep_i)%Z then 0 else 1.

Definition integrate_world (c : Controller) (saturated : bool) (feedback Ep_i dt Iw_i : D) :
  D :=
  fst (saturate (Iw_i + kiwxy c * (Ep_i * integration_switch saturated feedback Ep_i) * dt)
         (kiwxy_lim c)).

(** "integrate the body error" on one axis of the body frame *)
Definition integrate_body (c : Controller) (Ep_body_i dt Ib_i : D) : D :=
  fst (saturate (Ib_i + kibxy c * Ep_body_i * dt) (kibxy_lim c)).

(** "integrate the mass difference" *)
Definition integrate_mass (c : Controller) (z_saturated : bool) (Ep_z dt : D) : D :=
  let uav_mass_difference :=
    if negb z_saturated then uav_mass_difference c + km c * Ep_z * dt
    else uav_mass_difference c in
  fst (saturate uav_mass_difference (km_lim c)).

(** The part of [update] below the check of [dt]: the feedback, its
    saturation, the three estimators and the output command.  [c] already holds
    the new [last_update]; [now] is [ros::Time::now()]. *)
Definition update_control (c : Controller) (now : Time) (uav_state : UavState.t D)
  (reference : PositionCommand.t D) (dt : D) : Controller * AttitudeCommand.t D :=
  let Ep := control_error_Ep uav_state reference in
  let Ev := control_error_Ev uav_state reference in
  (* calculate the euler angles *)
  let roll := fst (fst (euler_angles uav_state)) in
  let pitch := snd (fst (euler_angles uav_state)) in
  let yaw := snd (euler_angles uav_state) in
  (* recalculate the hover thrust *)
  let total_mass := uav_mass_ c + uav_mass_difference c in
  let c := recalculate_hover_thrust c in
  (* update parameters *)
  let c := update_mute_flags c reference in
  (* calculate the NSFs *)
  let Ib_w := rotate2d (Ib_b c) (- yaw) in
  let feedback_w := nsf_feedback_w c reference roll pitch yaw Ep Ev in
  (* validation and saturation *)
  let sat_x := saturate (vX feedback_w) (max_tilt_angle_ c) in
  let sat_y := saturate (vY feedback_w) (max_tilt_angle_ c) in
  let sat_z := saturate_thrust (vZ feedback_w) (thrust_saturation_ c) in
  let feedback_w := (fst sat_x, fst sat_y, fst sat_z) in
  let x_saturated := snd sat_x in
  let y_saturated := snd sat_y in
  let z_saturated := snd sat_z in
  (* integrate the world error *)
  let c := set_Iw_w c
             (integrate_world c x_saturated (vX feedback_w) (vX Ep) dt (fst (Iw_w c)),
              integrate_world c y_saturated (vY feedback_w) (vY Ep) dt (snd (Iw_w c))) in
  (* integrate the body error *)
  let Ep_body := rotate2d (vX Ep, vY Ep) yaw in
  let c := set_Ib_b c
             (integrate_body c (fst Ep_body) dt (fst (Ib_b c)),
              integrate_body c (snd Ep_body) dt (snd (Ib_b c))) in
  (* integrate the mass difference *)
  let c := set_uav_mass_difference c (integrate_mass c z_saturated (vZ Ep) dt) in
  (* produce the control output *)
  (* rotate the feedback to the body frame *)
  let feedback_b := rotate2d (vX feedback_w, vY feedback_w) yaw in
  let output_command :=
    {| AttitudeCommand.header := Header.mk now EmptyString;
       AttitudeCommand.controller := "NsfController"%string;
       AttitudeCommand.euler_attitude :=
         Vector3.mk (snd feedback_b) (fst feedback_b) (PositionCommand.yaw reference);
       AttitudeCommand.euler_attitude_set := true;
       AttitudeCommand.quater_attitude_set := false;
       AttitudeCommand.attitude_rate_set := false;
       AttitudeCommand.thrust := vZ feedback_w;
       AttitudeCommand.mode_mask := MODE_EULER_ATTITUDE;
       AttitudeCommand.mass_difference := uav_mass_difference c;
       AttitudeCommand.total_mass := total_mass;
       AttitudeCommand.disturbance_wx_w := g_ c * total_mass * sin (fst (Iw_w c));
       AttitudeCommand.disturbance_wy_w := g_ c * total_mass * sin (snd (Iw_w c));
       AttitudeCommand.disturbance_bx_w := g_ c * total_mass * sin (fst Ib_w);
       AttitudeCommand.disturbance_by_w := g_ c * total_mass * sin (snd Ib_w);
       AttitudeCommand.disturbance_bx_b := g_ c * total_mass * sin (fst (Ib_b c));
       AttitudeCommand.disturbance_by_b := g_ c * total_mass * sin (snd (Ib_b c));
       AttitudeCommand.controller_enforcing_constraints := false |} in
  let c := set_last_output_command c (Some output_command) in
  (c, output_command).

(** [update]; the result is the controller after the call and the returned
    pointer, [None] for a null one.  [now] is [ros::Time::now()]. *)
Definition update (c : Controller) (now : Time) (uav_state : UavState.t D)
  (reference : PositionCommand.t D) : Controller * option (AttitudeCommand.t D) :=
  let c := set_uav_state_ c uav_state in
  if negb (is_active c) then (c, None)
  else
    (* calculate the dt *)
    if first_iteration c then
      let c := set_last_update c (Header.stamp (UavState.header uav_state)) in
      let c := set_first_iteration c false in
      (c, Some (activation_control_command_ c))
    else
      let dt := update_dt c uav_state in
      let c := set_last_update c (Header.stamp (UavState.header uav_state)) in
      if fabs dt <=? dlit 0.001 then
        match last_output_command c with
        | Some cmd => (c, Some cmd)
        | None => (c, Some (activation_control_command_ c))
        end
      else
        let r := update_control c now uav_state reference dt in
        (fst r, Some (snd r)).

(** *** Vocabulary of the statements *)

(** [v] is finite and lies in [[lo, hi]]. *)
Definition in_range (v lo hi : D) : Prop :=
  isfinite v = true /\ (lo <=? v) = true /\ (v <=? hi) = true.

(** A call of [update] that reaches the control law: the controller is
    active, the call is not the first one since the activation, and [dt] is
    not within one millisecond of zero. *)
Definition reaches_control (c : Controller) (uav_state : UavState.t D) : bool :=
  is_active c && negb (first_iteration c)
  && negb (fabs (update_dt c uav_state) <=? dlit 0.001).

Definition full_tick (c : Controller) (uav_state : UavState.t D) : Prop :=
  reaches_control c uav_state = true.

(** The local [feedback_w] of such a call, before its validation, from the
    controller as it is when [update] is called. *)
Definition tick_feedback_w (c : Controller) (uav_state : UavState.t D)
  (reference : PositionCommand.t D) : Vector3d D :=
  nsf_feedback_w (recalculate_hover_thrust c) reference
    (fst (fst (euler_angles uav_state))) (snd (fst (euler_angles uav_state)))
    (snd (euler_angles uav_state))
    (control_error_Ep uav_state reference) (control_error_Ev uav_state reference).

(** The validated [feedback_w[X]], [feedback_w[Y]], [feedback_w[Z]] of the call
    with the flags [x_saturated], [y_saturated], [z_saturated]. *)
Definition tick_sat_x (c : Controller) (uav_state : UavState.t D)
  (reference : PositionCommand.t D) : D * bool :=
  saturate (vX (tick_feedback_w c uav_state reference)) (max_tilt_angle_ c).

Definition tick_sat_y (c : Controller) (uav_state : UavState.t D)
  (reference : PositionCommand.t D) : D * bool :=
  saturate (vY (tick_feedback_w c uav_state reference)) (max_tilt_angle_ c).

Definition tick_sat_z (c : Controller) (uav_state : UavState.t D)
  (reference : PositionCommand.t D) : D * bool :=
  saturate_thrust (vZ (tick_feedback_w c uav_state reference)) (thrust_saturation_ c).

(** *** The two drivers of the controller

    [update] is called once per vehicle state message and [timerGainsFilter]
    by its timer; a run of the controller is a sequence of such calls. *)
Inductive event : Type :=
| EvUpdate (now : Time) (uav_state : UavState.t D) (reference : PositionCommand.t D)
| EvTimer.

Definition step (c : Controller) (ev : event) : Controller :=
  match ev with
  | EvUpdate now uav_state reference => fst (update c now uav_state reference)
  | EvTimer => timerGainsFilter c
  end.

Definition run (c : Controller) (evs : list event) : Controller :=
  fold_left step evs c.

(** A call of [update] in [evs], started from [c], reaches the control law with
    [mute_lateral_gains] set and a reference whose [disable_position_gains] is
    off: the muting is toggled off. *)
Fixpoint toggled_off (c : Controller) (evs : list event) : bool :=
  match evs with
  | [] => false
  | ev :: evs =>
      match ev with
      | EvUpdate _ uav_state reference =>
          reaches_control c uav_state && mute_lateral_gains c
          && negb (PositionCommand.disable_position_gains reference)
      | EvTimer => false
      end
      || toggled_off (step c ev) evs
  end.

(** The gain after [n] ticks of the filter toward a fixed [desired_value],
    with no bypass. *)
Fixpoint gain_filter_iter (c : Controller) (n : nat) (current_value desired_value : D) :
  D :=
  match n with
  | O => current_value
  | S n =>
      gain_filter_iter c n (calculateGainChange c current_value desired_value false)
        desired_value
  end.

(** [evs] holds calls of [update] only. *)
Definition updates_only (evs : list event) : bool :=
  forallb (fun ev => match ev with EvUpdate _ _ _ => true | EvTimer => false end) evs.

End Controller.

(** ** The controller's interface

    The calls that the controller manager, the dynamic reconfigure server and
    the timer make on an [NsfController], and the controller after a sequence of
    them. *)

Section Interface.
Context {D : Type} {ops : DoubleOps D}.
Local Open Scope double_scope.

Inductive call : Type :=
| CallActivate (cmd : option (AttitudeCommand.t D))
| CallDeactivate
| CallUpdate (now : Time) (uav_state : UavState.t D) (reference : PositionCommand.t D)
| CallSwitchOdometrySource (now : Time) (msg : UavState.t D)
| CallResetDisturbanceEstimators
| CallDynamicReconfigure (config : nsf_controllerConfig.t D)
| CallTimerGainsFilter.

Definition exec (c : NsfController D) (k : call) : NsfController D :=
  match k with
  | CallActivate cmd => fst (activate c cmd)
  | CallDeactivate => deactivate c
  | CallUpdate now uav_state reference => fst (update c now uav_state reference)
  | CallSwitchOdometrySource now msg => switchOdometrySource c now msg
  | CallResetDisturbanceEstimators => resetDisturbanceEstimators c
  | CallDynamicReconfigure config => dynamicReconfigureCallback c config
  | CallTimerGainsFilter => timerGainsFilter c
  end.

Definition exec_all (c : NsfController D) (ks : list call) : NsfController D :=
  fold_left exec ks c.

(** The members that [initialize] sets once and for all. *)
Definition parameters (c : NsfController D) :
  D * D * MotorParams.t D * D * D * D * D * D :=
  (uav_mass_ c, g_ c, motor_params_ c, max_tilt_angle_ c, thrust_saturation_ c,
   mute_coefficitent_ c, gains_filter_max_change_ c, gains_filter_min_change_ c).

(** The actual gains (used and already filtered). *)
Definition actual_gains (c : NsfController D) : nsf_controllerConfig.t D :=
  {| nsf_controllerConfig.kpxy := kpxy c;
     nsf_controllerConfig.kvxy := kvxy c;
     nsf_controllerConfig.kaxy := kaxy c;
     nsf_controllerConfig.kiwxy := kiwxy c;
     nsf_controllerConfig.kibxy := kibxy c;
     nsf_controllerConfig.kpz := kpz c;
     nsf_controllerConfig.kvz := kvz c;
     nsf_controllerConfig.kaz := kaz c;
     nsf_controllerConfig.kiwxy_lim := kiwxy_lim c;
     nsf_controllerConfig.kibxy_lim := kibxy_lim c;
     nsf_controllerConfig.km := km c;
     nsf_controllerConfig.km_lim := km_lim c |}.

(** The twelve gains of a set, the five lateral ones that the muting scales,
    and the seven others. *)
Definition gain_fields : list (nsf_controllerConfig.t D -> D) :=
  [nsf_controllerConfig.kpxy; nsf_controllerConfig.kvxy; nsf_controllerConfig.kaxy;
   nsf_controllerConfig.kiwxy; nsf_controllerConfig.kibxy;
   nsf_controllerConfig.kpz; nsf_controllerConfig.kvz; nsf_controllerConfig.kaz;
   nsf_controllerConfig.km; nsf_controllerConfig.kiwxy_lim;
   nsf_controllerConfig.kibxy_lim; nsf_controllerConfig.km_lim].

Definition lateral_fields : list (nsf_controllerConfig.t D -> D) :=
  [nsf_controllerConfig.kpxy; nsf_controllerConfig.kvxy; nsf_controllerConfig.kaxy;
   nsf_controllerConfig.kiwxy; nsf_controllerConfig.kibxy].

Definition other_fields : list (nsf_controllerConfig.t D -> D) :=
  [nsf_controllerConfig.kpz; nsf_controllerConfig.kvz; nsf_controllerConfig.kaz;
   nsf_controllerConfig.km; nsf_controllerConfig.kiwxy_lim;
   nsf_controllerConfig.kibxy_lim; nsf_controllerConfig.km_lim].

(** The three estimators are finite and within their limits. *)
Definition within_limits (c : NsfController D) : Prop :=
  in_range (fst (Iw_w c)) (- kiwxy_lim c) (kiwxy_lim c) /\
  in_range (snd (Iw_w c)) (- kiwxy_lim c) (kiwxy_lim c) /\
  in_range (fst (Ib_b c)) (- kibxy_lim c) (kibxy_lim c) /\
  in_range (snd (Ib_b c)) (- kibxy_lim c) (kibxy_lim c) /\
  in_range (uav_mass_difference c) (- km_lim c) (km_lim c).

(** The calls that assign an estimator a value of the caller, or a limit. *)
Definition is_seed (k : call) : bool :=
  match k with
  | CallActivate _ | CallSwitchOdometrySource _ _ | CallTimerGainsFilter => true
  | _ => false
  end.

Definition is_timer (k : call) : bool :=
  match k with CallTimerGainsFilter => true | _ => false end.

Definition is_reconfigure (k : call) : bool :=
  match k with CallDynamicReconfigure _ => true | _ => false end.

Definition is_activation (k : call) : bool :=
  match k with CallActivate (Some _) => true | _ => false end.

End Interface.

(** * The PID controller

    [Pid] and [PidController], the translation unit of
    src/pid_controller/pid_controller.cpp that comes before the NSF controller.
    [PidController::Initialize] reads the parameter server and starts the
    dynamic reconfigure server; it has no counterpart here. *)

Module Pid.
Section Def.
Context {D : Type} {ops : DoubleOps D}.
Local Open Scope double_scope.

(** The members of [class Pid]. *)
Record t : Type := mk {
  integral : D;
  last_error : D;
  (** gains *)
  kp : D;
  kd : D;
  ki : D;
  exp_filter_const : D;
  integral_saturation : D;
  saturation : D;
  name : string
}.

Definition set_integral (p : t) (v : D) : t :=
  mk v (last_error p) (kp p) (kd p) (ki p) (exp_filter_const p)
    (integral_saturation p) (saturation p) (name p).

Definition set_last_error (p : t) (v : D) : t :=
  mk (integral p) v (kp p) (kd p) (ki p) (exp_filter_const p)
    (integral_saturation p) (saturation p) (name p).

(** [Pid::setGains] *)
Definition setGains (p : t) (kp kd ki : D) : t :=
  mk (integral p) (last_error p) kp kd ki (exp_filter_const p)
    (integral_saturation p) (saturation p) (name p).

(** [Pid::Pid] *)
Definition Pid (name : string)
  (kp kd ki integral_saturation saturation exp_filter_const : D) : t :=
  mk 0 0 kp kd ki exp_filter_const integral_saturation saturation name.

(** The locals [difference] ("calculate the filtered difference") and
    [control_output] ("calculate the pid action") of [Pid::update], the latter
    before its saturation. *)
Definition difference (p : t) (error dt : D) : D :=
  exp_filter_const p * last_error p
  + (1 - exp_filter_const p) * ((error - last_error p) / dt).

Definition control_output (p : t) (error dt : D) : D :=
  kp p * error + kd p * difference p error dt + ki p * integral p.

(** [Pid::update]: the object after the call and the returned
    [control_output].  Both saturations are the chain
    [if (!std::isfinite(v)) v = 0; else if (v > lim) ...; else if (v < -lim) ...]
    of [saturate]. *)
Definition update (p : t) (error dt : D) : t * D :=
  (* calculate the filtered difference *)
  let difference := difference p error dt in
  (* calculate the pid action *)
  let control_output := control_output p error dt in
  let p := set_last_error p error in
  (* saturate the control output *)
  let sat := saturate control_output (saturation p) in
  let control_output := fst sat in
  let saturated := snd sat in
  let p :=
    if saturated then
      (* integrate only in the direction oposite to the saturation (antiwindup) *)
      if (control_output >? 0) && (error <? 0) then
        set_integral p (integral p + error)
      else if (control_output <? 0) && (error >? 0) then
        set_integral p (integral p + error)
      else p
    else
      (* if the output is not saturated, we do not care in which direction do we
         integrate *)
      set_integral p (integral p + error) in
  (* saturate the integral *)
  let p := set_integral p (fst (saturate (integral p) (integral_saturation p))) in
  (p, control_output).

(** [Pid::reset] *)
Definition reset (p : t) (last_error : D) : t :=
  let p := set_integral p 0 in
  set_last_error p last_error.

(** The operations on a [Pid], and a [Pid] after a sequence of them. *)
Inductive call : Type :=
| CallUpdate (error dt : D)
| CallReset (last_error : D)
| CallSetGains (kp kd ki : D).

Definition exec (p : t) (k : call) : t :=
  match k with
  | CallUpdate error dt => fst (update p error dt)
  | CallReset last_error => reset p last_error
  | CallSetGains kp kd ki => setGains p kp kd ki
  end.

Definition exec_all (p : t) (ks : list call) : t := fold_left exec ks p.

End Def.
Arguments t : clear implicits.
Arguments call : clear implicits.
End Pid.

Module PidController.

(** [mrs_msgs::AttitudeCommand] as this controller fills it *)
Module AttitudeCommand.
Section Def.
Context {D : Type}.
Record t : Type := mk { header : Header.t; pitch : D; roll : D; yaw : D; thrust : D }.
End Def.
Arguments t : clear implicits.
End AttitudeCommand.

(** [geometry_msgs::PoseWithCovariance] and [nav_msgs::Odometry] *)
Module PoseWithCovariance.
Section Def.
Context {D : Type}.
Record t : Type := mk { pose : Pose.t D }.
End Def.
Arguments t : clear implicits.
End PoseWithCovariance.

Module Odometry.
Section Def.
Context {D : Type}.
Record t : Type := mk { pose : PoseWithCovariance.t D }.
End Def.
Arguments t : clear implicits.
End Odometry.

(** [mrs_controllers::pid_gainsConfig] *)
Module pid_gainsConfig.
Section Def.
Context {D : Type}.
Record t : Type := mk {
  kpxy : D; kdxy : D; kixy : D;
  kpz : D; kdz : D; kiz : D;
  hover_thrust : D
}.
End Def.
Arguments t : clear implicits.
End pid_gainsConfig.

Section Def.
Context {D : Type} {ops : DoubleOps D}.
Local Open Scope double_scope.

(** The members of [class PidController] that its methods read.  [pid_x],
    [pid_y] and [pid_z] point to three objects of their own; the members
    [roll], [pitch], [yaw] are hidden by the locals of [update]. *)
Record t : Type := mk {
  pid_x : Pid.t D;
  pid_y : Pid.t D;
  pid_z : Pid.t D;
  hover_thrust_ : D;
  (** gains *)
  kpxy_ : D;
  kixy_ : D;
  kdxy_ : D;
  kpz_ : D;
  kiz_ : D;
  kdz_ : D;
  max_tilt_angle_ : D;
  (** a null pointer is [None] *)
  last_output_command : option (AttitudeCommand.t D);
  last_update : Time;
  first_iteration : bool
}.

Definition set_pid_x (c : t) (v : Pid.t D) : t :=
  mk v (pid_y c) (pid_z c) (hover_thrust_ c) (kpxy_ c) (kixy_ c) (kdxy_ c)
    (kpz_ c) (kiz_ c) (kdz_ c) (max_tilt_angle_ c) (last_output_command c)
    (last_update c) (first_iteration c).

Definition set_pid_y (c : t) (v : Pid.t D) : t :=
  mk (pid_x c) v (pid_z c) (hover_thrust_ c) (kpxy_ c) (kixy_ c) (kdxy_ c)
    (kpz_ c) (kiz_ c) (kdz_ c) (max_tilt_angle_ c) (last_output_command c)
    (last_update c) (first_iteration c).

Definition set_pid_z (c : t) (v : Pid.t D) : t :=
  mk (pid_x c) (pid_y c) v (hover_thrust_ c) (kpxy_ c) (kixy_ c) (kdxy_ c)
    (kpz_ c) (kiz_ c) (kdz_ c) (max_tilt_angle_ c) (last_output_command c)
    (last_update c) (first_iteration c).

Definition set_last_update (c : t) (v : Time) : t :=
  mk (pid_x c) (pid_y c) (pid_z c) (hover_thrust_ c) (kpxy_ c) (kixy_ c) (kdxy_ c)
    (kpz_ c) (kiz_ c) (kdz_ c) (max_tilt_angle_ c) (last_output_command c)
    v (first_iteration c).

Definition set_first_iteration (c : t) (v : bool) : t :=
  mk (pid_x c) (pid_y c) (pid_z c) (hover_thrust_ c) (kpxy_ c) (kixy_ c) (kdxy_ c)
    (kpz_ c) (kiz_ c) (kdz_ c) (max_tilt_angle_ c) (last_output_command c)
    (last_update c) v.

(** [PidController::dynamicReconfigureCallback] *)
Definition dynamicReconfigureCallback (c : t) (config : pid_gainsConfig.t D) : t :=
  let kpxy_ := pid_gainsConfig.kpxy config in
  let kdxy_ := pid_gainsConfig.kdxy config in
  let kixy_ := pid_gainsConfig.kixy config in
  let kpz_ := pid_gainsConfig.kpz config in
  let kdz_ := pid_gainsConfig.kdz config in
  let kiz_ := pid_gainsConfig.kiz config in
  let hover_thrust_ := pid_gainsConfig.hover_thrust config in
  mk (Pid.setGains (pid_x c) kpxy_ kdxy_ kixy_)
     (Pid.setGains (pid_y c) kpxy_ kdxy_ kixy_)
     (Pid.setGains (pid_z c) kpz_ kdz_ kiz_)
     hover_thrust_ kpxy_ kixy_ kdxy_ kpz_ kiz_ kdz_
     (max_tilt_angle_ c) (last_output_command c) (last_update c) (first_iteration c).

(** [PidController::Activate] *)
Definition Activate (c : t) : t * bool :=
  let c := set_first_iteration c true in
  (c, true).

(** [PidController::Deactivate] *)
Definition Deactivate (c : t) : t := c.

(** The control errors of [update] ("calculate control errors"). *)
Definition error_x (odometry : Odometry.t D) (reference : PositionCommand.t D) : D :=
  Vector3.x (PositionCommand.position reference)
  - Vector3.x (Pose.position (PoseWithCovariance.pose (Odometry.pose odometry))).

Definition error_y (odometry : Odometry.t D) (reference : PositionCommand.t D) : D :=
  Vector3.y (PositionCommand.position reference)
  - Vector3.y (Pose.position (PoseWithCovariance.pose (Odometry.pose odometry))).

Definition error_z (odometry : Odometry.t D) (reference : PositionCommand.t D) : D :=
  Vector3.z (PositionCommand.position reference)
  - Vector3.z (Pose.position (PoseWithCovariance.pose (Odometry.pose odometry))).

(** [(roll, pitch, yaw)] of the odometry ("calculate the euler angles"). *)
Definition euler_angles (odometry : Odometry.t D) : D * D * D :=
  let q := Pose.orientation (PoseWithCovariance.pose (Odometry.pose odometry)) in
  getRPY (Quaternion.x q) (Quaternion.y q) (Quaternion.z q) (Quaternion.w q).

(** [PidController::update].  The method reads the clock up to three times:
    [now0], [now1] and [now2] are the values of its first, second and third
    [ros::Time::now()].  The result is the controller after the call and the
    returned pointer. *)
Definition update (c : t) (now0 now1 now2 : Time) (odometry : Odometry.t D)
  (reference : PositionCommand.t D) : t * option (AttitudeCommand.t D) :=
  (* calculate control errors *)
  let error_x := error_x odometry reference in
  let error_y := error_y odometry reference in
  let error_z := error_z odometry reference in
  (* calculate the dt *)
  if first_iteration c then
    let c := set_pid_x c (Pid.reset (pid_x c) error_x) in
    let c := set_pid_y c (Pid.reset (pid_y c) error_y) in
    let c := set_pid_z c (Pid.reset (pid_z c) error_z) in
    let c := set_last_update c now0 in
    let c := set_first_iteration c false in
    (c, None)
  else
    let dt := toSec (now0 - last_update c)%Z in
    let c := set_last_update c now1 in
    if dt <=? dlit 0.001 then (c, last_output_command c)
    else
      (* calculate the euler angles *)
      let roll := fst (fst (euler_angles odometry)) in
      let pitch := snd (fst (euler_angles odometry)) in
      let yaw := snd (euler_angles odometry) in
      (* calculate the PIDs *)
      let rx := Pid.update (pid_x c) error_x dt in
      let c := set_pid_x c (fst rx) in
      let action_x := snd rx in
      let ry := Pid.update (pid_y c) error_y dt in
      let c := set_pid_y c (fst ry) in
      let action_y := snd ry in
      let rz := Pid.update (pid_z c) error_z dt in
      let c := set_pid_z c (fst rz) in
      let action_z := (snd rz + hover_thrust_ c) * (1 / (cos roll * cos pitch)) in
      let output_command :=
        {| AttitudeCommand.header := Header.mk now2 EmptyString;
           AttitudeCommand.pitch := action_x * cos yaw - action_y * sin yaw;
           AttitudeCommand.roll := action_y * cos yaw + action_x * sin yaw;
           AttitudeCommand.yaw := PositionCommand.yaw reference;
           AttitudeCommand.thrust := action_z |} in
      (c, Some output_command).

(** [PidController::status]: a null pointer *)
Definition status (c : t) : option bool := None.

(** The calls on a [PidController], and the controller after a sequence of
    them. *)
Inductive call : Type :=
| CallActivate
| CallDeactivate
| CallUpdate (now0 now1 now2 : Time) (odometry : Odometry.t D)
    (reference : PositionCommand.t D)
| CallDynamicReconfigure (config : pid_gainsConfig.t D).

Definition exec (c : t) (k : call) : t :=
  match k with
  | CallActivate => fst (Activate c)
  | CallDeactivate => Deactivate c
  | CallUpdate now0 now1 now2 odometry reference =>
      fst (update c now0 now1 now2 odometry reference)
  | CallDynamicReconfigure config => dynamicReconfigureCallback c config
  end.

Definition exec_all (c : t) (ks : list call) : t := fold_left exec ks c.

(** The gains of the three [Pid]s are the controller's. *)
Definition gains_agree (c : t) : Prop :=
  Pid.kp (pid_x c) = kpxy_ c /\ Pid.kd (pid_x c) = kdxy_ c /\ Pid.ki (pid_x c) = kixy_ c /\
  Pid.kp (pid_y c) = kpxy_ c /\ Pid.kd (pid_y c) = kdxy_ c /\ Pid.ki (pid_y c) = kixy_ c /\
  Pid.kp (pid_z c) = kpz_ c /\ Pid.kd (pid_z c) = kdz_ c /\ Pid.ki (pid_z c) = kiz_ c.

End Def.
Arguments t : clear implicits.
Arguments call : clear implicits.
End PidController.

(** ** What is assumed of [double]

    [deq x y] is the C++ [x == y].  None of the laws says anything about
    rounding: they hold of IEEE 754 binary64 ([b64_laws]) and of the exact
    model [xq] ([xq_laws]). *)
Definition deq {D : Type} {ops : DoubleOps D} (x y : D) : bool :=
  dle x y && dle y x.

Class DoubleLaws (D : Type) {ops : DoubleOps D} : Prop := {
  isfinite_zero : isfinite (dlit 0) = true;
  isfinite_dopp : forall x, isfinite (dopp x) = isfinite x;
  (** a sum or product is finite only if both operands are *)
  isfinite_dadd : forall x y,
    isfinite (dadd x y) = true -> isfinite x = true /\ isfinite y = true;
  isfinite_dmul : forall x y,
    isfinite (dmul x y) = true -> isfinite x = true /\ isfinite y = true;
  isfinite_between : forall a b c,
    isfinite a = true -> isfinite c = true ->
    dle a b = true -> dle b c = true -> isfinite b = true;
  (** [<=] is a total preorder on the values that are not NaN *)
  dle_refl : forall x, isfinite x = true -> dle x x = true;
  dle_nonnan_l : forall x y, dle x y = true -> dle x x = true;
  dle_nonnan_r : forall x y, dle x y = true -> dle y y = true;
  dle_trans : forall x y z, dle x y = true -> dle y z = true -> dle x z = true;
  dlt_dle : forall x y, dlt x y = true -> dle x y = true;
  dle_not_dlt : forall x y, dle x y = true -> dlt y x = false;
  dle_total : forall x y,
    dle x x = true -> dle y y = true -> dlt x y = false -> dle y x = true;
  dopp_dle : forall x y, dle x y = true -> dle (dopp y) (dopp x) = true;
  dopp_zero : dle (dopp (dlit 0)) (dlit 0) = true;
  (** [==] is a congruence for [<] and [std::isfinite] *)
  dlt_deq_l : forall x x' y, deq x x' = true -> dlt x y = dlt x' y;
  dlt_deq_r : forall x y y', deq y y' = true -> dlt x y = dlt x y';
  isfinite_deq : forall x x', deq x x' = true -> isfinite x = isfinite x';
  (** a finite value times a zero is a zero; adding a zero changes no finite value *)
  dmul_zero_r : forall x z,
    isfinite x = true -> deq z (dlit 0) = true -> deq (dmul x z) (dlit 0) = true;
  dmul_zero_l : forall z x,
    deq z (dlit 0) = true -> isfinite x = true -> deq (dmul z x) (dlit 0) = true;
  dadd_zero_r : forall x z,
    isfinite x = true -> deq z (dlit 0) = true -> deq (dadd x z) x = true
}.

(** A [ros::Duration] holds 32 bit seconds and nanoseconds: in seconds it is
    a finite [double]. *)
Class DurationLaws (D : Type) {ops : DoubleOps D} : Prop := {
  isfinite_toSec : forall ns, isfinite (toSec ns) = true
}.

(** ** An executable model of [double]

    NaN, the two infinities, and the rationals with exact arithmetic.
    Zero has no sign: a division of a positive value by zero is [+inf]. *)
Inductive xq : Type :=
| XNaN
| XInf (negative : bool)
| XFin (q : Q).

Module XQ.

Definition Qneg (q : Q) : bool := negb (Qle_bool 0 q).
Definition Qzero (q : Q) : bool := Qeq_bool q 0.

Definition opp (x : xq) : xq :=
  match x with
  | XNaN => XNaN
  | XInf s => XInf (negb s)
  | XFin q => XFin (- q)
  end.

Definition abs (x : xq) : xq :=
  match x with
  | XNaN => XNaN
  | XInf _ => XInf false
  | XFin q => XFin (Qabs q)
  end.

Definition add (x y : xq) : xq :=
  match x, y with
  | XNaN, _ | _, XNaN => XNaN
  | XInf s, XInf s' => if Bool.eqb s s' then XInf s else XNaN
  | XInf s, XFin _ | XFin _, XInf s => XInf s
  | XFin p, XFin q => XFin (p + q)
  end.

Definition sub (x y : xq) : xq := add x (opp y).

Definition mul (x y : xq) : xq :=
  match x, y with
  | XNaN, _ | _, XNaN => XNaN
  | XInf s, XInf s' => XInf (xorb s s')
  | XInf s, XFin q | XFin q, XInf s => if Qzero q then XNaN else XInf (xorb s (Qneg q))
  | XFin p, XFin q => XFin (p * q)
  end.

Definition div (x y : xq) : xq :=
  match x, y with
  | XNaN, _ | _, XNaN => XNaN
  | XInf _, XInf _ => XNaN
  | XInf s, XFin q => XInf (xorb s (Qneg q))
  | XFin _, XInf _ => XFin 0
  | XFin p, XFin q =>
      if Qzero q then (if Qzero p then XNaN else XInf (Qneg p)) else XFin (p / q)
  end.

Definition le (x y : xq) : bool :=
  match x, y with
  | XNaN, _ | _, XNaN => false
  | XInf true, _ | _, XInf false => true
  | XInf false, _ | _, XInf true => false
  | XFin p, XFin q => Qle_bool p q
  end.

Definition lt (x y : xq) : bool :=
  match x, y with
  | XNaN, _ | _, XNaN => false
  | _, _ => negb (le y x)
  end.

Definition finite (x : xq) : bool :=
  match x with XFin _ => true | _ => false end.

(** Stand-ins for libm and tf, exact at the arguments the examples use:
    Newton's iteration for [sqrt], Taylor polynomials for [sin], [cos] and
    [asin], and the first order of the Euler angles of a quaternion close to
    the identity. *)
Fixpoint newton (n : nat) (a x : Q) : Q :=
  match n with
  | O => x
  | S n => newton n a (Qred ((x + a / x) / 2))
  end.

Definition sqrt (x : xq) : xq :=
  match x with
  | XNaN => XNaN
  | XInf s => if s then XNaN else XInf false
  | XFin q =>
      if Qneg q then XNaN
      else if Qzero q then XFin 0
      else XFin (newton 4 q ((q + 1) / 2))
  end.

Definition sin (x : xq) : xq :=
  match x with
  | XFin q => XFin (Qred (q - q ^ 3 / 6 + q ^ 5 / 120))
  | _ => XNaN
  end.

Definition cos (x : xq) : xq :=
  match x with
  | XFin q => XFin (Qred (1 - q ^ 2 / 2 + q ^ 4 / 24))
  | _ => XNaN
  end.

Definition asin (x : xq) : xq :=
  match x with
  | XFin q =>
      if Qle_bool (Qabs q) 1 then XFin (Qred (q + q ^ 3 / 6 + 3 * q ^ 5 / 40)) else XNaN
  | _ => XNaN
  end.

Definition toSec (ns : Z) : xq := XFin (ns # 1000000000).

Definition getRPY (x y z w : xq) : xq * xq * xq :=
  (mul (XFin 2) x, mul (XFin 2) y, mul (XFin 2) z).

(** The rational that a finite value stands for. *)
Definition val (x : xq) : Q :=
  match x with
  | XFin q => q
  | _ => 0%Q
  end.

End XQ.

#[export] Instance xq_ops : DoubleOps xq := {
  dlit := XFin;
  dadd := XQ.add;
  dsub := XQ.sub;
  dmul := XQ.mul;
  ddiv := XQ.div;
  dopp := XQ.opp;
  fabs := XQ.abs;
  dlt := XQ.lt;
  dle := XQ.le;
  isfinite := XQ.finite;
  sqrt := XQ.sqrt;
  sin := XQ.sin;
  cos := XQ.cos;
  asin := XQ.asin;
  sign := signum XQ.lt (XFin 0);
  toSec := XQ.toSec;
  getRPY := XQ.getRPY
}.

(** ** IEEE 754 binary64

    The [double] of the compiled controller, as the Standard Library specifies
    it ([spec_float] with a 53 bit significand): additions, multiplications,
    divisions and square roots are rounded to nearest even, comparisons are the
    IEEE ones.  [<math.h>] and [tf] stay parameters. *)
Module B64.

Definition prec : Z := 53.
Definition emax : Z := 1024.

(** The conversion of an integer, and the value of a decimal literal [n / d]
    (correctly rounded as long as [n] and [d] are below [2 ^ 53]). *)
Definition ofZ (z : Z) : spec_float := binary_normalize prec emax z 0 false.

Definition lit (q : Q) : spec_float :=
  SFdiv prec emax (ofZ (Qnum q)) (ofZ (Zpos (Qden q))).

Definition finite (x : spec_float) : bool :=
  match x with
  | S754_zero _ | S754_finite _ _ _ => true
  | S754_infinity _ | S754_nan => false
  end.

(** [ros::Duration::toSec]: [(double)sec + 1e-9 * (double)nsec] *)
Definition toSec (ns : Z) : spec_float :=
  SFadd prec emax (ofZ (ns / 1000000000))
    (SFmul prec emax (lit (1 # 1000000000)) (ofZ (ns mod 1000000000))).

Record libm : Type := {
  libm_sin : spec_float -> spec_float;
  libm_cos : spec_float -> spec_float;
  libm_asin : spec_float -> spec_float;
  tf_getRPY :
    spec_float -> spec_float -> spec_float -> spec_float ->
    spec_float * spec_float * spec_float
}.

(** A library whose every call returns NaN, for the code that calls none. *)
Definition nan_libm : libm :=
  {| libm_sin := fun _ => S754_nan;
     libm_cos := fun _ => S754_nan;
     libm_asin := fun _ => S754_nan;
     tf_getRPY := fun _ _ _ _ => (S754_nan, S754_nan, S754_nan) |}.

(** The rational that a finite binary64 value stands for. *)
Definition val (x : spec_float) : Q :=
  match x with
  | S754_finite s m e => ((if s then -1 else 1) * inject_Z (Zpos m) * 2 ^ e)%Q
  | _ => 0%Q
  end.

End B64.

Definition b64_ops (m : B64.libm) : DoubleOps spec_float := {|
  dlit := B64.lit;
  dadd := SFadd B64.prec B64.emax;
  dsub := SFsub B64.prec B64.emax;
  dmul := SFmul B64.prec B64.emax;
  ddiv := SFdiv B64.prec B64.emax;
  dopp := SFopp;
  fabs := SFabs;
  dlt := SFltb;
  dle := SFleb;
  isfinite := B64.finite;
  sqrt := SFsqrt B64.prec B64.emax;
  sin := B64.libm_sin m;
  cos := B64.libm_cos m;
  asin := B64.libm_asin m;
  sign := signum SFltb (S754_zero false);
  toSec := B64.toSec;
  getRPY := B64.tf_getRPY m
|}.

(** ** Exact runs of the gain filter

    [calculateGainChange] is a dozen floating-point operations.  [val] reads a
    [double] as a rational; an operation is exact at its operands when [val]
    of its result is the result of the operation in [Q], and a comparison when
    it is the comparison of the values.  [exact_call] says so of the
    operations of one call of [calculateGainChange] with no bypass, on the
    branch that the call takes (of both comparisons of the rate limit, also
    when the first one decides), and [exact_run] of [n] calls in a row toward
    a fixed desired value. *)
Definition Qltb (p q : Q) : bool := negb (Qle_bool q p).

Section Exact.
Context {D : Type} {ops : DoubleOps D}.
Variable val : D -> Q.
Local Open Scope double_scope.

Definition exact_add (a b : D) : Prop := (val (a + b)%D == val a + val b)%Q.
Definition exact_sub (a b : D) : Prop := (val (a - b)%D == val a - val b)%Q.
Definition exact_mul (a b : D) : Prop := (val (a * b)%D == val a * val b)%Q.
Definition exact_div (a b : D) : Prop := (val (a / b)%D == val a / val b)%Q.
Definition exact_opp (a : D) : Prop := (val (- a)%D == - val a)%Q.
Definition exact_fabs (a : D) : Prop := (val (fabs a) == Qabs (val a))%Q.
Definition exact_lt (a b : D) : Prop := (a <? b) = Qltb (val a) (val b).

Definition exact_call (c : NsfController D) (current_value desired_value : D) : Prop :=
  let M := gains_filter_max_change_ c in
  let m := gains_filter_min_change_ c in
  let change := desired_value - current_value in
  exact_sub desired_value current_value /\
  exact_fabs current_value /\
  (0 < val (dlit 0.000001))%Q /\
  exact_lt (fabs current_value) (dlit 0.000001) /\
  if fabs current_value <? dlit 0.000001 then
    exact_mul change M /\ exact_add current_value (change * M)
  else
    let change_in_perc := (current_value + change) / current_value - 1 in
    let saturated_change :=
      if change_in_perc >? M then current_value * M
      else if change_in_perc <? - M then current_value * - M
      else change in
    exact_add current_value change /\
    exact_div (current_value + change) current_value /\
    (val (dlit 1) == 1)%Q /\
    exact_sub ((current_value + change) / current_value) 1 /\
    exact_lt M change_in_perc /\
    exact_opp M /\
    exact_lt change_in_perc (- M) /\
    (if change_in_perc >? M then exact_mul current_value M
     else if change_in_perc <? - M then exact_mul current_value (- M)
     else True) /\
    exact_fabs saturated_change /\
    exact_fabs change /\
    exact_mul (fabs change) m /\
    exact_lt (fabs saturated_change) (fabs change * m) /\
    if fabs saturated_change <? fabs change * m then
      exact_mul change m /\ exact_add current_value (change * m)
    else exact_add current_value saturated_change.

Fixpoint exact_run (c : NsfController D) (n : nat) (current_value desired_value : D) :
  Prop :=
  match n with
  | O => True
  | S n =>
      exact_call c current_value desired_value /\
      exact_run c n (calculateGainChange c current_value desired_value false)
        desired_value
  end.

End Exact.

(** ** Example data

    A vehicle of 2 kg with [g_ = 10], whose motor parameters make the hover
    thrust [hover_b] whatever the mass ([hover_thrust_a = 0]); level attitude
    (the identity quaternion), so that [roll = pitch = yaw = 0]. *)
Module Example.

Section Generic.
Context {D : Type} {ops : DoubleOps D}.

Definition vec (x y z : Q) : Vector3.t D := Vector3.mk (dlit x) (dlit y) (dlit z).

Definition state_at (stamp : Time) (position : Vector3.t D) : UavState.t D :=
  UavState.mk (Header.mk stamp "local_origin"%string)
    (Pose.mk position (Quaternion.mk (dlit 0) (dlit 0) (dlit 0) (dlit 1)))
    (Twist.mk (vec 0 0 0)).

Definition reference_at (position : Vector3.t D) (disable_position_gains : bool) :
  PositionCommand.t D :=
  PositionCommand.mk position (vec 0 0 0) (vec 0 0 0) (dlit 0) disable_position_gains.

(** The command of a previous controller: thrust [1/2], no mass difference,
    and a world disturbance of [wx] newtons along x. *)
Definition previous_command (wx : Q) : AttitudeCommand.t D :=
  {| AttitudeCommand.header := Header.mk 0%Z ""%string;
     AttitudeCommand.controller := "MpcController"%string;
     AttitudeCommand.euler_attitude := vec 0 0 0;
     AttitudeCommand.euler_attitude_set := true;
     AttitudeCommand.quater_attitude_set := false;
     AttitudeCommand.attitude_rate_set := false;
     AttitudeCommand.thrust := dlit (1 # 2);
     AttitudeCommand.mode_mask := MODE_EULER_ATTITUDE;
     AttitudeCommand.mass_difference := dlit 0;
     AttitudeCommand.total_mass := dlit 2;
     AttitudeCommand.disturbance_wx_w := dlit wx;
     AttitudeCommand.disturbance_wy_w := dlit 0;
     AttitudeCommand.disturbance_bx_w := dlit 0;
     AttitudeCommand.disturbance_by_w := dlit 0;
     AttitudeCommand.disturbance_bx_b := dlit 0;
     AttitudeCommand.disturbance_by_b := dlit 0;
     AttitudeCommand.controller_enforcing_constraints := true |}.

Definition gains : nsf_controllerConfig.t D :=
  {| nsf_controllerConfig.kpxy := dlit 2;
     nsf_controllerConfig.kvxy := dlit 1;
     nsf_controllerConfig.kaxy := dlit 0;
     nsf_controllerConfig.kiwxy := dlit 1;
     nsf_controllerConfig.kibxy := dlit 1;
     nsf_controllerConfig.kpz := dlit 2;
     nsf_controllerConfig.kvz := dlit 1;
     nsf_controllerConfig.kaz := dlit 0;
     nsf_controllerConfig.kiwxy_lim := dlit (1 # 4);
     nsf_controllerConfig.kibxy_lim := dlit (1 # 4);
     nsf_controllerConfig.km := dlit 1;
     nsf_controllerConfig.km_lim := dlit 1 |}.

(** A transformer that knows no frame, and one that swaps x and y. *)
Definition no_transform (to_frame : string) (v : Vector3Stamped.t D) :
  option (Vector3Stamped.t D) := None.

Definition swap_xy (to_frame : string) (v : Vector3Stamped.t D) :
  option (Vector3Stamped.t D) :=
  Some (Vector3Stamped.mk
          (Header.mk (Header.stamp (Vector3Stamped.header v)) to_frame)
          (Vector3.mk (Vector3.y (Vector3Stamped.vector v))
             (Vector3.x (Vector3Stamped.vector v))
             (Vector3.z (Vector3Stamped.vector v)))).

(** The controller after [initialize] with the gains above, a maximal tilt of
    [1/2] rad, a mute coefficient of [1/2] and change fractions [max_change]
    and [min_change]; then with the given flags, [last_update] and [Iw_w]. *)
Definition controller (tf : string -> Vector3Stamped.t D -> option (Vector3Stamped.t D))
  (active first mute : bool) (last : Time) (Iw : Vector2d D)
  (thrust_saturation hover_b max_change min_change : Q) : NsfController D :=
  {| is_active := active;
     transformer := tf;
     uav_state_ := state_at 0%Z (vec 0 0 0);
     drs_desired_gains := gains;
     uav_mass_ := dlit 2;
     uav_mass_difference := dlit 0;
     g_ := dlit 10;
     motor_params_ := MotorParams.mk (dlit 0) (dlit hover_b);
     hover_thrust := dlit hover_b;
     kpxy := dlit 2; kiwxy := dlit 1; kibxy := dlit 1; kvxy := dlit 1; kaxy := dlit 0;
     kpz := dlit 2; kvz := dlit 1; kaz := dlit 0;
     kiwxy_lim := dlit (1 # 4); kibxy_lim := dlit (1 # 4);
     km := dlit 1; km_lim := dlit 1;
     max_tilt_angle_ := dlit (1 # 2);
     thrust_saturation_ := dlit thrust_saturation;
     last_output_command := None;
     activation_control_command_ := previous_command 0;
     last_update := last;
     first_iteration := first;
     mute_lateral_gains := mute;
     mutex_lateral_gains_after_toggle := false;
     mute_coefficitent_ := dlit (1 # 2);
     gains_filter_max_change_ := dlit max_change;
     gains_filter_min_change_ := dlit min_change;
     Ib_b := (dlit 0, dlit 0);
     Iw_w := Iw |}.

End Generic.

(** An active controller past its first iteration, last updated at 2 s. *)
Definition flying : NsfController xq :=
  controller (D := xq) no_transform true false false 2000000000%Z (XFin 0, XFin 0)
    (4 # 5) (1 # 2) (1 # 10) (1 # 1000).

(** The same before its activation. *)
Definition idle : NsfController xq :=
  controller (D := xq) no_transform false true false 0%Z (XFin 0, XFin 0)
    (4 # 5) (1 # 2) (1 # 10) (1 # 1000).

(** The same with a thrust saturation of 2 and a hover thrust of [3/2]. *)
Definition strong : NsfController xq :=
  controller (D := xq) no_transform true false false 2000000000%Z (XFin 0, XFin 0)
    2 (3 # 2) (1 # 10) (1 # 1000).

(** A controller whose world integral is [(1, 2)], with each transformer. *)
Definition turning : NsfController xq :=
  controller (D := xq) swap_xy true false false 2000000000%Z (XFin 1, XFin 2)
    (4 # 5) (1 # 2) (1 # 10) (1 # 1000).

Definition lost : NsfController xq :=
  controller (D := xq) no_transform true false false 2000000000%Z (XFin 1, XFin 2)
    (4 # 5) (1 # 2) (1 # 10) (1 # 1000).

(** States of a vehicle at rest at the origin: at the time of the last update,
    half a millisecond after it, ten milliseconds after it, and one second
    before it (a message that comes out of order). *)
Definition state_same : UavState.t xq := state_at 2000000000%Z (vec 0 0 0).
Definition state_too_soon : UavState.t xq := state_at 2000500000%Z (vec 0 0 0).
Definition state_next : UavState.t xq := state_at 2010000000%Z (vec 0 0 0).
Definition state_late : UavState.t xq := state_at 1000000000%Z (vec 0 0 0).

(** References: the origin; one metre ahead along x; the same with the
    position gains disabled. *)
Definition reference_here : PositionCommand.t xq := reference_at (vec 0 0 0) false.
Definition reference_ahead : PositionCommand.t xq := reference_at (vec 1 0 0) false.
Definition reference_muted : PositionCommand.t xq := reference_at (vec 1 0 0) true.

(** The controller [flying] in binary64; the gain filter calls no function of
    [<math.h>]. *)
Definition flying64 : NsfController spec_float :=
  controller (ops := b64_ops B64.nan_libm) no_transform true false false
    2000000000%Z (B64.lit 0, B64.lit 0) (4 # 5) (1 # 2) (1 # 10) (1 # 1000).

(** In binary64 with change fractions [1] and [1/16], and with [9/10] and
    [1/1000]. *)
Definition doubling64 : NsfController spec_float :=
  controller (ops := b64_ops B64.nan_libm) no_transform true false false
    2000000000%Z (B64.lit 0, B64.lit 0) (4 # 5) (1 # 2) 1 (1 # 16).

Definition eager64 : NsfController spec_float :=
  controller (ops := b64_ops B64.nan_libm) no_transform true false false
    2000000000%Z (B64.lit 0, B64.lit 0) (4 # 5) (1 # 2) (9 # 10) (1 # 1000).

(** [ros::Time::now()] in the examples *)
Definition now : Time := 2010000001%Z.

End Example.

(** ** More example data *)

Module Scenarios.
Import Example.

(** [flying] with the lateral gains muted. *)
Definition muted : NsfController xq :=
  controller (D := xq) no_transform true false true 2000000000%Z (XFin 0, XFin 0)
    (4 # 5) (1 # 2) (1 # 10) (1 # 1000).

(** [flying] after a call of [update] ten milliseconds after its last update:
    it holds the command of that call. *)
Definition flown : NsfController xq :=
  fst (update flying now state_next reference_ahead).

(** A state half a millisecond after [state_next]. *)
Definition state_again : UavState.t xq := state_at 2010500000%Z (vec 0 0 0).

(** A reference whose position is not a number. *)
Definition reference_nan : PositionCommand.t xq :=
  reference_at (Vector3.mk XNaN (XInf false) (XFin 0)) false.

(** The gains of [gains] with a proportional lateral gain of 4. *)
Definition stiffer : nsf_controllerConfig.t xq :=
  {| nsf_controllerConfig.kpxy := XFin 4;
     nsf_controllerConfig.kvxy := XFin 1;
     nsf_controllerConfig.kaxy := XFin 0;
     nsf_controllerConfig.kiwxy := XFin 1;
     nsf_controllerConfig.kibxy := XFin 1;
     nsf_controllerConfig.kpz := XFin 2;
     nsf_controllerConfig.kvz := XFin 1;
     nsf_controllerConfig.kaz := XFin 0;
     nsf_controllerConfig.kiwxy_lim := XFin (1 # 4);
     nsf_controllerConfig.kibxy_lim := XFin (1 # 4);
     nsf_controllerConfig.km := XFin 1;
     nsf_controllerConfig.km_lim := XFin 1 |}.

(** Calls on a controller that hold no activation with a command. *)
Definition idle_calls : list (call (D := xq)) :=
  [CallActivate None; CallUpdate now state_next reference_ahead; CallTimerGainsFilter;
   CallDynamicReconfigure stiffer; CallDeactivate; CallResetDisturbanceEstimators].

(** Calls that seed no estimator and change no limit. *)
Definition flight_calls : list (call (D := xq)) :=
  [CallUpdate now state_next reference_nan; CallResetDisturbanceEstimators;
   CallUpdate now state_again reference_ahead; CallDynamicReconfigure stiffer;
   CallDeactivate].

(** The [Pid]s as [PidController::Initialize] makes them (an integral
    saturation of 0.1 and a filter constant of 0.99), for a maximal tilt of
    [1/2] rad and a saturation of 1 on the vertical axis. *)
Definition pid_xy (name : string) : Pid.t xq :=
  Pid.Pid name (XFin 2) (XFin (1 # 2)) (XFin (1 # 10)) (XFin (1 # 10)) (XFin (1 # 2))
    (XFin (99 # 100)).

Definition pid_vertical : Pid.t xq :=
  Pid.Pid "z" (XFin 1) (XFin (1 # 2)) (XFin (1 # 10)) (XFin (1 # 10)) (XFin 1)
    (XFin (99 # 100)).

(** Operations on a [Pid], some with arguments that are not finite. *)
Definition pid_calls : list (Pid.call xq) :=
  [Pid.CallUpdate (XFin 1) (XFin (1 # 100)); Pid.CallUpdate XNaN (XFin 0);
   Pid.CallSetGains (XInf false) (XFin 1) (XFin 1); Pid.CallReset (XFin 3);
   Pid.CallUpdate (XFin (-2)) (XFin (1 # 100))].

(** A [PidController] past its first iteration, last updated at 2 s. *)
Definition hovering : PidController.t xq :=
  {| PidController.pid_x := pid_xy "x";
     PidController.pid_y := pid_xy "y";
     PidController.pid_z := pid_vertical;
     PidController.hover_thrust_ := XFin (1 # 2);
     PidController.kpxy_ := XFin 2;
     PidController.kixy_ := XFin (1 # 10);
     PidController.kdxy_ := XFin (1 # 2);
     PidController.kpz_ := XFin 1;
     PidController.kiz_ := XFin (1 # 10);
     PidController.kdz_ := XFin (1 # 2);
     PidController.max_tilt_angle_ := XFin (1 # 2);
     PidController.last_output_command := None;
     PidController.last_update := 2000000000%Z;
     PidController.first_iteration := false |}.

(** The odometry of a vehicle at rest at the origin, level. *)
Definition odometry_origin : PidController.Odometry.t xq :=
  PidController.Odometry.mk
    (PidController.PoseWithCovariance.mk
       (Pose.mk (vec 0 0 0) (Quaternion.mk (XFin 0) (XFin 0) (XFin 0) (XFin 1)))).

End Scenarios.

(** * Properties *)

Section Properties.
Context {D : Type} {ops : DoubleOps D}.
Local Open Scope double_scope.

Local Abbreviation Controller := (NsfController D).

(** ** [update]: which branch runs *)

Arguments update_control : simpl never.

(** Every call stores the state snapshot first. *)
Lemma update_inactive (c : Controller) now uav_state reference :
  is_active c = false ->
  update c now uav_state reference = (set_uav_state_ c uav_state, None).
Proof.
  intros Hact. unfold update. cbn. rewrite Hact. reflexivity.
Qed.

Lemma update_first_iteration (c : Controller) now uav_state reference :
  is_active c = true -> first_iteration c = true ->
  update c now uav_state reference =
  (set_first_iteration
     (set_last_update (set_uav_state_ c uav_state)
        (Header.stamp (UavState.header uav_state))) false,
   Some (activation_control_command_ c)).
Proof.
  intros Hact Hfirst. unfold update. cbn. rewrite Hact, Hfirst. reflexivity.
Qed.

Lemma update_small_dt (c : Controller) now uav_state reference :
  is_active c = true -> first_iteration c = false ->
  (fabs (update_dt c uav_state) <=? dlit 0.001) = true ->
  update c now uav_state reference =
  (set_last_update (set_uav_state_ c uav_state)
     (Header.stamp (UavState.header uav_state)),
   Some match last_output_command c with
        | Some cmd => cmd
        | None => activation_control_command_ c
        end).
Proof.
  intros Hact Hfirst Hdt. unfold update. cbn. rewrite Hact, Hfirst. cbn.
  change (update_dt (set_uav_state_ c uav_state) uav_state) with (update_dt c uav_state).
  rewrite Hdt. destruct (last_output_command c); reflexivity.
Qed.

Lemma update_full_tick (c : Controller) now uav_state reference :
  full_tick c uav_state ->
  update c now uav_state reference =
  (fst (update_control
          (set_last_update (set_uav_state_ c uav_state)
             (Header.stamp (UavState.header uav_state)))
          now uav_state reference (update_dt c uav_state)),
   Some (snd (update_control
          (set_last_update (set_uav_state_ c uav_state)
             (Header.stamp (UavState.header uav_state)))
          now uav_state reference (update_dt c uav_state)))).
Proof.
  unfold full_tick, reaches_control. intros H.
  apply andb_prop in H as [H Hdt]. apply andb_prop in H as [Hact Hfirst].
  apply negb_true_iff in Hfirst, Hdt.
  unfold update. cbn. rewrite Hact, Hfirst. cbn.
  change (update_dt (set_uav_state_ c uav_state) uav_state) with (update_dt c uav_state).
  rewrite Hdt. reflexivity.
Qed.

(** ** The members after a call that reaches the control law *)

(** The conditional assignment of "update parameters" as one assignment. *)
Lemma update_mute_flags_eq (c : Controller) (reference : PositionCommand.t D) :
  update_mute_flags c reference =
  set_mute_lateral_gains
    (set_mutex_lateral_gains_after_toggle c
       (mutex_lateral_gains_after_toggle c
        || (mute_lateral_gains c
            && negb (PositionCommand.disable_position_gains reference))))
    (PositionCommand.disable_position_gains reference).
Proof.
  unfold update_mute_flags. destruct c as [].
  cbn [mute_lateral_gains mutex_lateral_gains_after_toggle].
  destruct mute_lateral_gains0, mutex_lateral_gains_after_toggle0,
    (PositionCommand.disable_position_gains reference); reflexivity.
Qed.

Ltac control_tick := unfold update_control; rewrite update_mute_flags_eq.

Section ControlTick.
Variables (c : Controller) (now : Time) (uav_state : UavState.t D)
  (reference : PositionCommand.t D) (dt : D).

Let Ep := control_error_Ep uav_state reference.
Let yaw := snd (euler_angles uav_state).
Let c' := fst (update_control c now uav_state reference dt).
Let out := snd (update_control c now uav_state reference dt).

Lemma update_control_Iw_w :
  Iw_w c' =
  (integrate_world c (snd (tick_sat_x c uav_state reference))
     (fst (tick_sat_x c uav_state reference)) (vX Ep) dt (fst (Iw_w c)),
   integrate_world c (snd (tick_sat_y c uav_state reference))
     (fst (tick_sat_y c uav_state reference)) (vY Ep) dt (snd (Iw_w c))).
Proof. subst c'. control_tick; reflexivity. Qed.

Lemma update_control_Ib_b :
  Ib_b c' =
  (integrate_body c (fst (rotate2d (vX Ep, vY Ep) yaw)) dt (fst (Ib_b c)),
   integrate_body c (snd (rotate2d (vX Ep, vY Ep) yaw)) dt (snd (Ib_b c))).
Proof. subst c'. control_tick; reflexivity. Qed.

Lemma update_control_uav_mass_difference :
  uav_mass_difference c' =
  integrate_mass c (snd (tick_sat_z c uav_state reference)) (vZ Ep) dt.
Proof. subst c'. control_tick; reflexivity. Qed.

Lemma update_control_thrust :
  AttitudeCommand.thrust out = fst (tick_sat_z c uav_state reference).
Proof. subst out. control_tick; reflexivity. Qed.

Lemma update_control_last_output_command : last_output_command c' = Some out.
Proof. subst c' out. control_tick; reflexivity. Qed.

Lemma update_control_limits :
  kiwxy_lim c' = kiwxy_lim c /\ kibxy_lim c' = kibxy_lim c /\ km_lim c' = km_lim c.
Proof. subst c'. control_tick; repeat split; reflexivity. Qed.

Lemma update_control_mute_flags :
  mute_lateral_gains c' = PositionCommand.disable_position_gains reference /\
  mutex_lateral_gains_after_toggle c' =
    (mutex_lateral_gains_after_toggle c
     || (mute_lateral_gains c && negb (PositionCommand.disable_position_gains reference))).
Proof.
  subst c'. control_tick; split; reflexivity.
Qed.

End ControlTick.

(** ** The rate limit bypass of the lateral gains *)

(** What a call of [update] does to the two flags of the lateral muting: only a
    call that reaches the control law touches them. *)
Lemma update_mute_flags_spec (c : Controller) now uav_state reference :
  let c' := fst (update c now uav_state reference) in
  mute_lateral_gains c' =
    (if reaches_control c uav_state
     then PositionCommand.disable_position_gains reference
     else mute_lateral_gains c) /\
  mutex_lateral_gains_after_toggle c' =
    (mutex_lateral_gains_after_toggle c
     || (reaches_control c uav_state && mute_lateral_gains c
         && negb (PositionCommand.disable_position_gains reference))).
Proof.
  intros c'. subst c'.
  destruct (reaches_control c uav_state) eqn:Hreach.
  - rewrite (update_full_tick c now uav_state reference Hreach). cbn [fst].
    exact (update_control_mute_flags
             (set_last_update (set_uav_state_ c uav_state)
                (Header.stamp (UavState.header uav_state)))
             now uav_state reference (update_dt c uav_state)).
  - unfold reaches_control in Hreach. unfold update.
    cbn [is_active set_uav_state_ first_iteration].
    destruct (is_active c); cbn [negb andb] in *.
    2:{ cbn. rewrite orb_false_r. split; reflexivity. }
    destruct (first_iteration c); cbn [negb andb] in *.
    1:{ cbn. rewrite orb_false_r. split; reflexivity. }
    change (update_dt (set_uav_state_ c uav_state) uav_state)
      with (update_dt c uav_state).
    destruct (fabs (update_dt c uav_state) <=? dlit 0.001); [|discriminate].
    destruct (last_output_command _); cbn; rewrite orb_false_r; split; reflexivity.
Qed.

(** Between two ticks of the timer the flag [mutex_lateral_gains_after_toggle]
    records whether the muting was toggled off. *)
Lemma run_after_toggle (evs : list event) : forall c : Controller,
  updates_only evs = true ->
  mutex_lateral_gains_after_toggle (run c evs) =
  (mutex_lateral_gains_after_toggle c || toggled_off c evs).
Proof.
  induction evs as [|ev evs IH]; intros c Hup.
  - cbn. rewrite orb_false_r. reflexivity.
  - cbn [updates_only forallb] in Hup. apply andb_prop in Hup as [Hev Hup].
    destruct ev as [now uav_state reference|]; [|discriminate].
    change (run c (EvUpdate now uav_state reference :: evs))
      with (run (step c (EvUpdate now uav_state reference)) evs).
    rewrite (IH _ Hup). cbn [toggled_off step].
    destruct (update_mute_flags_spec c now uav_state reference) as [_ ->].
    rewrite orb_assoc. reflexivity.
Qed.

Lemma timerGainsFilter_flags (c : Controller) :
  mutex_lateral_gains_after_toggle (timerGainsFilter c) = false /\
  mute_lateral_gains (timerGainsFilter c) = mute_lateral_gains c.
Proof. split; reflexivity. Qed.


(** ** The estimators in a call that does not reach the control law *)

(** The first call since the activation and a call whose [dt] is within a
    millisecond of zero return a command, as every call on an active
    controller does, but assign no estimator and no limit. *)
Lemma update_skips_control (c : Controller) now uav_state reference :
  reaches_control c uav_state = false ->
  let c' := fst (update c now uav_state reference) in
  Iw_w c' = Iw_w c /\ Ib_b c' = Ib_b c /\
  uav_mass_difference c' = uav_mass_difference c /\
  kiwxy_lim c' = kiwxy_lim c /\ kibxy_lim c' = kibxy_lim c /\ km_lim c' = km_lim c /\
  (is_active c = true ->
   exists cmd : AttitudeCommand.t D, snd (update c now uav_state reference) = Some cmd).
Proof.
  intros Hreach c'. subst c'. unfold reaches_control in Hreach. unfold update.
  cbn [is_active set_uav_state_ first_iteration].
  destruct (is_active c); cbn [negb andb] in *.
  2:{ cbn. repeat split. discriminate. }
  destruct (first_iteration c); cbn [negb andb] in *.
  1:{ cbn. repeat split. intros _. eexists. reflexivity. }
  change (update_dt (set_uav_state_ c uav_state) uav_state)
    with (update_dt c uav_state).
  destruct (fabs (update_dt c uav_state) <=? dlit 0.001); [|discriminate].
  destruct (last_output_command _); cbn; repeat split; intros _; eexists; reflexivity.
Qed.

(** ** The validation and saturation, spelled out *)

Lemma saturate_value (v lim : D) :
  fst (saturate v lim) =
  if negb (isfinite v) then 0
  else if v >? lim then lim
  else if v <? - lim then - lim
  else v.
Proof.
  unfold saturate. destruct (isfinite v); cbn [negb]; [|reflexivity].
  destruct (v >? lim); [reflexivity|]. destruct (v <? - lim); reflexivity.
Qed.

Lemma saturate_flag (v lim : D) :
  snd (saturate v lim) = isfinite v && ((v >? lim) || (v <? - lim)).
Proof.
  unfold saturate. destruct (isfinite v); cbn [negb andb]; [|reflexivity].
  destruct (v >? lim); [reflexivity|]. destruct (v <? - lim); reflexivity.
Qed.

Lemma saturate_thrust_value (v thrust_saturation : D) :
  fst (saturate_thrust v thrust_saturation) =
  if negb (isfinite v) then 0
  else if v >? thrust_saturation then thrust_saturation
  else if v <? 0 then 0
  else v.
Proof.
  unfold saturate_thrust. destruct (isfinite v); cbn [negb]; [|reflexivity].
  destruct (v >? thrust_saturation); [reflexivity|]. destruct (v <? 0); reflexivity.
Qed.

Lemma saturate_thrust_flag (v thrust_saturation : D) :
  snd (saturate_thrust v thrust_saturation) =
  isfinite v && ((v >? thrust_saturation) || (v <? 0)).
Proof.
  unfold saturate_thrust. destruct (isfinite v); cbn [negb andb]; [|reflexivity].
  destruct (v >? thrust_saturation); [reflexivity|]. destruct (v <? 0); reflexivity.
Qed.

(** The command of a call that reaches the control law carries the mass
    difference as it is after the call. *)
Lemma update_control_mass_difference (c : Controller) now uav_state reference dt :
  AttitudeCommand.mass_difference (snd (update_control c now uav_state reference dt)) =
  uav_mass_difference (fst (update_control c now uav_state reference dt)).
Proof. control_tick. cbn. reflexivity. Qed.

(** ** Saturation *)

Context {laws : DoubleLaws D}.

Lemma dle_zero_zero : (0 <=? 0) = true.
Proof. apply dle_refl, isfinite_zero. Qed.

Lemma dopp_le_zero (lim : D) : (0 <=? lim) = true -> (- lim <=? 0) = true.
Proof.
  intros H. apply dle_trans with (- 0); [apply dopp_dle, H | apply dopp_zero].
Qed.

Lemma dopp_le_self (lim : D) : (0 <=? lim) = true -> (- lim <=? lim) = true.
Proof.
  intros H. apply dle_trans with 0; [apply dopp_le_zero, H | exact H].
Qed.

(** Whatever [v] is (NaN and the infinities included), the saturated value is
    finite and within the limit, provided the limit is not negative. *)
Lemma saturate_in_range (v lim : D) :
  (0 <=? lim) = true -> in_range (fst (saturate v lim)) (- lim) lim.
Proof.
  intros Hlim. unfold saturate, in_range.
  destruct (isfinite v) eqn:Hfin; cbn [negb fst].
  - destruct (lim <? v) eqn:Hhi; cbn [fst].
    + (* v > lim *)
      apply dlt_dle in Hhi. repeat split.
      * apply isfinite_between with 0 v; auto using isfinite_zero.
      * apply dopp_le_self, Hlim.
      * apply (dle_nonnan_r _ _ Hlim).
    + destruct (v <? - lim) eqn:Hlo; cbn [fst].
      * (* v < -lim *)
        apply dlt_dle in Hlo. repeat split.
        -- apply isfinite_between with v 0;
             auto using isfinite_zero, dopp_le_zero.
        -- apply (dle_nonnan_r _ _ Hlo).
        -- apply dopp_le_self, Hlim.
      * repeat split; [exact Hfin | |].
        -- apply dle_total; auto using dle_refl.
           apply (dle_nonnan_l _ _ (dopp_le_zero _ Hlim)).
        -- apply dle_total; auto using dle_refl.
           apply (dle_nonnan_r _ _ Hlim).
  - repeat split; [apply isfinite_zero | apply dopp_le_zero, Hlim | exact Hlim].
Qed.

(** The thrust is saturated to [[0, thrust_saturation]], not symmetrically. *)
Lemma saturate_thrust_in_range (v thrust_saturation : D) :
  (0 <=? thrust_saturation) = true ->
  in_range (fst (saturate_thrust v thrust_saturation)) 0 thrust_saturation.
Proof.
  intros Hsat. unfold saturate_thrust, in_range.
  destruct (isfinite v) eqn:Hfin; cbn [negb fst].
  - destruct (thrust_saturation <? v) eqn:Hhi; cbn [fst].
    + apply dlt_dle in Hhi. repeat split.
      * apply isfinite_between with 0 v; auto using isfinite_zero.
      * exact Hsat.
      * apply (dle_nonnan_r _ _ Hsat).
    + destruct (v <? 0) eqn:Hlo; cbn [fst].
      * repeat split; [apply isfinite_zero | apply dle_zero_zero | exact Hsat].
      * repeat split; [exact Hfin | |].
        -- apply dle_total; auto using dle_refl, dle_zero_zero.
        -- apply dle_total; auto using dle_refl.
           apply (dle_nonnan_r _ _ Hsat).
  - repeat split; [apply isfinite_zero | apply dle_zero_zero | exact Hsat].
Qed.

(** A finite value within the limit passes the saturation as it is. *)
Lemma saturate_within (v lim : D) :
  in_range v (- lim) lim -> saturate v lim = (v, false).
Proof.
  intros (Hf & Hlo & Hhi). unfold saturate. rewrite Hf. cbn [negb].
  rewrite (dle_not_dlt _ _ Hhi), (dle_not_dlt _ _ Hlo). reflexivity.
Qed.

(** ** The claims on [update], [activate] and [switchOdometrySource] *)

(** C1, as the code has it: when [update] is called on an active controller,
    after the first call since the activation, and [fabs(dt) <= 0.001], it
    returns [last_output_command] if there is one and the activation command
    otherwise; the world integral, the body integral and the mass difference
    are unchanged, as are the stored commands; [last_update] becomes the stamp
    of the state and [uav_state_] the state, and these two are the only members
    that are assigned. *)
Theorem C1_small_dt_reuses_output (c : Controller) (now : Time)
  (uav_state : UavState.t D) (reference : PositionCommand.t D) :
  is_active c = true -> first_iteration c = false ->
  (fabs (update_dt c uav_state) <=? dlit 0.001) = true ->
  let c' := fst (update c now uav_state reference) in
  snd (update c now uav_state reference) =
    Some match last_output_command c with
         | Some cmd => cmd
         | None => activation_control_command_ c
         end /\
  c' = set_last_update (set_uav_state_ c uav_state)
         (Header.stamp (UavState.header uav_state)) /\
  Iw_w c' = Iw_w c /\ Ib_b c' = Ib_b c /\
  uav_mass_difference c' = uav_mass_difference c /\
  last_output_command c' = last_output_command c /\
  activation_control_command_ c' = activation_control_command_ c /\
  last_update c' = Header.stamp (UavState.header uav_state) /\
  uav_state_ c' = uav_state.
Proof.
  intros Hact Hfirst Hdt c'. subst c'.
  rewrite (update_small_dt c now uav_state reference Hact Hfirst Hdt).
  repeat split.
Qed.

(** C2, as the code has it.  After a call of [update] that reaches the
    control law, whatever the state and the reference hold (NaN and infinities
    included), both components of [Iw_w] are finite and within [kiwxy_lim],
    both components of [Ib_b] are finite and within [kibxy_lim], and
    [uav_mass_difference] is finite and within [km_lim], for limits that are
    not negative.  A call that does not reach the control law (the first one
    since the activation, or one whose [dt] is within a millisecond of zero)
    returns a command all the same, and leaves the three estimators and their
    limits as they were, within the limits or not. *)
Theorem C2_estimators_within_limits (c : Controller) (now : Time)
  (uav_state : UavState.t D) (reference : PositionCommand.t D) :
  let c' := fst (update c now uav_state reference) in
  (reaches_control c uav_state = true ->
   (0 <=? kiwxy_lim c) = true -> (0 <=? kibxy_lim c) = true ->
   (0 <=? km_lim c) = true ->
   in_range (fst (Iw_w c')) (- kiwxy_lim c') (kiwxy_lim c') /\
   in_range (snd (Iw_w c')) (- kiwxy_lim c') (kiwxy_lim c') /\
   in_range (fst (Ib_b c')) (- kibxy_lim c') (kibxy_lim c') /\
   in_range (snd (Ib_b c')) (- kibxy_lim c') (kibxy_lim c') /\
   in_range (uav_mass_difference c') (- km_lim c') (km_lim c')) /\
  (reaches_control c uav_state = false ->
   Iw_w c' = Iw_w c /\ Ib_b c' = Ib_b c /\
   uav_mass_difference c' = uav_mass_difference c /\
   kiwxy_lim c' = kiwxy_lim c /\ kibxy_lim c' = kibxy_lim c /\ km_lim c' = km_lim c /\
   (is_active c = true ->
    exists cmd : AttitudeCommand.t D, snd (update c now uav_state reference) = Some cmd)).
Proof.
  intros c'. subst c'. split.
  - intros Htick Hw Hb Hm.
    rewrite (update_full_tick c now uav_state reference Htick). cbn [fst].
    set (c1 := set_last_update _ _).
    destruct (update_control_limits c1 now uav_state reference (update_dt c uav_state))
      as (-> & -> & ->).
    rewrite update_control_Iw_w, update_control_Ib_b,
      update_control_uav_mass_difference.
    unfold integrate_world, integrate_body, integrate_mass. cbn [fst snd].
    repeat split; apply saturate_in_range; assumption.
  - intros Hskip. exact (update_skips_control c now uav_state reference Hskip).
Qed.

(** C6: [activate] without a command returns [false] and changes no member (an
    inactive controller stays inactive); with a command it returns [true],
    takes [uav_mass_difference] from the command's mass difference, sets each
    component of [Ib_b] and [Iw_w] to the [asin] of the command's matching
    disturbance over [g_ * total_mass], and sets [first_iteration] and
    [is_active]. *)
Theorem C6_activate (c : Controller) :
  activate c None = (c, false) /\
  forall cmd : AttitudeCommand.t D,
    let c' := fst (activate c (Some cmd)) in
    snd (activate c (Some cmd)) = true /\
    is_active c' = true /\
    first_iteration c' = true /\
    uav_mass_difference c' = AttitudeCommand.mass_difference cmd /\
    Ib_b c' =
      (asin (AttitudeCommand.disturbance_bx_b cmd
             / (g_ c * AttitudeCommand.total_mass cmd)),
       asin (AttitudeCommand.disturbance_by_b cmd
             / (g_ c * AttitudeCommand.total_mass cmd))) /\
    Iw_w c' =
      (asin (AttitudeCommand.disturbance_wx_w cmd
             / (g_ c * AttitudeCommand.total_mass cmd)),
       asin (AttitudeCommand.disturbance_wy_w cmd
             / (g_ c * AttitudeCommand.total_mass cmd))).
Proof.
  split; [reflexivity|]. intros cmd c'. repeat split.
Qed.


(** C8, as the code has it.  In a call of [update] that reaches the control
    law, the thrust axis counts as saturated when the thrust feedback is finite
    and either above [thrust_saturation_] or below [0] (the returned thrust is
    then that bound).  [uav_mass_difference] takes [km * Ep[2] * dt] on top of
    its old value when the axis was not saturated and keeps its old value when
    it was; the outcome is set to [0] when it is not finite, to [km_lim] when
    it is above [km_lim], to [- km_lim] when it is below [- km_lim].  So the
    increment lands as it is when the sum is finite and within [km_lim], and
    the result is finite and within [km_lim] for a limit that is not negative.
    A call that does not reach the control law leaves [uav_mass_difference]
    as it was. *)
Theorem C8_mass_estimator (c : Controller) (now : Time)
  (uav_state : UavState.t D) (reference : PositionCommand.t D) :
  let dt := update_dt c uav_state in
  let Ep := control_error_Ep uav_state reference in
  let feedback_z := vZ (tick_feedback_w c uav_state reference) in
  let z_saturated :=
    isfinite feedback_z && ((feedback_z >? thrust_saturation_ c) || (feedback_z <? 0)) in
  let accumulated :=
    if z_saturated then uav_mass_difference c
    else uav_mass_difference c + km c * vZ Ep * dt in
  let c' := fst (update c now uav_state reference) in
  (reaches_control c uav_state = true ->
   (exists cmd : AttitudeCommand.t D,
      snd (update c now uav_state reference) = Some cmd /\
      AttitudeCommand.thrust cmd =
        (if negb (isfinite feedback_z) then 0
         else if feedback_z >? thrust_saturation_ c then thrust_saturation_ c
         else if feedback_z <? 0 then 0
         else feedback_z) /\
      AttitudeCommand.mass_difference cmd = uav_mass_difference c') /\
   uav_mass_difference c' =
     (if negb (isfinite accumulated) then 0
      else if accumulated >? km_lim c then km_lim c
      else if accumulated <? - km_lim c then - km_lim c
      else accumulated) /\
   (z_saturated = false ->
    in_range (uav_mass_difference c + km c * vZ Ep * dt) (- km_lim c) (km_lim c) ->
    uav_mass_difference c' = uav_mass_difference c + km c * vZ Ep * dt) /\
   (z_saturated = true ->
    in_range (uav_mass_difference c) (- km_lim c) (km_lim c) ->
    uav_mass_difference c' = uav_mass_difference c) /\
   ((0 <=? km_lim c) = true ->
    in_range (uav_mass_difference c') (- km_lim c) (km_lim c))) /\
  (reaches_control c uav_state = false ->
   uav_mass_difference c' = uav_mass_difference c).
Proof.
  intros dt Ep feedback_z z_saturated accumulated c'. split.
  2:{ intros Hskip.
      exact (proj1 (proj2 (proj2
               (update_skips_control c now uav_state reference Hskip)))). }
  intros Htick.
  assert (Heq : uav_mass_difference c' = fst (saturate accumulated (km_lim c))).
  { subst c'. rewrite (update_full_tick c now uav_state reference Htick). cbn [fst].
    rewrite update_control_uav_mass_difference. unfold integrate_mass, tick_sat_z.
    rewrite saturate_thrust_flag.
    change (vZ (tick_feedback_w (set_last_update _ _) uav_state reference))
      with feedback_z.
    change (thrust_saturation_ (set_last_update _ _)) with (thrust_saturation_ c).
    fold z_saturated. subst accumulated. destruct z_saturated; reflexivity. }
  split.
  { subst c'. rewrite (update_full_tick c now uav_state reference Htick). cbn [fst snd].
    eexists. split; [reflexivity|]. split.
    - rewrite update_control_thrust. unfold tick_sat_z.
      rewrite saturate_thrust_value. reflexivity.
    - apply update_control_mass_difference. }
  split; [rewrite Heq; apply saturate_value|].
  split; [|split].
  - intros Hz Hin. rewrite Heq. subst accumulated. rewrite Hz.
    rewrite (saturate_within _ _ Hin). reflexivity.
  - intros Hz Hin. rewrite Heq. subst accumulated. rewrite Hz.
    rewrite (saturate_within _ _ Hin). reflexivity.
  - intros Hlim. rewrite Heq. apply saturate_in_range, Hlim.
Qed.

(** C9: [switchOdometrySource] replaces [Iw_w] by the x and y of the
    transformed vector when the transform succeeds, and by [(0, 0)] when it
    fails; it returns in both cases (it is a total function), and it changes no
    other estimator.  A transform that swaps x and y swaps the components of
    [Iw_w]. *)
Theorem C9_switchOdometrySource (c : Controller) (now : Time) (msg : UavState.t D) :
  let to_frame := Header.frame_id (UavState.header msg) in
  let c' := switchOdometrySource c now msg in
  Iw_w c' =
    match transformer c to_frame (world_integrals c now) with
    | Some value =>
        (Vector3.x (Vector3Stamped.vector value),
         Vector3.y (Vector3Stamped.vector value))
    | None => (0, 0)
    end /\
  Vector3Stamped.vector (world_integrals c now) =
    Vector3.mk (fst (Iw_w c)) (snd (Iw_w c)) 0 /\
  Ib_b c' = Ib_b c /\ uav_mass_difference c' = uav_mass_difference c /\
  is_active c' = is_active c.
Proof.
  intros to_frame c'. subst c' to_frame. unfold switchOdometrySource.
  destruct (transformer c _ _); repeat split.
Qed.

(** C10: every call of [update], also on an inactive controller (which returns
    a null pointer), stores the state in [uav_state_] before anything else; a
    later [switchOdometrySource] hands the transformer the world integral
    stamped with the frame of that state as its source frame. *)
Theorem C10_update_stores_state (c : Controller) (now : Time)
  (uav_state : UavState.t D) (reference : PositionCommand.t D) :
  let c' := fst (update c now uav_state reference) in
  uav_state_ c' = uav_state /\
  (is_active c = false ->
   snd (update c now uav_state reference) = None /\
   c' = set_uav_state_ c uav_state) /\
  forall (now' : Time) (msg : UavState.t D),
    switchOdometrySource c' now' msg =
    match
      transformer c' (Header.frame_id (UavState.header msg))
        (Vector3Stamped.mk
           (Header.mk now' (Header.frame_id (UavState.header uav_state)))
           (Vector3.mk (fst (Iw_w c')) (snd (Iw_w c')) 0))
    with
    | Some value =>
        set_Iw_w c' (Vector3.x (Vector3Stamped.vector value),
                     Vector3.y (Vector3Stamped.vector value))
    | None => set_Iw_w c' (0, 0)
    end.
Proof.
  intros c'.
  assert (Hst : uav_state_ c' = uav_state).
  { subst c'. unfold update. cbn [is_active set_uav_state_ first_iteration].
    destruct (is_active c); cbn [negb]; [|reflexivity].
    destruct (first_iteration c); [reflexivity|].
    destruct (_ <=? _).
    - destruct (last_output_command _); reflexivity.
    - cbn [fst]. control_tick. reflexivity. }
  split; [exact Hst|]. split.
  - intros Hina. subst c'. rewrite (update_inactive c now uav_state reference Hina).
    split; reflexivity.
  - intros now' msg. unfold switchOdometrySource, world_integrals.
    rewrite Hst. reflexivity.
Qed.

(** ** The anti-windup gate of the world integral *)

Context {duration_laws : DurationLaws D}.

Lemma deq_zero_zero : deq (dlit 0) (dlit 0) = true.
Proof. unfold deq. rewrite dle_zero_zero. reflexivity. Qed.

Lemma saturate_flag_finite (v lim : D) :
  snd (saturate v lim) = true -> isfinite v = true.
Proof.
  unfold saturate. destruct (isfinite v); [reflexivity|]. cbn. discriminate.
Qed.

(** A finite horizontal feedback was computed from a finite position error. *)
Lemma tick_feedback_x_finite (c : Controller) uav_state reference :
  isfinite (vX (tick_feedback_w c uav_state reference)) = true ->
  isfinite (vX (control_error_Ep uav_state reference)) = true.
Proof.
  unfold tick_feedback_w, nsf_feedback_w, cwiseProduct, vadd.
  cbn [vX vY vZ fst snd]. intros H.
  apply isfinite_dmul in H as [H _].
  repeat (apply isfinite_dadd in H as [H _]).
  apply isfinite_dmul in H as [_ H]. exact H.
Qed.

Lemma tick_feedback_y_finite (c : Controller) uav_state reference :
  isfinite (vY (tick_feedback_w c uav_state reference)) = true ->
  isfinite (vY (control_error_Ep uav_state reference)) = true.
Proof.
  unfold tick_feedback_w, nsf_feedback_w, cwiseProduct, vadd.
  cbn [vX vY vZ fst snd]. intros H.
  apply isfinite_dmul in H as [H _].
  repeat (apply isfinite_dadd in H as [H _]).
  apply isfinite_dmul in H as [_ H]. exact H.
Qed.

(** With the switch at [0] nothing is accumulated: the integral is its old
    value plus a zero, and the saturation leaves a value within the limit as
    it is. *)
Lemma integrate_world_gated (c : Controller) (feedback Ep_i dt Iw_i : D) :
  isfinite (kiwxy c) = true -> isfinite Ep_i = true -> isfinite dt = true ->
  in_range Iw_i (- kiwxy_lim c) (kiwxy_lim c) ->
  sign feedback = sign Ep_i ->
  deq (integrate_world c true feedback Ep_i dt Iw_i) Iw_i = true.
Proof.
  intros Hk HEp Hdt (HIw & Hlo & Hhi) Hsign.
  unfold integrate_world, integration_switch.
  rewrite Hsign, Z.eqb_refl. cbn [andb].
  assert (Hz : deq (kiwxy c * (Ep_i * 0) * dt) 0 = true).
  { apply dmul_zero_l; [|exact Hdt].
    apply dmul_zero_r; [exact Hk|].
    apply dmul_zero_r; [exact HEp | apply deq_zero_zero]. }
  pose proof (dadd_zero_r Iw_i _ HIw Hz) as Heq.
  unfold saturate.
  rewrite (isfinite_deq _ _ Heq), HIw. cbn [negb].
  rewrite (dlt_deq_r _ _ _ Heq), (dle_not_dlt _ _ Hhi).
  rewrite (dlt_deq_l _ _ _ Heq), (dle_not_dlt _ _ Hlo).
  exact Heq.
Qed.

(** C3, as the code has it: in a call of [update] that reaches the control
    law, on each horizontal axis whose feedback was saturated with the sign of
    the position error on that axis, the component of [Iw_w] after the call
    equals ([==]) the one before, for a finite gain [kiwxy] and a component that
    was finite and within [kiwxy_lim] before the call. *)
Theorem C3_anti_windup (c : Controller) (now : Time)
  (uav_state : UavState.t D) (reference : PositionCommand.t D) :
  full_tick c uav_state ->
  isfinite (kiwxy c) = true ->
  let c' := fst (update c now uav_state reference) in
  let Ep := control_error_Ep uav_state reference in
  (snd (tick_sat_x c uav_state reference) = true ->
   sign (fst (tick_sat_x c uav_state reference)) = sign (vX Ep) ->
   in_range (fst (Iw_w c)) (- kiwxy_lim c) (kiwxy_lim c) ->
   deq (fst (Iw_w c')) (fst (Iw_w c)) = true) /\
  (snd (tick_sat_y c uav_state reference) = true ->
   sign (fst (tick_sat_y c uav_state reference)) = sign (vY Ep) ->
   in_range (snd (Iw_w c)) (- kiwxy_lim c) (kiwxy_lim c) ->
   deq (snd (Iw_w c')) (snd (Iw_w c)) = true).
Proof.
  intros Htick Hk c' Ep. subst c'.
  rewrite (update_full_tick c now uav_state reference Htick). cbn [fst].
  rewrite update_control_Iw_w. cbn [fst snd].
  split; intros Hsat Hsign Hin.
  - change (tick_sat_x (set_last_update _ _) uav_state reference)
      with (tick_sat_x c uav_state reference).
    rewrite Hsat.
    apply (integrate_world_gated c); try assumption.
    + apply (tick_feedback_x_finite c), (saturate_flag_finite _ _ Hsat).
    + apply isfinite_toSec.
  - change (tick_sat_y (set_last_update _ _) uav_state reference)
      with (tick_sat_y c uav_state reference).
    rewrite Hsat.
    apply (integrate_world_gated c); try assumption.
    + apply (tick_feedback_y_finite c), (saturate_flag_finite _ _ Hsat).
    + apply isfinite_toSec.
Qed.

End Properties.

(** * The exact model satisfies the laws *)

Module XQFacts.

Lemma Qle_bool_false (p q : Q) : Qle_bool p q = false <-> (q < p)%Q.
Proof.
  rewrite <- not_true_iff_false, Qle_bool_iff. split.
  - apply Qnot_le_lt.
  - apply Qlt_not_le.
Qed.

Ltac to_Q :=
  repeat match goal with
  | H : negb _ = true |- _ => apply negb_true_iff in H
  | H : negb _ = false |- _ => apply negb_false_iff in H
  | H : (_ && _)%bool = true |- _ => apply andb_prop in H; destruct H
  | H : Qle_bool _ _ = true |- _ => apply Qle_bool_iff in H
  | H : Qle_bool _ _ = false |- _ => apply Qle_bool_false in H
  | H : Qeq_bool _ _ = true |- _ => apply Qeq_bool_iff in H
  | |- negb _ = true => apply negb_true_iff
  | |- negb _ = false => apply negb_false_iff
  | |- (_ && _)%bool = true => apply andb_true_intro; split
  | |- Qle_bool _ _ = true => apply Qle_bool_iff
  | |- Qle_bool _ _ = false => apply Qle_bool_false
  end.

Ltac xq_cases :=
  repeat match goal with
  | x : xq |- _ => destruct x as [|[|]|?]
  end;
  cbn in *; try discriminate; try reflexivity; try tauto.

Lemma le_refl (x : xq) : XQ.finite x = true -> XQ.le x x = true.
Proof. xq_cases. intros _. to_Q. lra. Qed.

Lemma le_nonnan_l (x y : xq) : XQ.le x y = true -> XQ.le x x = true.
Proof. xq_cases; intros; to_Q; lra. Qed.

Lemma le_nonnan_r (x y : xq) : XQ.le x y = true -> XQ.le y y = true.
Proof. xq_cases; intros; to_Q; lra. Qed.

Lemma le_trans (x y z : xq) :
  XQ.le x y = true -> XQ.le y z = true -> XQ.le x z = true.
Proof. xq_cases; intros; to_Q; lra. Qed.

Lemma lt_le (x y : xq) : XQ.lt x y = true -> XQ.le x y = true.
Proof. xq_cases; intros; to_Q; lra. Qed.

Lemma le_not_lt (x y : xq) : XQ.le x y = true -> XQ.lt y x = false.
Proof. xq_cases; intros; to_Q; lra. Qed.

Lemma le_total (x y : xq) :
  XQ.le x x = true -> XQ.le y y = true -> XQ.lt x y = false -> XQ.le y x = true.
Proof. xq_cases; intros; to_Q; lra. Qed.

Lemma opp_le (x y : xq) : XQ.le x y = true -> XQ.le (XQ.opp y) (XQ.opp x) = true.
Proof. xq_cases; intros; to_Q; lra. Qed.

Lemma finite_add (x y : xq) :
  XQ.finite (XQ.add x y) = true -> XQ.finite x = true /\ XQ.finite y = true.
Proof. xq_cases. Qed.

Lemma finite_mul (x y : xq) :
  XQ.finite (XQ.mul x y) = true -> XQ.finite x = true /\ XQ.finite y = true.
Proof.
  xq_cases;
    match goal with |- context [XQ.Qzero ?q] => destruct (XQ.Qzero q) end;
    discriminate.
Qed.

Lemma finite_between (a b c : xq) :
  XQ.finite a = true -> XQ.finite c = true ->
  XQ.le a b = true -> XQ.le b c = true -> XQ.finite b = true.
Proof. xq_cases. Qed.

(** [x == y] on finite values is equality of rationals. *)
Lemma deq_fin (x y : xq) :
  deq x y = true ->
  x = y \/ exists p q, x = XFin p /\ y = XFin q /\ (p == q)%Q.
Proof.
  unfold deq. xq_cases. intros H. right. do 2 eexists.
  repeat split. to_Q. lra.
Qed.

Lemma Qle_bool_eq_l (p p' q : Q) : (p == p')%Q -> Qle_bool p q = Qle_bool p' q.
Proof. intros H. rewrite H. reflexivity. Qed.

Lemma Qle_bool_eq_r (p q q' : Q) : (q == q')%Q -> Qle_bool p q = Qle_bool p q'.
Proof. intros H. rewrite H. reflexivity. Qed.

Lemma lt_deq_l (x x' y : xq) : deq x x' = true -> XQ.lt x y = XQ.lt x' y.
Proof.
  intros H. destruct (deq_fin _ _ H) as [->|(p & q & -> & -> & Hpq)]; [reflexivity|].
  destruct y as [|[|]|r]; cbn; try reflexivity.
  f_equal. apply Qle_bool_eq_r, Hpq.
Qed.

Lemma lt_deq_r (x y y' : xq) : deq y y' = true -> XQ.lt x y = XQ.lt x y'.
Proof.
  intros H. destruct (deq_fin _ _ H) as [->|(p & q & -> & -> & Hpq)]; [reflexivity|].
  destruct x as [|[|]|r]; cbn; try reflexivity.
  f_equal. apply Qle_bool_eq_l, Hpq.
Qed.

Lemma finite_deq (x x' : xq) : deq x x' = true -> XQ.finite x = XQ.finite x'.
Proof.
  intros H. destruct (deq_fin _ _ H) as [->|(p & q & -> & -> & _)]; reflexivity.
Qed.

(** The values that are [== 0] are the rational zeros. *)
Lemma deq_zero (z : xq) :
  deq z (XFin 0) = true -> exists q, z = XFin q /\ (q == 0)%Q.
Proof.
  unfold deq. xq_cases. intros H. eexists. split; [reflexivity|]. to_Q. lra.
Qed.

Lemma deq_intro (p q : Q) : (p == q)%Q -> deq (XFin p) (XFin q) = true.
Proof. intros H. unfold deq. cbn. to_Q; lra. Qed.

Lemma mul_zero_r (x z : xq) :
  XQ.finite x = true -> deq z (XFin 0) = true -> deq (XQ.mul x z) (XFin 0) = true.
Proof.
  intros Hx Hz. destruct (deq_zero _ Hz) as (q & -> & Hq).
  destruct x as [| |p]; try discriminate. cbn.
  apply deq_intro. rewrite Hq. ring.
Qed.

Lemma mul_zero_l (z x : xq) :
  deq z (XFin 0) = true -> XQ.finite x = true -> deq (XQ.mul z x) (XFin 0) = true.
Proof.
  intros Hz Hx. destruct (deq_zero _ Hz) as (q & -> & Hq).
  destruct x as [| |p]; try discriminate. cbn.
  apply deq_intro. rewrite Hq. ring.
Qed.

Lemma add_zero_r (x z : xq) :
  XQ.finite x = true -> deq z (XFin 0) = true -> deq (XQ.add x z) x = true.
Proof.
  intros Hx Hz. destruct (deq_zero _ Hz) as (q & -> & Hq).
  destruct x as [| |p]; try discriminate. cbn.
  apply deq_intro. rewrite Hq. ring.
Qed.

End XQFacts.

#[export] Instance xq_laws : DoubleLaws xq.
Proof.
  constructor.
  - reflexivity.
  - intros [| |q]; reflexivity.
  - exact XQFacts.finite_add.
  - exact XQFacts.finite_mul.
  - exact XQFacts.finite_between.
  - exact XQFacts.le_refl.
  - exact XQFacts.le_nonnan_l.
  - exact XQFacts.le_nonnan_r.
  - exact XQFacts.le_trans.
  - exact XQFacts.lt_le.
  - exact XQFacts.le_not_lt.
  - exact XQFacts.le_total.
  - exact XQFacts.opp_le.
  - reflexivity.
  - exact XQFacts.lt_deq_l.
  - exact XQFacts.lt_deq_r.
  - exact XQFacts.finite_deq.
  - exact XQFacts.mul_zero_r.
  - exact XQFacts.mul_zero_l.
  - exact XQFacts.add_zero_r.
Qed.

#[export] Instance xq_duration_laws : DurationLaws xq.
Proof. constructor. reflexivity. Qed.

(** * Binary64 satisfies the laws *)

Module B64Facts.

Ltac sf_destruct :=
  repeat match goal with
  | x : spec_float |- _ => destruct x as [[|]|[|]| |[|] ? ?]
  end.

Ltac cmp_cases :=
  change (Pos.compare_cont Eq) with Pos.compare;
  repeat match goal with
  | |- context [Z.compare ?a ?b] => destruct (Z.compare_spec a b)
  | |- context [Pos.compare ?a ?b] => destruct (Pos.compare_spec a b)
  end.

(** Facts on the comparisons alone: every case of the operands, then the
    comparisons of exponents and significands. *)
Ltac sf_order :=
  intros; sf_destruct; unfold B64.finite, SFleb, SFltb, SFcompare, SFopp in *;
  try discriminate; try reflexivity;
  repeat match goal with H : _ = _ |- _ => revert H end;
  cmp_cases; cbn; intros; subst;
  try discriminate; try reflexivity; try lia; try (exfalso; lia).

Lemma sf_lit_0 : B64.lit 0 = S754_zero false.
Proof. vm_compute. reflexivity. Qed.

Lemma sf_le_refl (x : spec_float) : B64.finite x = true -> SFleb x x = true.
Proof. sf_order. Qed.

Lemma sf_le_nonnan_l (x y : spec_float) : SFleb x y = true -> SFleb x x = true.
Proof. sf_order. Qed.

Lemma sf_le_nonnan_r (x y : spec_float) : SFleb x y = true -> SFleb y y = true.
Proof. sf_order. Qed.

Lemma sf_le_trans (x y z : spec_float) :
  SFleb x y = true -> SFleb y z = true -> SFleb x z = true.
Proof. sf_order. Qed.

Lemma sf_lt_le (x y : spec_float) : SFltb x y = true -> SFleb x y = true.
Proof. sf_order. Qed.

Lemma sf_le_not_lt (x y : spec_float) : SFleb x y = true -> SFltb y x = false.
Proof. sf_order. Qed.

Lemma sf_le_total (x y : spec_float) :
  SFleb x x = true -> SFleb y y = true -> SFltb x y = false -> SFleb y x = true.
Proof. sf_order. Qed.

Lemma sf_opp_le (x y : spec_float) :
  SFleb x y = true -> SFleb (SFopp y) (SFopp x) = true.
Proof. sf_order. Qed.

Lemma sf_finite_opp (x : spec_float) : B64.finite (SFopp x) = B64.finite x.
Proof. destruct x; reflexivity. Qed.

Lemma sf_finite_between (a b c : spec_float) :
  B64.finite a = true -> B64.finite c = true ->
  SFleb a b = true -> SFleb b c = true -> B64.finite b = true.
Proof. sf_order. Qed.

(** A sum or a product of two finite values may overflow, but no operation
    makes a finite value out of an infinity or a NaN. *)
Lemma sf_finite_add (x y : spec_float) :
  B64.finite (SFadd B64.prec B64.emax x y) = true ->
  B64.finite x = true /\ B64.finite y = true.
Proof.
  destruct x as [[|]|[|]| |[|] ? ?], y as [[|]|[|]| |[|] ? ?]; intros H;
    try (split; reflexivity); cbn in H; discriminate H.
Qed.

Lemma sf_finite_mul (x y : spec_float) :
  B64.finite (SFmul B64.prec B64.emax x y) = true ->
  B64.finite x = true /\ B64.finite y = true.
Proof.
  destruct x as [[|]|[|]| |[|] ? ?], y as [[|]|[|]| |[|] ? ?]; intros H;
    try (split; reflexivity); cbn in H; discriminate H.
Qed.

Lemma sf_lt_eq_l (x x' y : spec_float) :
  SFleb x x' && SFleb x' x = true -> SFltb x y = SFltb x' y.
Proof. intros H. apply andb_prop in H as [H1 H2]. revert H1 H2. sf_order. Qed.

Lemma sf_lt_eq_r (x y y' : spec_float) :
  SFleb y y' && SFleb y' y = true -> SFltb x y = SFltb x y'.
Proof. intros H. apply andb_prop in H as [H1 H2]. revert H1 H2. sf_order. Qed.

Lemma sf_finite_eq (x x' : spec_float) :
  SFleb x x' && SFleb x' x = true -> B64.finite x = B64.finite x'.
Proof. intros H. apply andb_prop in H as [H1 H2]. revert H1 H2. sf_order. Qed.

(** The values that are [== 0] are the two zeros. *)
Lemma sf_eq_zero (z : spec_float) :
  SFleb z (S754_zero false) && SFleb (S754_zero false) z = true ->
  exists s, z = S754_zero s.
Proof.
  intros H. apply andb_prop in H as [H1 H2].
  destruct z as [s|[|]| |[|] ? ?]; try discriminate; eauto.
Qed.

Lemma sf_mul_zero_r (x z : spec_float) :
  B64.finite x = true ->
  SFleb z (S754_zero false) && SFleb (S754_zero false) z = true ->
  SFleb (SFmul B64.prec B64.emax x z) (S754_zero false)
  && SFleb (S754_zero false) (SFmul B64.prec B64.emax x z) = true.
Proof.
  intros Hx Hz. destruct (sf_eq_zero z Hz) as [s ->].
  destruct x as [sx|[|]| |sx ? ?]; try discriminate; reflexivity.
Qed.

Lemma sf_mul_zero_l (z x : spec_float) :
  SFleb z (S754_zero false) && SFleb (S754_zero false) z = true ->
  B64.finite x = true ->
  SFleb (SFmul B64.prec B64.emax z x) (S754_zero false)
  && SFleb (S754_zero false) (SFmul B64.prec B64.emax z x) = true.
Proof.
  intros Hz Hx. destruct (sf_eq_zero z Hz) as [s ->].
  destruct x as [sx|[|]| |sx ? ?]; try discriminate; reflexivity.
Qed.

Lemma sf_add_zero_r (x z : spec_float) :
  B64.finite x = true ->
  SFleb z (S754_zero false) && SFleb (S754_zero false) z = true ->
  SFleb (SFadd B64.prec B64.emax x z) x && SFleb x (SFadd B64.prec B64.emax x z) = true.
Proof.
  intros Hx Hz. destruct (sf_eq_zero z Hz) as [s ->].
  destruct x as [[|]|[|]| |sx m e]; try discriminate; destruct s; try reflexivity.
  all: cbn [SFadd]; rewrite (sf_le_refl (S754_finite sx m e)); reflexivity.
Qed.

End B64Facts.

(** Whatever [<math.h>] and [tf] compute. *)
Lemma b64_laws (m : B64.libm) : @DoubleLaws spec_float (b64_ops m).
Proof.
  constructor; unfold deq; cbn [dlit dadd dmul dopp dlt dle isfinite b64_ops];
    rewrite ?B64Facts.sf_lit_0.
  - reflexivity.
  - exact B64Facts.sf_finite_opp.
  - exact B64Facts.sf_finite_add.
  - exact B64Facts.sf_finite_mul.
  - exact B64Facts.sf_finite_between.
  - exact B64Facts.sf_le_refl.
  - exact B64Facts.sf_le_nonnan_l.
  - exact B64Facts.sf_le_nonnan_r.
  - exact B64Facts.sf_le_trans.
  - exact B64Facts.sf_lt_le.
  - exact B64Facts.sf_le_not_lt.
  - exact B64Facts.sf_le_total.
  - exact B64Facts.sf_opp_le.
  - reflexivity.
  - exact B64Facts.sf_lt_eq_l.
  - exact B64Facts.sf_lt_eq_r.
  - exact B64Facts.sf_finite_eq.
  - exact B64Facts.sf_mul_zero_r.
  - exact B64Facts.sf_mul_zero_l.
  - exact B64Facts.sf_add_zero_r.
Qed.


(** * The gain filter

    [calculateGainChange] with no bypass, in any arithmetic: the step it adds
    to the gain, and the sequence of gains along a run whose operations are
    exact ([exact_run]) for change fractions in [[0, 1]]. *)

Section GainFilter.
Context {D : Type} {ops : DoubleOps D}.
Local Open Scope double_scope.
Variable val : D -> Q.
Variable c : NsfController D.

Lemma Qltb_true (p q : Q) : Qltb p q = true -> (p < q)%Q.
Proof.
  unfold Qltb. intros H. apply negb_true_iff in H.
  apply Qnot_le_lt. intros Hle. apply Qle_bool_iff in Hle. congruence.
Qed.

Lemma Qltb_false (p q : Q) : Qltb p q = false -> (q <= p)%Q.
Proof.
  unfold Qltb. intros H. apply negb_false_iff in H. apply Qle_bool_iff, H.
Qed.

Lemma Qabs_cases (q : Q) :
  (0 <= q /\ Qabs q == q)%Q \/ (q < 0 /\ Qabs q == - q)%Q.
Proof.
  destruct (Qlt_le_dec q 0) as [H|H].
  - right. split; [exact H|]. apply Qabs_neg. lra.
  - left. split; [exact H|]. apply Qabs_pos, H.
Qed.

(** The step that one call adds to the gain: a share [max_change] of the
    difference for a gain near zero; otherwise the difference, cut to
    [current * max_change] in magnitude when the relative change is beyond
    [max_change], and replaced by the share [min_change] of the difference
    when that is larger in magnitude. *)
Lemma calculateGainChange_step (current desired : D) :
  let M := gains_filter_max_change_ c in
  let m := gains_filter_min_change_ c in
  let change := desired - current in
  let change_in_perc := (current + change) / current - 1 in
  let limited :=
    if change_in_perc >? M then current * M
    else if change_in_perc <? - M then current * - M
    else change in
  calculateGainChange c current desired false =
  current + (if fabs current <? dlit 0.000001 then change * M
             else if fabs limited <? fabs change * m then change * m
             else limited).
Proof.
  intros M m change change_in_perc limited. unfold calculateGainChange. cbn [negb].
  destruct (fabs current <? dlit 0.000001); reflexivity.
Qed.

(** One exact call moves the gain toward the target by a share of the
    remaining difference that is at least [Qmin M m] and at most 1. *)
Lemma exact_step (x d : D) :
  (0 <= val (gains_filter_max_change_ c) <= 1)%Q ->
  (0 <= val (gains_filter_min_change_ c) <= 1)%Q ->
  exact_call val c x d ->
  exists s : Q,
    (val (calculateGainChange c x d false) == val x + s)%Q /\
    let mn := Qmin (val (gains_filter_max_change_ c)) (val (gains_filter_min_change_ c)) in
    ((0 <= val d - val x /\ mn * (val d - val x) <= s <= val d - val x) \/
     (val d - val x <= 0 /\ val d - val x <= s <= mn * (val d - val x)))%Q.
Proof.
  intros HM01 Hm01 Hex.
  rewrite calculateGainChange_step. unfold exact_call in Hex.
  set (M := gains_filter_max_change_ c) in *.
  set (m := gains_filter_min_change_ c) in *.
  assert (HminM : (Qmin (val M) (val m) <= val M)%Q) by apply Q.le_min_l.
  assert (Hminm : (Qmin (val M) (val m) <= val m)%Q) by apply Q.le_min_r.
  assert (Hmin0 : (0 <= Qmin (val M) (val m))%Q) by (apply Q.min_glb; tauto).
  cbv zeta. set (mn := Qmin (val M) (val m)) in *. clearbody mn.
  cbv zeta in Hex.
  destruct Hex as (Hsub & Hfabs & Hlit & Hlt0 & Hex).
  unfold exact_sub in Hsub. set (change := d - x) in *.
  set (ch := (val d - val x)%Q) in *.
  destruct (fabs x <? dlit 0.000001) eqn:Hnz.
  - destruct Hex as (Hmul & Hadd). unfold exact_mul, exact_add in *.
    exists (val (change * M)). split; [exact Hadd|].
    rewrite Hmul, Hsub. clearbody ch.
    destruct (Qlt_le_dec ch 0); [right|left]; nra.
  - unfold exact_lt, exact_fabs in Hlt0, Hfabs. rewrite Hnz in Hlt0.
    apply eq_sym, Qltb_false in Hlt0. rewrite Hfabs in Hlt0.
    assert (Hx0 : ~ (val x == 0)%Q).
    { intros H0. rewrite H0 in Hlt0. change (Qabs 0) with 0%Q in Hlt0. lra. }
    set (perc := (x + change) / x - 1) in *.
    set (limited := if perc >? M then x * M else if perc <? - M then x * - M else change) in *.
    destruct Hex as (Hadd1 & Hdiv & H1 & Hsub1 & Hc1 & Hopp & Hc2 & Hlim & Hfl & Hfc
                     & Hmulm & Hc3 & Hex).
    unfold exact_add, exact_div, exact_sub, exact_lt, exact_opp, exact_fabs, exact_mul in *.
    assert (Hperc : (val perc * val x == ch)%Q).
    { subst perc. rewrite Hsub1, H1, Hdiv, Hadd1, Hsub. fold ch.
      transitivity (val x * ((val x + ch) / val x) - val x)%Q; [ring|].
      rewrite Qmult_div_r by exact Hx0. ring. }
    assert (Hvlim : (val limited ==
                     if (perc >? M)%D then val x * val M
                     else if (perc <? - M)%D then val x * - val M else ch)%Q).
    { subst limited. destruct (perc >? M); [exact Hlim|].
      destruct (perc <? - M); [rewrite Hlim, Hopp; reflexivity | exact Hsub]. }
    assert (Hc3' : (if (fabs limited <? fabs change * m)%D
                    then Qabs (val limited) < Qabs ch * val m
                    else Qabs ch * val m <= Qabs (val limited))%Q).
    { destruct (fabs limited <? fabs change * m);
        [apply eq_sym, Qltb_true in Hc3 | apply eq_sym, Qltb_false in Hc3];
        rewrite Hfl, Hmulm, Hfc, Hsub in Hc3; exact Hc3. }
    assert (Hc1' : (if (perc >? M)%D then val M < val perc else val perc <= val M)%Q).
    { destruct (perc >? M);
        [apply eq_sym, Qltb_true in Hc1 | apply eq_sym, Qltb_false in Hc1]; exact Hc1. }
    assert (Hc2' : (if (perc <? - M)%D then val perc < - val M
                    else - val M <= val perc)%Q).
    { destruct (perc <? - M);
        [apply eq_sym, Qltb_true in Hc2 | apply eq_sym, Qltb_false in Hc2];
        rewrite Hopp in Hc2; exact Hc2. }
    clear Hlim Hfl Hfc Hmulm Hadd1 Hdiv Hsub1 H1 Hfabs Hlt0 Hlit Hnz Hc1 Hc2 Hc3 Hopp.
    destruct (fabs limited <? fabs change * m) eqn:Hf.
    + destruct Hex as (Hmul & Hadd). exists (val (change * m)). split; [exact Hadd|].
      rewrite Hmul, Hsub. clearbody ch.
      destruct (Qlt_le_dec ch 0); [right|left]; nra.
    + exists (val limited). split; [exact Hex|].
      rewrite Hvlim in Hc3' |- *.
      clear Hvlim Hex Hf. clearbody ch.
      destruct (perc >? M) eqn:E1.
      * destruct (Qabs_cases ch) as [[? Ha]|[? Ha]],
          (Qabs_cases (val x * val M)) as [[? Hb]|[? Hb]];
          rewrite Ha, Hb in Hc3'; (destruct (Qlt_le_dec ch 0); [right|left]); nra.
      * destruct (perc <? - M) eqn:E2.
        -- destruct (Qabs_cases ch) as [[? Ha]|[? Ha]],
             (Qabs_cases (val x * - val M)) as [[? Hb]|[? Hb]];
             rewrite Ha, Hb in Hc3'; (destruct (Qlt_le_dec ch 0); [right|left]); nra.
        -- destruct (Qabs_cases ch) as [[? Ha]|[? Ha]];
             rewrite Ha in Hc3'; (destruct (Qlt_le_dec ch 0); [right|left]); nra.
Qed.

Lemma gain_filter_iter_S (n : nat) : forall x d : D,
  gain_filter_iter c (S n) x d =
  calculateGainChange c (gain_filter_iter c n x d) d false.
Proof.
  induction n as [|n IH]; intros x d; [reflexivity|].
  change (gain_filter_iter c (S (S n)) x d)
    with (gain_filter_iter c (S n) (calculateGainChange c x d false) d).
  rewrite IH. reflexivity.
Qed.

Lemma exact_run_last (n : nat) : forall x d : D,
  exact_run val c (S n) x d ->
  exact_run val c n x d /\ exact_call val c (gain_filter_iter c n x d) d.
Proof.
  induction n as [|n IH]; intros x d H.
  - destruct H as [H _]. split; [exact I | exact H].
  - destruct H as [H0 H]. destruct (IH _ _ H) as [H1 H2].
    split; [split; assumption | exact H2].
Qed.

Lemma Qpower_S (q : Q) (n : nat) : (q ^ Z.of_nat (S n) == q * q ^ Z.of_nat n)%Q.
Proof.
  rewrite Nat2Z.inj_succ. unfold Z.succ.
  rewrite Qpower_plus' by lia. change (q ^ 1)%Q with q. ring.
Qed.

Lemma Qpower_nonneg (q : Q) (n : nat) : (0 <= q -> 0 <= q ^ Z.of_nat n)%Q.
Proof.
  intros Hq. induction n as [|n IH]; [cbn; lra|].
  rewrite Qpower_S. nra.
Qed.

Lemma Qmult_le_l_nonneg (p a b : Q) : (0 <= p -> a <= b -> p * a <= p * b)%Q.
Proof. intros Hp Hab. nra. Qed.

Section Run.
Hypothesis HM01 : (0 <= val (gains_filter_max_change_ c) <= 1)%Q.
Hypothesis Hm01 : (0 <= val (gains_filter_min_change_ c) <= 1)%Q.

Let mn : Q := Qmin (val (gains_filter_max_change_ c)) (val (gains_filter_min_change_ c)).

Lemma exact_iter_up (n : nat) : forall x d : D,
  (val x <= val d)%Q -> exact_run val c n x d ->
  (val x <= val (gain_filter_iter c n x d) <= val d /\
   val d - val (gain_filter_iter c n x d) <= (1 - mn) ^ Z.of_nat n * (val d - val x))%Q.
Proof.
  assert (Hmn1 : (0 <= 1 - mn)%Q).
  { subst mn. pose proof (Q.le_min_l (val (gains_filter_max_change_ c))
                            (val (gains_filter_min_change_ c))). lra. }
  assert (Hmn0 : (0 <= mn)%Q) by (apply Q.min_glb; tauto).
  induction n as [|n IH]; intros x d Hxd Hrun.
  - cbn. lra.
  - destruct Hrun as [Hcall Hrun].
    destruct (exact_step x d HM01 Hm01 Hcall) as (s & Hs & Hb). cbv zeta in Hb. fold mn in Hb.
    change (gain_filter_iter c (S n) x d)
      with (gain_filter_iter c n (calculateGainChange c x d false) d).
    set (x1 := calculateGainChange c x d false) in *.
    assert (Hx1 : (val x1 <= val d)%Q) by (rewrite Hs; destruct Hb as [Hb|Hb]; nra).
    destruct (IH x1 d Hx1 Hrun) as (Hbd & Hdist).
    rewrite Qpower_S. pose proof (Qpower_nonneg _ n Hmn1).
    set (p := ((1 - mn) ^ Z.of_nat n)%Q) in *. clearbody p.
    set (xn := val (gain_filter_iter c n x1 d)) in *. clearbody xn.
    rewrite Hs in Hbd, Hdist. clearbody mn.
    assert (Hs0 : (0 <= s)%Q) by (destruct Hb as [Hb|Hb]; nra).
    assert (Hstep : (val d - (val x + s) <= (1 - mn) * (val d - val x))%Q)
      by (destruct Hb as [Hb|Hb]; nra).
    assert (Hprod : (p * (val d - (val x + s)) <= p * ((1 - mn) * (val d - val x)))%Q)
      by (apply Qmult_le_l_nonneg; assumption).
    repeat split; lra.
Qed.

Lemma exact_iter_down (n : nat) : forall x d : D,
  (val d <= val x)%Q -> exact_run val c n x d ->
  (val d <= val (gain_filter_iter c n x d) <= val x /\
   val (gain_filter_iter c n x d) - val d <= (1 - mn) ^ Z.of_nat n * (val x - val d))%Q.
Proof.
  assert (Hmn1 : (0 <= 1 - mn)%Q).
  { subst mn. pose proof (Q.le_min_l (val (gains_filter_max_change_ c))
                            (val (gains_filter_min_change_ c))). lra. }
  assert (Hmn0 : (0 <= mn)%Q) by (apply Q.min_glb; tauto).
  induction n as [|n IH]; intros x d Hxd Hrun.
  - cbn. lra.
  - destruct Hrun as [Hcall Hrun].
    destruct (exact_step x d HM01 Hm01 Hcall) as (s & Hs & Hb). cbv zeta in Hb. fold mn in Hb.
    change (gain_filter_iter c (S n) x d)
      with (gain_filter_iter c n (calculateGainChange c x d false) d).
    set (x1 := calculateGainChange c x d false) in *.
    assert (Hx1 : (val d <= val x1)%Q) by (rewrite Hs; destruct Hb as [Hb|Hb]; nra).
    destruct (IH x1 d Hx1 Hrun) as (Hbd & Hdist).
    rewrite Qpower_S. pose proof (Qpower_nonneg _ n Hmn1).
    set (p := ((1 - mn) ^ Z.of_nat n)%Q) in *. clearbody p.
    set (xn := val (gain_filter_iter c n x1 d)) in *. clearbody xn.
    rewrite Hs in Hbd, Hdist. clearbody mn.
    assert (Hs0 : (s <= 0)%Q) by (destruct Hb as [Hb|Hb]; nra).
    assert (Hstep : (val x + s - val d <= (1 - mn) * (val x - val d))%Q)
      by (destruct Hb as [Hb|Hb]; nra).
    assert (Hprod : (p * (val x + s - val d) <= p * ((1 - mn) * (val x - val d)))%Q)
      by (apply Qmult_le_l_nonneg; assumption).
    repeat split; lra.
Qed.

End Run.
End GainFilter.

Section GainFilterRuns.
Context {D : Type} {ops : DoubleOps D}.
Local Open Scope double_scope.


End GainFilterRuns.

(** * Further properties of the NSF controller *)

Section Calls.
Context {D : Type} {ops : DoubleOps D}.
Local Open Scope double_scope.

Local Abbreviation Controller := (NsfController D).

Arguments update_control : simpl never.

Ltac control_tick := unfold update_control; rewrite update_mute_flags_eq.

(** ** What a call leaves alone *)

(** The members that the control law of [update] does not assign. *)
Lemma update_control_frame (c : Controller) now uav_state reference dt :
  let c' := fst (update_control c now uav_state reference dt) in
  is_active c' = is_active c /\ first_iteration c' = first_iteration c /\
  last_update c' = last_update c /\ uav_state_ c' = uav_state_ c /\
  activation_control_command_ c' = activation_control_command_ c /\
  transformer c' = transformer c /\
  drs_desired_gains c' = drs_desired_gains c /\
  parameters c' = parameters c /\ actual_gains c' = actual_gains c.
Proof. intros c'. subst c'. control_tick. cbn. repeat split. Qed.

(** The four ways through [update]. *)
Lemma update_cases (c : Controller) now uav_state reference :
  (is_active c = false /\
   update c now uav_state reference = (set_uav_state_ c uav_state, None)) \/
  (is_active c = true /\ first_iteration c = true /\
   update c now uav_state reference =
   (set_first_iteration
      (set_last_update (set_uav_state_ c uav_state)
         (Header.stamp (UavState.header uav_state))) false,
    Some (activation_control_command_ c))) \/
  (is_active c = true /\ first_iteration c = false /\
   update c now uav_state reference =
   (set_last_update (set_uav_state_ c uav_state)
      (Header.stamp (UavState.header uav_state)),
    Some match last_output_command c with
         | Some cmd => cmd
         | None => activation_control_command_ c
         end)) \/
  (is_active c = true /\ first_iteration c = false /\
   update c now uav_state reference =
   (fst (update_control
           (set_last_update (set_uav_state_ c uav_state)
              (Header.stamp (UavState.header uav_state)))
           now uav_state reference (update_dt c uav_state)),
    Some (snd (update_control
           (set_last_update (set_uav_state_ c uav_state)
              (Header.stamp (UavState.header uav_state)))
           now uav_state reference (update_dt c uav_state))))).
Proof.
  destruct (is_active c) eqn:Hact.
  2:{ left. split; [reflexivity|]. apply update_inactive, Hact. }
  right. destruct (first_iteration c) eqn:Hfirst.
  1:{ left. split; [reflexivity|]. split; [reflexivity|].
      apply update_first_iteration; assumption. }
  right. destruct (fabs (update_dt c uav_state) <=? dlit 0.001) eqn:Hdt.
  - left. split; [reflexivity|]. split; [reflexivity|].
    apply update_small_dt; assumption.
  - right. split; [reflexivity|]. split; [reflexivity|].
    apply update_full_tick. unfold full_tick, reaches_control.
    rewrite Hact, Hfirst, Hdt. reflexivity.
Qed.

Lemma update_frame (c : Controller) now uav_state reference :
  let c' := fst (update c now uav_state reference) in
  is_active c' = is_active c /\
  activation_control_command_ c' = activation_control_command_ c /\
  transformer c' = transformer c /\
  drs_desired_gains c' = drs_desired_gains c /\
  parameters c' = parameters c /\ actual_gains c' = actual_gains c.
Proof.
  intros c'. subst c'.
  destruct (update_cases c now uav_state reference)
    as [(_ & ->)|[(_ & _ & ->)|[(_ & _ & ->)|(_ & _ & ->)]]]; cbn [fst];
    [cbn; repeat split ..|].
  control_tick. cbn. repeat split.
Qed.

(** A call of [update] on an active controller leaves it past its first
    iteration. *)
Lemma update_first_iteration_after (c : Controller) now uav_state reference :
  first_iteration (fst (update c now uav_state reference)) =
  first_iteration c && negb (is_active c).
Proof.
  destruct (update_cases c now uav_state reference)
    as [(Ha & ->)|[(Ha & Hf & ->)|[(Ha & Hf & ->)|(Ha & Hf & ->)]]]; cbn [fst];
    rewrite Ha; cbn [negb].
  - apply eq_sym, andb_true_r.
  - rewrite andb_false_r. reflexivity.
  - rewrite andb_false_r. exact Hf.
  - rewrite andb_false_r. control_tick. exact Hf.
Qed.

Lemma step_active (c : Controller) (ev : event) :
  is_active c = true -> first_iteration c = false ->
  is_active (step c ev) = true /\ first_iteration (step c ev) = false.
Proof.
  intros Hact Hfirst. destruct ev as [now uav_state reference|]; cbn [step].
  - destruct (update_frame c now uav_state reference) as (-> & _).
    rewrite update_first_iteration_after, Hfirst. split; [exact Hact | reflexivity].
  - split; assumption.
Qed.

Lemma run_active (evs : list event) : forall c : Controller,
  is_active c = true -> first_iteration c = false ->
  is_active (run c evs) = true /\ first_iteration (run c evs) = false.
Proof.
  induction evs as [|ev evs IH]; intros c Hact Hfirst; [split; assumption|].
  change (run c (ev :: evs)) with (run (step c ev) evs).
  destruct (step_active c ev Hact Hfirst) as [Hact' Hfirst'].
  exact (IH _ Hact' Hfirst').
Qed.

(** ** Activation and the first call of [update] *)

(** X1: The first call of [update] after a successful [activate] returns the
    seed command with [controller_enforcing_constraints] cleared, whatever
    the state and the reference; it leaves the three estimators as
    [activate] has seeded them and takes the stamp of the state for
    [last_update].  From then on [getStatus] reports an active controller,
    and the controller stays past its first iteration, under any calls of
    [update] and ticks of the timer. *)
Theorem X1_activate_then_update (c : Controller) (cmd : AttitudeCommand.t D)
  (now : Time) (uav_state : UavState.t D) (reference : PositionCommand.t D) :
  let c0 := fst (activate c (Some cmd)) in
  let c1 := fst (update c0 now uav_state reference) in
  snd (update c0 now uav_state reference) =
    Some (AttitudeCommand.set_controller_enforcing_constraints cmd false) /\
  Iw_w c1 = Iw_w c0 /\ Ib_b c1 = Ib_b c0 /\
  uav_mass_difference c1 = AttitudeCommand.mass_difference cmd /\
  last_update c1 = Header.stamp (UavState.header uav_state) /\
  last_output_command c1 = last_output_command c /\
  forall evs : list event,
    getStatus (run c1 evs) = true /\ first_iteration (run c1 evs) = false.
Proof.
  intros c0 c1. subst c1.
  rewrite (update_first_iteration c0 now uav_state reference eq_refl eq_refl).
  cbn. repeat split; apply run_active; reflexivity.
Qed.

(** The controller after a successful [activate], deactivated before it or
    not. *)
Lemma activate_after (c : Controller) (cmd : AttitudeCommand.t D) (deactivated : bool) :
  let c0 := fst (activate (if deactivated then deactivate c else c) (Some cmd)) in
  is_active c0 = true /\ first_iteration c0 = true /\
  last_output_command c0 = last_output_command c /\
  activation_control_command_ c0 =
    AttitudeCommand.set_controller_enforcing_constraints cmd false.
Proof. destruct deactivated; cbn; repeat split. Qed.

(** X2: [activate] does not clear [last_output_command].  A controller that
    holds the command of an earlier flight and is activated again
    (deactivated in between or not) returns the seed command on its first
    call of [update]; when the next state comes within a millisecond of the
    first one, the call returns the command of the earlier flight, not the
    seed. *)
Theorem X2_activate_keeps_last_output_command (c : Controller)
  (old cmd : AttitudeCommand.t D) (deactivated : bool) (now now' : Time)
  (uav_state uav_state' : UavState.t D) (reference reference' : PositionCommand.t D) :
  last_output_command c = Some old ->
  (fabs (toSec (Header.stamp (UavState.header uav_state')
                - Header.stamp (UavState.header uav_state))%Z) <=? dlit 0.001) = true ->
  let c0 := fst (activate (if deactivated then deactivate c else c) (Some cmd)) in
  let c1 := fst (update c0 now uav_state reference) in
  snd (update c0 now uav_state reference) =
    Some (AttitudeCommand.set_controller_enforcing_constraints cmd false) /\
  snd (update c1 now' uav_state' reference') = Some old.
Proof.
  intros Hold Hdt.
  pose proof (activate_after c cmd deactivated) as H. cbv zeta in H.
  destruct H as (Hact & Hfirst & Hlast & Hseed). rewrite Hold in Hlast.
  cbv zeta.
  generalize dependent
    (fst (activate (if deactivated then deactivate c else c) (Some cmd))).
  intros c0 Hact Hfirst Hlast Hseed.
  rewrite (update_first_iteration c0 now uav_state reference Hact Hfirst).
  cbn [fst snd]. rewrite Hseed. split; [reflexivity|].
  set (c1 := set_first_iteration _ _).
  assert (Hsmall : (fabs (update_dt c1 uav_state') <=? dlit 0.001) = true) by exact Hdt.
  rewrite (update_small_dt c1 now' uav_state' reference' Hact eq_refl Hsmall).
  cbn [snd]. change (last_output_command c1) with (last_output_command c0).
  rewrite Hlast. reflexivity.
Qed.

(** ** Calls that come close together *)

(** The controller after a call of [update] that has run the control law. *)
Lemma update_full_tick_after (c : Controller) now uav_state reference :
  full_tick c uav_state ->
  exists (c1 : Controller) (out : AttitudeCommand.t D),
    update c now uav_state reference = (c1, Some out) /\
    is_active c1 = true /\ first_iteration c1 = false /\
    last_update c1 = Header.stamp (UavState.header uav_state) /\
    last_output_command c1 = Some out.
Proof.
  intros Htick. rewrite (update_full_tick c now uav_state reference Htick).
  unfold full_tick, reaches_control in Htick.
  apply andb_prop in Htick as [Htick _]. apply andb_prop in Htick as [Ha Hf].
  apply negb_true_iff in Hf.
  set (c0 := set_last_update _ _).
  pose proof (update_control_frame c0 now uav_state reference (update_dt c uav_state))
    as (Hact & Hfirst & Hlast & _).
  pose proof (update_control_last_output_command c0 now uav_state reference
                (update_dt c uav_state)) as Hout.
  do 2 eexists. split; [reflexivity|].
  split; [exact (eq_trans Hact Ha)|]. split; [exact (eq_trans Hfirst Hf)|].
  split; [exact Hlast | exact Hout].
Qed.

(** X3: After a call of [update] that has run the control law, a call whose
    state is stamped within a millisecond of the previous one (before or
    after it) returns the command of the previous call again and leaves the
    estimators as they are, whatever the new state and reference hold. *)
Theorem X3_update_again_same_command (c : Controller) (now now' : Time)
  (uav_state uav_state' : UavState.t D) (reference reference' : PositionCommand.t D) :
  full_tick c uav_state ->
  (fabs (toSec (Header.stamp (UavState.header uav_state')
                - Header.stamp (UavState.header uav_state))%Z) <=? dlit 0.001) = true ->
  let c1 := fst (update c now uav_state reference) in
  let c2 := fst (update c1 now' uav_state' reference') in
  snd (update c now uav_state reference) <> None /\
  snd (update c1 now' uav_state' reference') = snd (update c now uav_state reference) /\
  Iw_w c2 = Iw_w c1 /\ Ib_b c2 = Ib_b c1 /\
  uav_mass_difference c2 = uav_mass_difference c1 /\
  last_update c2 = Header.stamp (UavState.header uav_state').
Proof.
  intros Htick Hdt c1' c2. subst c2 c1'.
  destruct (update_full_tick_after c now uav_state reference Htick)
    as (c1 & out & -> & Hact & Hfirst & Hlast & Hout).
  cbn [fst snd].
  assert (Hsmall : (fabs (update_dt c1 uav_state') <=? dlit 0.001) = true).
  { unfold update_dt. rewrite Hlast. exact Hdt. }
  rewrite (update_small_dt c1 now' uav_state' reference' Hact Hfirst Hsmall).
  rewrite Hout. cbn. split; [discriminate|]. repeat split.
Qed.

(** ** An inactive controller *)

Lemma exec_inactive (c : Controller) (k : call) :
  is_active c = false -> is_activation k = false -> is_active (exec c k) = false.
Proof.
  intros Hact Hk. destruct k as [[cmd|]| |now uav_state reference|now msg| |config|];
    cbn [exec]; try discriminate; try exact Hact; try reflexivity.
  - destruct (update_frame c now uav_state reference) as (-> & _). exact Hact.
  - unfold switchOdometrySource. destruct (transformer c _ _); exact Hact.
Qed.

(** X4: Only [activate] with a command makes a controller active: under any
    other calls (an [activate] without a command among them) a controller
    that is not active stays so, [getStatus] says so, and [update] stores
    the state and returns a null pointer. *)
Theorem X4_inactive_until_activated (c : Controller) (ks : list call) :
  is_active c = false ->
  forallb (fun k => negb (is_activation k)) ks = true ->
  let c' := exec_all c ks in
  is_active c' = false /\ getStatus c' = false /\
  forall (now : Time) (uav_state : UavState.t D) (reference : PositionCommand.t D),
    update c' now uav_state reference = (set_uav_state_ c' uav_state, None).
Proof.
  intros Hact Hks c'.
  assert (H : is_active c' = false).
  { subst c'. revert c Hact Hks.
    induction ks as [|k ks IH]; intros c Hact Hks; [exact Hact|].
    cbn [forallb] in Hks. apply andb_prop in Hks as [Hk Hks].
    apply negb_true_iff in Hk.
    change (exec_all c (k :: ks)) with (exec_all (exec c k) ks).
    apply IH; [apply exec_inactive; assumption | exact Hks]. }
  split; [exact H|]. split; [exact H|].
  intros now uav_state reference. apply update_inactive, H.
Qed.

Lemma step_inactive (c : Controller) (ev : event) :
  is_active c = false ->
  is_active (step c ev) = false /\
  first_iteration (step c ev) = first_iteration c /\
  uav_mass_difference (step c ev) = uav_mass_difference c /\
  Iw_w (step c ev) = Iw_w c /\ Ib_b (step c ev) = Ib_b c /\
  last_output_command (step c ev) = last_output_command c /\
  last_update (step c ev) = last_update c.
Proof.
  intros Hact. destruct ev as [now uav_state reference|]; cbn [step].
  - rewrite (update_inactive c now uav_state reference Hact). cbn. repeat split.
    exact Hact.
  - cbn. repeat split. exact Hact.
Qed.

(** X5: [deactivate] zeroes the mass difference and keeps the two
    disturbance integrals and the last output command.  After it, under any
    calls of [update] and ticks of the timer, the controller returns null
    pointers and these members stay as they are. *)
Theorem X5_deactivate_freezes (c : Controller) (evs : list event) :
  let c' := run (deactivate c) evs in
  is_active c' = false /\ first_iteration c' = false /\
  uav_mass_difference c' = 0 /\
  Iw_w c' = Iw_w c /\ Ib_b c' = Ib_b c /\
  last_output_command c' = last_output_command c /\
  last_update c' = last_update c /\
  forall (now : Time) (uav_state : UavState.t D) (reference : PositionCommand.t D),
    snd (update c' now uav_state reference) = None.
Proof.
  intros c'.
  assert (H : forall c0 : Controller, is_active c0 = false ->
            is_active (run c0 evs) = false /\
            first_iteration (run c0 evs) = first_iteration c0 /\
            uav_mass_difference (run c0 evs) = uav_mass_difference c0 /\
            Iw_w (run c0 evs) = Iw_w c0 /\ Ib_b (run c0 evs) = Ib_b c0 /\
            last_output_command (run c0 evs) = last_output_command c0 /\
            last_update (run c0 evs) = last_update c0).
  { induction evs as [|ev evs IH]; intros c0 Hact; [cbn; repeat split; exact Hact|].
    change (run c0 (ev :: evs)) with (run (step c0 ev) evs).
    destruct (step_inactive c0 ev Hact) as (Ha & <- & <- & <- & <- & <- & <-).
    apply IH, Ha. }
  destruct (H (deactivate c) eq_refl) as (Ha & Hf & Hm & Hw & Hb & Ho & Hl).
  fold c' in Ha, Hf, Hm, Hw, Hb, Ho, Hl.
  split; [exact Ha|]. split; [exact Hf|]. split; [exact Hm|]. split; [exact Hw|].
  split; [exact Hb|]. split; [exact Ho|]. split; [exact Hl|].
  intros now uav_state reference.
  rewrite (update_inactive c' now uav_state reference Ha). reflexivity.
Qed.

(** ** Who assigns what *)

Lemma exec_frame (c : Controller) (k : call) :
  parameters (exec c k) = parameters c /\ transformer (exec c k) = transformer c /\
  (is_reconfigure k = false -> drs_desired_gains (exec c k) = drs_desired_gains c) /\
  (is_timer k = false -> actual_gains (exec c k) = actual_gains c).
Proof.
  destruct k as [[cmd|]| |now uav_state reference|now msg| |config|]; cbn [exec].
  - cbn. repeat split.
  - cbn. repeat split.
  - cbn. repeat split.
  - destruct (update_frame c now uav_state reference) as (_ & _ & -> & -> & -> & ->).
    repeat split.
  - unfold switchOdometrySource. destruct (transformer c _ _); cbn; repeat split.
  - cbn. repeat split.
  - cbn. repeat split. discriminate.
  - cbn. repeat split. discriminate.
Qed.

(** X6: No call changes the parameters of [initialize] (the mass, [g_], the
    motor parameters, the two saturations, the mute coefficient, the two
    change fractions) or the transformer; the desired gains change in
    [dynamicReconfigureCallback] only, and the gains in use in
    [timerGainsFilter] only. *)
Theorem X6_calls_frame (c : Controller) (ks : list call) :
  let c' := exec_all c ks in
  parameters c' = parameters c /\ transformer c' = transformer c /\
  (forallb (fun k => negb (is_reconfigure k)) ks = true ->
   drs_desired_gains c' = drs_desired_gains c) /\
  (forallb (fun k => negb (is_timer k)) ks = true ->
   actual_gains c' = actual_gains c).
Proof.
  intros c'. subst c'. revert c.
  induction ks as [|k ks IH]; intros c; [repeat split|].
  change (exec_all c (k :: ks)) with (exec_all (exec c k) ks).
  destruct (IH (exec c k)) as (-> & -> & Hd & Hg).
  destruct (exec_frame c k) as (-> & -> & Hd' & Hg').
  split; [reflexivity|]. split; [reflexivity|].
  cbn [forallb]. split; intros H; apply andb_prop in H as [Hk Hks];
    apply negb_true_iff in Hk.
  - rewrite (Hd Hks). apply Hd', Hk.
  - rewrite (Hg Hks). apply Hg', Hk.
Qed.

(** ** The command of a call that runs the control law *)

(** X7: The command reports the estimators as they are after the call, but
    the total mass, and the hover thrust that goes with it, from the mass
    difference before the call, and the body disturbance in the world frame
    from the body integral before the call. *)
Theorem X7_update_reports_estimates (c : Controller) (now : Time)
  (uav_state : UavState.t D) (reference : PositionCommand.t D) :
  full_tick c uav_state ->
  let c' := fst (update c now uav_state reference) in
  let total_mass := uav_mass_ c + uav_mass_difference c in
  let Ib_w := rotate2d (Ib_b c) (- snd (euler_angles uav_state)) in
  exists out : AttitudeCommand.t D,
    snd (update c now uav_state reference) = Some out /\
    last_output_command c' = Some out /\
    AttitudeCommand.mass_difference out = uav_mass_difference c' /\
    AttitudeCommand.total_mass out = total_mass /\
    hover_thrust c' =
      sqrt (total_mass * g_ c) * MotorParams.hover_thrust_a (motor_params_ c)
      + MotorParams.hover_thrust_b (motor_params_ c) /\
    AttitudeCommand.disturbance_wx_w out = g_ c * total_mass * sin (fst (Iw_w c')) /\
    AttitudeCommand.disturbance_wy_w out = g_ c * total_mass * sin (snd (Iw_w c')) /\
    AttitudeCommand.disturbance_bx_b out = g_ c * total_mass * sin (fst (Ib_b c')) /\
    AttitudeCommand.disturbance_by_b out = g_ c * total_mass * sin (snd (Ib_b c')) /\
    AttitudeCommand.disturbance_bx_w out = g_ c * total_mass * sin (fst Ib_w) /\
    AttitudeCommand.disturbance_by_w out = g_ c * total_mass * sin (snd Ib_w) /\
    AttitudeCommand.header out = Header.mk now EmptyString /\
    AttitudeCommand.controller out = "NsfController"%string /\
    AttitudeCommand.mode_mask out = MODE_EULER_ATTITUDE /\
    AttitudeCommand.euler_attitude_set out = true /\
    AttitudeCommand.quater_attitude_set out = false /\
    AttitudeCommand.attitude_rate_set out = false /\
    AttitudeCommand.controller_enforcing_constraints out = false.
Proof.
  intros Htick c' total_mass Ib_w. subst c'.
  rewrite (update_full_tick c now uav_state reference Htick). cbn [fst snd].
  eexists. split; [reflexivity|].
  control_tick. cbn. repeat split.
Qed.

(** ** The two disturbance integrals *)

(** X8: In a call of [update] that runs the control law, each component of
    the world integral accumulates [kiwxy * Ep * dt] of its axis unless the
    axis is gated: its tilt feedback is finite and beyond [max_tilt_angle_],
    and the feedback cut to that bound has the sign of the position error.
    Each component of the body integral accumulates [kibxy * Ep_body * dt],
    the position error rotated by the yaw, whether the feedback is saturated
    or not: the body integral has no gate.  Each sum is then set to [0] when
    it is not finite and cut to its limit when it is beyond it. *)
Theorem X8_update_integrals (c : Controller) (now : Time)
  (uav_state : UavState.t D) (reference : PositionCommand.t D) :
  full_tick c uav_state ->
  let dt := update_dt c uav_state in
  let Ep := control_error_Ep uav_state reference in
  let Ep_body := rotate2d (vX Ep, vY Ep) (snd (euler_angles uav_state)) in
  let feedback_w := tick_feedback_w c uav_state reference in
  let clamp := fun v lim : D =>
    if negb (isfinite v) then 0
    else if v >? lim then lim
    else if v <? - lim then - lim
    else v in
  let beyond := fun v lim : D => isfinite v && ((v >? lim) || (v <? - lim)) in
  let gate_x := beyond (vX feedback_w) (max_tilt_angle_ c)
                && (sign (clamp (vX feedback_w) (max_tilt_angle_ c)) =? sign (vX Ep))%Z in
  let gate_y := beyond (vY feedback_w) (max_tilt_angle_ c)
                && (sign (clamp (vY feedback_w) (max_tilt_angle_ c)) =? sign (vY Ep))%Z in
  let c' := fst (update c now uav_state reference) in
  Iw_w c' =
    (clamp (fst (Iw_w c) + kiwxy c * (vX Ep * (if gate_x then 0 else 1)) * dt)
       (kiwxy_lim c),
     clamp (snd (Iw_w c) + kiwxy c * (vY Ep * (if gate_y then 0 else 1)) * dt)
       (kiwxy_lim c)) /\
  Ib_b c' =
    (clamp (fst (Ib_b c) + kibxy c * fst Ep_body * dt) (kibxy_lim c),
     clamp (snd (Ib_b c) + kibxy c * snd Ep_body * dt) (kibxy_lim c)).
Proof.
  intros Htick dt Ep Ep_body feedback_w clamp beyond gate_x gate_y c'. subst c'.
  rewrite (update_full_tick c now uav_state reference Htick). cbn [fst].
  rewrite update_control_Iw_w, update_control_Ib_b.
  unfold integrate_world, integrate_body, integration_switch, tick_sat_x, tick_sat_y.
  rewrite !saturate_value, !saturate_flag. split; reflexivity.
Qed.

Context {laws : DoubleLaws D}.

(** X9: The tilt that a call running the control law commands: in the world
    frame both components are finite and within [max_tilt_angle_] (for a
    maximal tilt that is not negative), whatever the state and the reference
    hold; the command carries them rotated by the yaw into the body frame, x
    and y swapped, and the yaw of the reference. *)
Theorem X9_update_tilt_saturated (c : Controller) (now : Time)
  (uav_state : UavState.t D) (reference : PositionCommand.t D) :
  full_tick c uav_state ->
  (0 <=? max_tilt_angle_ c) = true ->
  let yaw := snd (euler_angles uav_state) in
  let fx := fst (tick_sat_x c uav_state reference) in
  let fy := fst (tick_sat_y c uav_state reference) in
  in_range fx (- max_tilt_angle_ c) (max_tilt_angle_ c) /\
  in_range fy (- max_tilt_angle_ c) (max_tilt_angle_ c) /\
  exists cmd : AttitudeCommand.t D,
    snd (update c now uav_state reference) = Some cmd /\
    AttitudeCommand.euler_attitude cmd =
      Vector3.mk (snd (rotate2d (fx, fy) yaw)) (fst (rotate2d (fx, fy) yaw))
        (PositionCommand.yaw reference).
Proof.
  intros Htick Hlim yaw fx fy.
  split; [apply saturate_in_range, Hlim|]. split; [apply saturate_in_range, Hlim|].
  rewrite (update_full_tick c now uav_state reference Htick). cbn [snd].
  eexists. split; [reflexivity|].
  control_tick. reflexivity.
Qed.

(** ** The limits of the estimators *)

Lemma zero_in_range (lim : D) : (0 <=? lim) = true -> in_range 0 (- lim) lim.
Proof.
  intros H. repeat split; [apply isfinite_zero | apply dopp_le_zero, H | exact H].
Qed.

Lemma exec_within_limits (c : Controller) (k : call) :
  (0 <=? kiwxy_lim c) = true -> (0 <=? kibxy_lim c) = true ->
  (0 <=? km_lim c) = true ->
  is_seed k = false -> within_limits c -> within_limits (exec c k).
Proof.
  intros Hw Hb Hm Hk (H1 & H2 & H3 & H4 & H5).
  destruct k as [cmd| |now uav_state reference|now msg| |config|];
    try discriminate; cbn [exec]; unfold within_limits.
  - pose proof (zero_in_range _ Hm). cbn -[in_range]. tauto.
  - destruct (update_cases c now uav_state reference)
      as [(_ & ->)|[(_ & _ & ->)|[(_ & _ & ->)|(_ & _ & ->)]]]; cbn [fst];
      [cbn -[in_range]; tauto ..|].
    set (c1 := set_last_update _ _).
    destruct (update_control_limits c1 now uav_state reference (update_dt c uav_state))
      as (-> & -> & ->).
    rewrite update_control_Iw_w, update_control_Ib_b,
      update_control_uav_mass_difference.
    unfold integrate_world, integrate_body, integrate_mass. cbn [fst snd].
    repeat split; apply saturate_in_range; assumption.
  - pose proof (zero_in_range _ Hw). pose proof (zero_in_range _ Hb).
    cbn -[in_range]. tauto.
  - cbn -[in_range]. tauto.
Qed.

(** X10: Once the three estimators are finite and within their limits (the
    limits not negative), they stay so under any calls of [update],
    [deactivate], [resetDisturbanceEstimators] and
    [dynamicReconfigureCallback], whatever the states and the references
    hold (NaN and infinities included).  [resetDisturbanceEstimators] puts
    the two integrals within any such limits. *)
Theorem X10_estimators_stay_within_limits (c : Controller) (ks : list call) :
  (0 <=? kiwxy_lim c) = true -> (0 <=? kibxy_lim c) = true ->
  (0 <=? km_lim c) = true ->
  forallb (fun k => negb (is_seed k)) ks = true ->
  (within_limits c -> within_limits (exec_all c ks)) /\
  (in_range (uav_mass_difference c) (- km_lim c) (km_lim c) ->
   within_limits (exec_all (resetDisturbanceEstimators c) ks)).
Proof.
  intros Hw Hb Hm Hks.
  assert (H : forall c0 : Controller,
            actual_gains c0 = actual_gains c ->
            within_limits c0 -> within_limits (exec_all c0 ks)).
  { clear - laws Hw Hb Hm Hks. induction ks as [|k ks IH]; intros c0 Hg Hin; [exact Hin|].
    cbn [forallb] in Hks. apply andb_prop in Hks as [Hk Hks].
    apply negb_true_iff in Hk.
    change (exec_all c0 (k :: ks)) with (exec_all (exec c0 k) ks).
    assert (Hlims : kiwxy_lim c0 = kiwxy_lim c /\ kibxy_lim c0 = kibxy_lim c /\
                    km_lim c0 = km_lim c).
    { pose proof (f_equal nsf_controllerConfig.kiwxy_lim Hg).
      pose proof (f_equal nsf_controllerConfig.kibxy_lim Hg).
      pose proof (f_equal nsf_controllerConfig.km_lim Hg). tauto. }
    destruct Hlims as (Hl1 & Hl2 & Hl3).
    apply (IH Hks).
    - destruct (exec_frame c0 k) as (_ & _ & _ & Hg').
      rewrite Hg'; [exact Hg|]. destruct k; try reflexivity; discriminate.
    - apply exec_within_limits; try assumption;
        [rewrite Hl1 | rewrite Hl2 | rewrite Hl3]; assumption. }
  split.
  - apply H. reflexivity.
  - intros Hmass. apply H; [reflexivity|].
    unfold within_limits. cbn -[in_range].
    pose proof (zero_in_range _ Hw). pose proof (zero_in_range _ Hb). tauto.
Qed.

End Calls.

(** * The gain filter timer *)

Section Timer.
Context {D : Type} {ops : DoubleOps D}.
Local Open Scope double_scope.

(** The twelve gains after a tick of the timer. *)
Lemma timerGainsFilter_gains (c : NsfController D) :
  let b := bypass_filter c in
  let k := if mute_lateral_gains c then mute_coefficitent_ c else 1 in
  let d := drs_desired_gains c in
  actual_gains (timerGainsFilter c) =
  {| nsf_controllerConfig.kpxy :=
       calculateGainChange c (kpxy c) (nsf_controllerConfig.kpxy d * k) b;
     nsf_controllerConfig.kvxy :=
       calculateGainChange c (kvxy c) (nsf_controllerConfig.kvxy d * k) b;
     nsf_controllerConfig.kaxy :=
       calculateGainChange c (kaxy c) (nsf_controllerConfig.kaxy d * k) b;
     nsf_controllerConfig.kiwxy :=
       calculateGainChange c (kiwxy c) (nsf_controllerConfig.kiwxy d * k) b;
     nsf_controllerConfig.kibxy :=
       calculateGainChange c (kibxy c) (nsf_controllerConfig.kibxy d * k) b;
     nsf_controllerConfig.kpz :=
       calculateGainChange c (kpz c) (nsf_controllerConfig.kpz d) false;
     nsf_controllerConfig.kvz :=
       calculateGainChange c (kvz c) (nsf_controllerConfig.kvz d) false;
     nsf_controllerConfig.kaz :=
       calculateGainChange c (kaz c) (nsf_controllerConfig.kaz d) false;
     nsf_controllerConfig.kiwxy_lim :=
       calculateGainChange c (kiwxy_lim c) (nsf_controllerConfig.kiwxy_lim d) false;
     nsf_controllerConfig.kibxy_lim :=
       calculateGainChange c (kibxy_lim c) (nsf_controllerConfig.kibxy_lim d) false;
     nsf_controllerConfig.km :=
       calculateGainChange c (km c) (nsf_controllerConfig.km d) false;
     nsf_controllerConfig.km_lim :=
       calculateGainChange c (km_lim c) (nsf_controllerConfig.km_lim d) false |}.
Proof. generalize c. intros c0. reflexivity. Qed.

(** X11: While the muting is on, or has just been toggled off, a request of
    the dynamic reconfigure server reaches the five lateral gains at the next
    tick of the timer with no rate limit: each becomes
    [current + (desired - current)], where [desired] is the requested value,
    times the mute coefficient while the muting is on.  That is the desired
    value when the subtraction and the addition are exact, and the desired
    value up to their rounding otherwise.  The seven other gains are
    rate-limited as on every tick, and the tick clears the flag of the
    toggle. *)
Theorem X11_reconfigure_under_bypass (c : NsfController D)
  (config : nsf_controllerConfig.t D) :
  bypass_filter c = true ->
  let gain_coeff := if mute_lateral_gains c then mute_coefficitent_ c else 1 in
  let c' := timerGainsFilter (dynamicReconfigureCallback c config) in
  Forall (fun f =>
            let current := f (actual_gains c) in
            let desired := f config * gain_coeff in
            f (actual_gains c') = current + (desired - current) /\
            forall val : D -> Q,
              exact_sub val desired current ->
              exact_add val current (desired - current) ->
              (val (f (actual_gains c')) == val desired)%Q)
    lateral_fields /\
  Forall (fun f => f (actual_gains c') =
                   calculateGainChange c (f (actual_gains c)) (f config) false)
    other_fields /\
  drs_desired_gains c' = config /\
  mutex_lateral_gains_after_toggle c' = false.
Proof.
  intros Hb gain_coeff c'. subst c'.
  rewrite timerGainsFilter_gains.
  change (bypass_filter (dynamicReconfigureCallback c config)) with (bypass_filter c).
  rewrite Hb.
  change (if mute_lateral_gains (dynamicReconfigureCallback c config)
          then mute_coefficitent_ (dynamicReconfigureCallback c config) else 1)
    with gain_coeff.
  change (drs_desired_gains (dynamicReconfigureCallback c config)) with config.
  assert (Hexact : forall (val : D -> Q) (x d : D),
            exact_sub val d x -> exact_add val x (d - x) ->
            (val (x + (d - x))%D == val d)%Q).
  { intros val x d Hsub Hadd. unfold exact_sub, exact_add in *.
    rewrite Hadd, Hsub. ring. }
  split.
  - repeat constructor; intros val; apply Hexact.
  - split; [|split; reflexivity].
    repeat constructor.
Qed.

(** One exact call of the filter with no bypass brings a gain closer to its
    target. *)
Lemma exact_closer (c : NsfController D) (val : D -> Q) (x d : D) :
  let M := val (gains_filter_max_change_ c) in
  let m := val (gains_filter_min_change_ c) in
  (0 <= M <= 1)%Q -> (0 <= m <= 1)%Q ->
  exact_call val c x d ->
  let x' := val (calculateGainChange c x d false) in
  ((val x <= val d -> val x <= x' <= val d) /\
   (val d <= val x -> val d <= x' <= val x) /\
   Qabs (val d - x') <= (1 - Qmin M m) * Qabs (val d - val x))%Q.
Proof.
  intros M m HM01 Hm01 Hex x'.
  destruct (exact_step val c x d HM01 Hm01 Hex) as (s & Hs & Hb).
  cbv zeta in Hb. fold M m x' in Hs, Hb.
  assert (Hmn0 : (0 <= Qmin M m)%Q) by (apply Q.min_glb; tauto).
  assert (Hmn1 : (Qmin M m <= 1)%Q).
  { pose proof (Q.le_min_l M m). lra. }
  set (mn := Qmin M m) in *. clearbody mn x'.
  split; [|split].
  - intros Hxd. rewrite Hs. destruct Hb as [Hb|Hb]; split; nra.
  - intros Hxd. rewrite Hs. destruct Hb as [Hb|Hb]; split; nra.
  - destruct Hb as [Hb|Hb].
    + rewrite (Qabs_pos (val d - x')), (Qabs_pos (val d - val x)) by (rewrite ?Hs; nra).
      rewrite Hs. nra.
    + rewrite (Qabs_neg (val d - x')), (Qabs_neg (val d - val x)) by (rewrite ?Hs; nra).
      rewrite Hs. nra.
Qed.


End Timer.

(** * The PID controller *)

Section PidProperties.
Context {D : Type} {ops : DoubleOps D}.
Local Open Scope double_scope.

(** What [Pid::update] assigns: [last_error] takes the error, the integral
    accumulates the error unless the anti-windup holds it back, and is then
    saturated. *)
Lemma Pid_update_eq (p : Pid.t D) (error dt : D) :
  let sat := saturate (Pid.control_output p error dt) (Pid.saturation p) in
  let accumulate :=
    negb (snd sat)
    || ((0 <? fst sat) && (error <? 0)) || ((fst sat <? 0) && (0 <? error)) in
  Pid.update p error dt =
  (Pid.mk
     (fst (saturate (if accumulate then Pid.integral p + error else Pid.integral p)
             (Pid.integral_saturation p)))
     error (Pid.kp p) (Pid.kd p) (Pid.ki p) (Pid.exp_filter_const p)
     (Pid.integral_saturation p) (Pid.saturation p) (Pid.name p),
   fst sat).
Proof.
  intros sat accumulate. subst accumulate. unfold Pid.update.
  change (Pid.saturation (Pid.set_last_error p error)) with (Pid.saturation p).
  fold sat.
  destruct (snd sat); cbn [negb orb].
  - destruct ((0 <? fst sat) && (error <? 0)); cbn [orb]; [reflexivity|].
    destruct ((fst sat <? 0) && (0 <? error)); reflexivity.
  - reflexivity.
Qed.

Lemma Pid_exec_frame (p : Pid.t D) (k : Pid.call D) :
  Pid.saturation (Pid.exec p k) = Pid.saturation p /\
  Pid.integral_saturation (Pid.exec p k) = Pid.integral_saturation p /\
  Pid.exp_filter_const (Pid.exec p k) = Pid.exp_filter_const p /\
  Pid.name (Pid.exec p k) = Pid.name p.
Proof.
  destruct k as [error dt|last_error|kp kd ki]; cbn [Pid.exec].
  - rewrite Pid_update_eq. cbn. repeat split.
  - cbn. repeat split.
  - cbn. repeat split.
Qed.

Context {laws : DoubleLaws D}.

Lemma saturate_nonfinite (v lim : D) : isfinite v = false -> saturate v lim = (0, false).
Proof. intros H. unfold saturate. rewrite H. reflexivity. Qed.

Lemma nonfinite_dadd_l (x y : D) : isfinite x = false -> isfinite (x + y) = false.
Proof.
  intros H. destruct (isfinite (x + y)) eqn:E; [|reflexivity].
  apply isfinite_dadd in E as [E _]. congruence.
Qed.

Lemma nonfinite_dadd_r (x y : D) : isfinite y = false -> isfinite (x + y) = false.
Proof.
  intros H. destruct (isfinite (x + y)) eqn:E; [|reflexivity].
  apply isfinite_dadd in E as [_ E]. congruence.
Qed.

Lemma nonfinite_dmul_r (x y : D) : isfinite y = false -> isfinite (x * y) = false.
Proof.
  intros H. destruct (isfinite (x * y)) eqn:E; [|reflexivity].
  apply isfinite_dmul in E as [_ E]. congruence.
Qed.

Lemma Pid_exec_integral (p : Pid.t D) (k : Pid.call D) :
  (0 <=? Pid.integral_saturation p) = true ->
  in_range (Pid.integral p) (- Pid.integral_saturation p) (Pid.integral_saturation p) ->
  in_range (Pid.integral (Pid.exec p k))
    (- Pid.integral_saturation p) (Pid.integral_saturation p).
Proof.
  intros Hlim Hin. destruct k as [error dt|last_error|kp kd ki]; cbn [Pid.exec].
  - rewrite Pid_update_eq. cbn [fst Pid.integral]. apply saturate_in_range, Hlim.
  - cbn [Pid.reset Pid.set_last_error Pid.set_integral Pid.integral].
    repeat split; [apply isfinite_zero | apply dopp_le_zero, Hlim | exact Hlim].
  - exact Hin.
Qed.

Lemma Pid_exec_all_bounded (ks : list (Pid.call D)) : forall p : Pid.t D,
  (0 <=? Pid.integral_saturation p) = true ->
  in_range (Pid.integral p) (- Pid.integral_saturation p) (Pid.integral_saturation p) ->
  Pid.saturation (Pid.exec_all p ks) = Pid.saturation p /\
  Pid.integral_saturation (Pid.exec_all p ks) = Pid.integral_saturation p /\
  in_range (Pid.integral (Pid.exec_all p ks))
    (- Pid.integral_saturation p) (Pid.integral_saturation p).
Proof.
  induction ks as [|k ks IH]; intros p Hlim Hin; [repeat split; apply Hin|].
  change (Pid.exec_all p (k :: ks)) with (Pid.exec_all (Pid.exec p k) ks).
  destruct (Pid_exec_frame p k) as (E1 & E2 & _).
  pose proof (Pid_exec_integral p k Hlim Hin) as Hin'.
  rewrite <- E1, <- E2. rewrite <- E2 in Hin', Hlim. apply IH; assumption.
Qed.

(** X13: A [Pid] as [Pid::Pid] makes it, with saturations that are not
    negative, after any calls of [update], [reset] and [setGains] (whatever
    their arguments, NaN and infinities included): its two saturations are
    the constructor's, its integral is finite and within
    [integral_saturation], and a further call of [update] returns a finite
    value within [saturation]. *)
Theorem X13_Pid_bounded (name : string)
  (kp kd ki integral_saturation saturation exp_filter_const : D)
  (ks : list (Pid.call D)) (error dt : D) :
  (0 <=? saturation) = true ->
  (0 <=? integral_saturation) = true ->
  let p := Pid.exec_all
             (Pid.Pid name kp kd ki integral_saturation saturation exp_filter_const) ks in
  Pid.saturation p = saturation /\
  Pid.integral_saturation p = integral_saturation /\
  in_range (Pid.integral p) (- integral_saturation) integral_saturation /\
  in_range (snd (Pid.update p error dt)) (- saturation) saturation /\
  in_range (Pid.integral (fst (Pid.update p error dt)))
    (- integral_saturation) integral_saturation.
Proof.
  intros Hsat Hisat p.
  destruct (Pid_exec_all_bounded ks
              (Pid.Pid name kp kd ki integral_saturation saturation exp_filter_const))
    as (H1 & H2 & H3); [exact Hisat | |].
  { repeat split; [apply isfinite_zero | apply dopp_le_zero, Hisat | exact Hisat]. }
  fold p in H1, H2, H3. cbn in H1, H2.
  split; [exact H1|]. split; [exact H2|]. split; [exact H3|].
  rewrite Pid_update_eq. cbn [fst snd Pid.integral]. rewrite H1, H2.
  split; apply saturate_in_range; assumption.
Qed.

(** X14: The anti-windup of [Pid::update].  When the output is saturated,
    the integral accumulates the error only if the output and the error have
    opposite signs; otherwise an integral within its saturation is left
    exactly as it is: so when the output is saturated on the positive side
    and the error is not negative, and when it is saturated on the negative
    side and the error is not positive.  When the output is not saturated
    (also when it was not finite and has been set to 0) the error is
    accumulated. *)
Theorem X14_Pid_antiwindup (p : Pid.t D) (error dt : D) :
  in_range (Pid.integral p) (- Pid.integral_saturation p) (Pid.integral_saturation p) ->
  let out := snd (Pid.update p error dt) in
  let saturated := snd (saturate (Pid.control_output p error dt) (Pid.saturation p)) in
  let integral' := Pid.integral (fst (Pid.update p error dt)) in
  (saturated = true ->
   ((0 <? out) && (error <? 0)) || ((out <? 0) && (0 <? error)) = false ->
   integral' = Pid.integral p) /\
  (saturated = true -> (0 <? out) = true -> (error <? 0) = false ->
   integral' = Pid.integral p) /\
  (saturated = true -> (out <? 0) = true -> (0 <? error) = false ->
   integral' = Pid.integral p) /\
  (saturated = true ->
   ((0 <? out) && (error <? 0)) || ((out <? 0) && (0 <? error)) = true ->
   integral' = fst (saturate (Pid.integral p + error) (Pid.integral_saturation p))) /\
  (saturated = false ->
   integral' = fst (saturate (Pid.integral p + error) (Pid.integral_saturation p))).
Proof.
  intros Hin out saturated integral'. subst out saturated integral'.
  rewrite Pid_update_eq. cbn [fst snd Pid.integral].
  set (sat := saturate (Pid.control_output p error dt) (Pid.saturation p)).
  assert (Hfrozen : snd sat = true ->
            ((0 <? fst sat) && (error <? 0)) || ((fst sat <? 0) && (0 <? error)) = false ->
            fst (saturate
                   (if negb (snd sat) || (0 <? fst sat) && (error <? 0)
                       || (fst sat <? 0) && (0 <? error)
                    then Pid.integral p + error else Pid.integral p)
                   (Pid.integral_saturation p)) = Pid.integral p).
  { intros Hs Hopp. rewrite Hs. cbn [negb orb]. rewrite Hopp.
    rewrite (saturate_within _ _ Hin). reflexivity. }
  split; [exact Hfrozen|]. split; [|split; [|split]].
  - intros Hs Hpos Herr. apply Hfrozen; [exact Hs|].
    rewrite Herr, andb_false_r. cbn [orb].
    rewrite (dle_not_dlt _ _ (dlt_dle _ _ Hpos)). reflexivity.
  - intros Hs Hneg Herr. apply Hfrozen; [exact Hs|].
    rewrite Herr, andb_false_r, orb_false_r.
    rewrite (dle_not_dlt _ _ (dlt_dle _ _ Hneg)). reflexivity.
  - intros Hs Hopp. rewrite Hs. cbn [negb orb]. rewrite Hopp. reflexivity.
  - intros Hs. rewrite Hs. reflexivity.
Qed.

(** X15: An error that is not finite (a NaN or an infinity) makes
    [Pid::update] return 0 and set the integral to 0, whatever the gains; as
    the error is kept in [last_error], the next call returns 0 as well,
    whatever its error and [dt], and restarts the integral from that error. *)
Theorem X15_Pid_nonfinite_error (p : Pid.t D) (error dt error' dt' : D) :
  isfinite error = false ->
  let p1 := fst (Pid.update p error dt) in
  let p2 := fst (Pid.update p1 error' dt') in
  snd (Pid.update p error dt) = 0 /\ Pid.integral p1 = 0 /\
  Pid.last_error p1 = error /\
  snd (Pid.update p1 error' dt') = 0 /\
  Pid.integral p2 = fst (saturate (0 + error') (Pid.integral_saturation p)) /\
  Pid.last_error p2 = error'.
Proof.
  intros Herr p1 p2. subst p2 p1.
  assert (H1 : saturate (Pid.control_output p error dt) (Pid.saturation p) = (0, false)).
  { apply saturate_nonfinite. unfold Pid.control_output.
    apply nonfinite_dadd_l, nonfinite_dadd_l, nonfinite_dmul_r, Herr. }
  rewrite (Pid_update_eq p error dt). rewrite H1.
  cbn [fst snd negb orb Pid.integral Pid.last_error].
  rewrite (saturate_nonfinite _ _ (nonfinite_dadd_r _ _ Herr)). cbn [fst].
  split; [reflexivity|]. split; [reflexivity|]. split; [reflexivity|].
  set (p1 := Pid.mk _ _ _ _ _ _ _ _ _).
  assert (H2 : saturate (Pid.control_output p1 error' dt') (Pid.saturation p1) = (0, false)).
  { apply saturate_nonfinite. unfold Pid.control_output, Pid.difference.
    apply nonfinite_dadd_l, nonfinite_dadd_r, nonfinite_dmul_r,
      nonfinite_dadd_l, nonfinite_dmul_r. exact Herr. }
  rewrite (Pid_update_eq p1 error' dt'). rewrite H2. cbn. repeat split.
Qed.

End PidProperties.

Section PidControllerProperties.
Context {D : Type} {ops : DoubleOps D}.
Local Open Scope double_scope.


Lemma PidController_small_dt (c : PidController.t D) (now0 now1 now2 : Time)
  (odometry : PidController.Odometry.t D) (reference : PositionCommand.t D) :
  PidController.first_iteration c = false ->
  (toSec (now0 - PidController.last_update c)%Z <=? dlit 0.001) = true ->
  PidController.update c now0 now1 now2 odometry reference =
  (PidController.set_last_update c now1, PidController.last_output_command c).
Proof.
  intros Hfirst Hdt. unfold PidController.update. rewrite Hfirst, Hdt. reflexivity.
Qed.

Lemma PidController_update_last_output_command (c : PidController.t D) now0 now1 now2
  odometry reference :
  PidController.last_output_command
    (fst (PidController.update c now0 now1 now2 odometry reference)) =
  PidController.last_output_command c.
Proof.
  unfold PidController.update.
  destruct (PidController.first_iteration c); [reflexivity|].
  destruct (_ <=? _); reflexivity.
Qed.

(** X17: No method assigns [last_output_command]: [update] returns the
    command it has built without keeping it.  So the member is after any
    calls what it was before them (a null pointer, for a controller that
    starts with one); and, past the first iteration, every call of [update]
    whose [dt] is at most a millisecond (zero and negative values included:
    there is no [fabs] here) returns that pointer, leaves the three [Pid]s
    untouched and takes the second reading of the clock for [last_update]. *)
Theorem X17_PidController_never_keeps_output (c : PidController.t D)
  (ks : list (PidController.call D)) :
  let c' := PidController.exec_all c ks in
  PidController.last_output_command c' = PidController.last_output_command c /\
  forall (now0 now1 now2 : Time) (odometry : PidController.Odometry.t D)
    (reference : PositionCommand.t D),
    PidController.first_iteration c' = false ->
    (toSec (now0 - PidController.last_update c')%Z <=? dlit 0.001) = true ->
    PidController.update c' now0 now1 now2 odometry reference =
    (PidController.set_last_update c' now1, PidController.last_output_command c).
Proof.
  intros c'.
  assert (H : PidController.last_output_command c' = PidController.last_output_command c).
  { subst c'. revert c. induction ks as [|k ks IH]; intros c; [reflexivity|].
    change (PidController.exec_all c (k :: ks))
      with (PidController.exec_all (PidController.exec c k) ks).
    rewrite IH. destruct k as [| |now0 now1 now2 odometry reference|config];
      cbn [PidController.exec]; try reflexivity.
    apply PidController_update_last_output_command. }
  split; [exact H|].
  intros now0 now1 now2 odometry reference Hfirst Hdt.
  rewrite (PidController_small_dt c' now0 now1 now2 odometry reference Hfirst Hdt).
  rewrite H. reflexivity.
Qed.

Lemma PidController_exec_gains_agree (c : PidController.t D) (k : PidController.call D) :
  PidController.gains_agree c -> PidController.gains_agree (PidController.exec c k).
Proof.
  intros H. destruct k as [| |now0 now1 now2 odometry reference|config];
    cbn [PidController.exec].
  - exact H.
  - exact H.
  - unfold PidController.update.
    destruct (PidController.first_iteration c); [exact H|].
    destruct (_ <=? _); [exact H|].
    cbn [fst]. unfold PidController.gains_agree.
    cbn [PidController.pid_x PidController.pid_y PidController.pid_z
         PidController.set_pid_x PidController.set_pid_y PidController.set_pid_z
         PidController.set_last_update PidController.kpxy_ PidController.kdxy_
         PidController.kixy_ PidController.kpz_ PidController.kdz_ PidController.kiz_].
    rewrite !Pid_update_eq. exact H.
  - cbn. unfold PidController.gains_agree. cbn. repeat split.
Qed.


Context {laws : DoubleLaws D}.

(** X19: A call of [update] past the first iteration, with [dt] above a
    millisecond, hands each [Pid] the position error of its own axis
    (reference minus odometry) and that [dt], and keeps the three [Pid]s as
    these calls leave them.  It returns a command whose pitch and roll are
    the actions of [pid_x] and [pid_y], each finite and within the saturation
    of its [Pid], rotated by the yaw; whose yaw is the reference's; and whose
    thrust is the action of [pid_z], finite and within its saturation, plus
    the hover thrust, over [cos(roll) * cos(pitch)], with no saturation of
    its own.  (Saturations not negative.) *)
Theorem X19_PidController_update_command (c : PidController.t D) (now0 now1 now2 : Time)
  (odometry : PidController.Odometry.t D) (reference : PositionCommand.t D) :
  PidController.first_iteration c = false ->
  (toSec (now0 - PidController.last_update c)%Z <=? dlit 0.001) = false ->
  (0 <=? Pid.saturation (PidController.pid_x c)) = true ->
  (0 <=? Pid.saturation (PidController.pid_y c)) = true ->
  (0 <=? Pid.saturation (PidController.pid_z c)) = true ->
  let dt := toSec (now0 - PidController.last_update c)%Z in
  let position :=
    Pose.position (PidController.PoseWithCovariance.pose
                     (PidController.Odometry.pose odometry)) in
  let error_x := Vector3.x (PositionCommand.position reference) - Vector3.x position in
  let error_y := Vector3.y (PositionCommand.position reference) - Vector3.y position in
  let error_z := Vector3.z (PositionCommand.position reference) - Vector3.z position in
  let action_x := snd (Pid.update (PidController.pid_x c) error_x dt) in
  let action_y := snd (Pid.update (PidController.pid_y c) error_y dt) in
  let action_z := snd (Pid.update (PidController.pid_z c) error_z dt) in
  let roll := fst (fst (PidController.euler_angles odometry)) in
  let pitch := snd (fst (PidController.euler_angles odometry)) in
  let yaw := snd (PidController.euler_angles odometry) in
  let c' := fst (PidController.update c now0 now1 now2 odometry reference) in
  exists cmd : PidController.AttitudeCommand.t D,
    snd (PidController.update c now0 now1 now2 odometry reference) = Some cmd /\
    PidController.AttitudeCommand.pitch cmd = action_x * cos yaw - action_y * sin yaw /\
    PidController.AttitudeCommand.roll cmd = action_y * cos yaw + action_x * sin yaw /\
    PidController.AttitudeCommand.yaw cmd = PositionCommand.yaw reference /\
    PidController.AttitudeCommand.thrust cmd =
      (action_z + PidController.hover_thrust_ c) * (1 / (cos roll * cos pitch)) /\
    Header.stamp (PidController.AttitudeCommand.header cmd) = now2 /\
    in_range action_x (- Pid.saturation (PidController.pid_x c))
      (Pid.saturation (PidController.pid_x c)) /\
    in_range action_y (- Pid.saturation (PidController.pid_y c))
      (Pid.saturation (PidController.pid_y c)) /\
    in_range action_z (- Pid.saturation (PidController.pid_z c))
      (Pid.saturation (PidController.pid_z c)) /\
    PidController.pid_x c' = fst (Pid.update (PidController.pid_x c) error_x dt) /\
    PidController.pid_y c' = fst (Pid.update (PidController.pid_y c) error_y dt) /\
    PidController.pid_z c' = fst (Pid.update (PidController.pid_z c) error_z dt) /\
    PidController.last_update c' = now1 /\
    PidController.last_output_command c' = PidController.last_output_command c.
Proof.
  intros Hfirst Hdt Hx Hy Hz dt position error_x error_y error_z
    action_x action_y action_z roll pitch yaw c'.
  subst c'. unfold PidController.update. rewrite Hfirst, Hdt.
  cbn [fst snd PidController.pid_x PidController.pid_y PidController.pid_z
       PidController.set_pid_x PidController.set_pid_y PidController.set_pid_z
       PidController.set_last_update PidController.hover_thrust_
       PidController.last_update PidController.last_output_command].
  eexists. split; [reflexivity|].
  cbn [PidController.AttitudeCommand.pitch PidController.AttitudeCommand.roll
       PidController.AttitudeCommand.yaw PidController.AttitudeCommand.thrust
       PidController.AttitudeCommand.header Header.stamp].
  do 5 (split; [reflexivity|]).
  subst action_x action_y action_z. rewrite !Pid_update_eq. cbn [fst snd].
  split; [apply saturate_in_range, Hx|].
  split; [apply saturate_in_range, Hy|].
  split; [apply saturate_in_range, Hz|].
  repeat split.
Qed.


End PidControllerProperties.

(** * The claims on the example data *)

Import Example.
Local Open Scope double_scope.

(** ** C1 *)

(** The theorem at a state that comes half a millisecond after the last
    update. *)
Lemma C1_witness :
  is_active flying = true /\ first_iteration flying = false /\
  (fabs (update_dt flying state_too_soon) <=? dlit 0.001) = true /\
  snd (update flying now state_too_soon reference_ahead) =
    Some (activation_control_command_ flying) /\
  Iw_w (fst (update flying now state_too_soon reference_ahead)) = Iw_w flying /\
  last_update (fst (update flying now state_too_soon reference_ahead)) =
    Header.stamp (UavState.header state_too_soon).
Proof.
  pose proof (C1_small_dt_reuses_output flying now state_too_soon reference_ahead
                eq_refl eq_refl eq_refl) as (Hout & _ & HIw & _ & _ & _ & _ & Hlast & _).
  split; [reflexivity|]. split; [reflexivity|]. split; [reflexivity|].
  split; [exact Hout|]. split; [exact HIw | exact Hlast].
Defined.

(** C1 as stated fails twice.  With [dt] half a millisecond, [last_update]
    advances to the stamp of the state.  With a state stamped one second before
    the last update, [dt = -1] is below [0.001] and not positive, yet
    [fabs(dt) > 0.001]: the control law runs with the negative [dt], a new
    command is returned and the body integral moves. *)
Lemma C1_counterexample :
  (is_active flying = true /\ first_iteration flying = false /\
   (fabs (update_dt flying state_too_soon) <=? dlit 0.001) = true /\
   last_update (fst (update flying now state_too_soon reference_ahead))
     <> last_update flying) /\
  ((update_dt flying state_late <=? dlit 0.001) = true /\
   (update_dt flying state_late <=? 0) = true /\
   last_output_command flying = None /\
   snd (update flying now state_late reference_ahead)
     <> Some (activation_control_command_ flying) /\
   deq (fst (Ib_b (fst (update flying now state_late reference_ahead))))
       (fst (Ib_b flying)) = false).
Proof.
  split.
  - repeat split. vm_compute. discriminate.
  - repeat split.
    intros H.
    apply (f_equal (option_map AttitudeCommand.controller)) in H.
    vm_compute in H. discriminate.
Qed.

(** ** C2 *)

(** The theorem at a call ten milliseconds after the last update, which
    reaches the control law, and at one half a millisecond after it, which
    does not. *)
Lemma C2_witness :
  reaches_control flying state_next = true /\
  in_range (fst (Iw_w (fst (update flying now state_next reference_ahead))))
    (- kiwxy_lim flying) (kiwxy_lim flying) /\
  in_range (uav_mass_difference (fst (update flying now state_next reference_ahead)))
    (- km_lim flying) (km_lim flying) /\
  reaches_control flying state_too_soon = false /\
  Iw_w (fst (update flying now state_too_soon reference_ahead)) = Iw_w flying.
Proof.
  assert (Hrun : reaches_control flying state_next = true) by reflexivity.
  assert (Hskip : reaches_control flying state_too_soon = false) by reflexivity.
  destruct (proj1 (C2_estimators_within_limits flying now state_next reference_ahead)
              Hrun eq_refl eq_refl eq_refl) as (Hx & _ & _ & _ & Hm).
  destruct (proj2 (C2_estimators_within_limits flying now state_too_soon reference_ahead)
              Hskip) as (HIw & _).
  split; [exact Hrun|]. split; [exact Hx|]. split; [exact Hm|].
  split; [exact Hskip | exact HIw].
Defined.

(** C2 as stated fails after an activation whose seed lies beyond the limit
    or is not a number.  The previous command carries a world disturbance of
    10 N: [activate] sets [Iw_w[0]] to [asin (10 / (10 * 2))], above
    [kiwxy_lim = 1/4].  The first call of [update] completes and returns the
    activation command, and so does a second call half a millisecond later,
    which returns it again; after each of them [Iw_w[0]] is still above the
    limit.  With a disturbance of 30 N the seed is [asin (3/2)], not a number,
    and it stays so after the first call. *)
Lemma C2_counterexample :
  let c1 := fst (activate idle (Some (previous_command 10))) in
  let c2 := fst (update c1 now state_same reference_here) in
  let c3 := fst (update c2 now state_too_soon reference_here) in
  let n1 := fst (activate idle (Some (previous_command 30))) in
  let n2 := fst (update n1 now state_same reference_here) in
  snd (update c1 now state_same reference_here) = Some (activation_control_command_ c1) /\
  snd (update c2 now state_too_soon reference_here) =
    Some (activation_control_command_ c1) /\
  (0 <=? kiwxy_lim c2) = true /\
  (kiwxy_lim c2 <? fst (Iw_w c2)) = true /\
  (fst (Iw_w c2) <=? kiwxy_lim c2) = false /\
  (0 <=? kiwxy_lim c3) = true /\
  (kiwxy_lim c3 <? fst (Iw_w c3)) = true /\
  (fst (Iw_w c3) <=? kiwxy_lim c3) = false /\
  snd (update n1 now state_same reference_here) = Some (activation_control_command_ n1) /\
  isfinite (fst (Iw_w n2)) = false.
Proof. vm_compute. repeat split. Qed.

(** ** C3 *)

(** In [flying] the x feedback is saturated at the positive limit while the
    vehicle is behind its reference, and the world integral was zero. *)
Lemma C3_witness :
  full_tick flying state_next /\
  snd (tick_sat_x flying state_next reference_ahead) = true /\
  deq (fst (Iw_w (fst (update flying now state_next reference_ahead))))
      (fst (Iw_w flying)) = true.
Proof.
  assert (Htick : full_tick flying state_next) by reflexivity.
  split; [exact Htick|]. split; [reflexivity|].
  refine (proj1 (C3_anti_windup flying now state_next reference_ahead Htick eq_refl)
            eq_refl eq_refl _).
  repeat split.
Defined.

(** C3 as stated fails after an activation whose seed lies beyond the limit.
    The previous command carries a world disturbance of 10 N: [activate] sets
    [Iw_w[0]] to [asin (10 / (10 * 2))], more than [1/2] and so above
    [kiwxy_lim = 1/4].  The first call of [update] returns the seed.  In the
    second the x feedback is saturated with the sign of the position error,
    nothing is accumulated, and the saturation of the integral brings
    [Iw_w[0]] down to [1/4]. *)
Lemma C3_counterexample :
  let c1 := fst (activate idle (Some (previous_command 10))) in
  let c2 := fst (update c1 now state_same reference_ahead) in
  let c3 := fst (update c2 now state_next reference_ahead) in
  full_tick c2 state_next /\
  snd (tick_sat_x c2 state_next reference_ahead) = true /\
  sign (fst (tick_sat_x c2 state_next reference_ahead))
    = sign (vX (control_error_Ep state_next reference_ahead)) /\
  deq (fst (Iw_w c3)) (fst (Iw_w c2)) = false /\
  (XFin (1 # 2) <? fst (Iw_w c2)) = true /\
  deq (fst (Iw_w c3)) (XFin (1 # 4)) = true.
Proof. vm_compute. repeat split. Qed.

(** ** C4 *)



(** ** C5 *)



(** ** C7 *)



(** ** C8 *)

(** Ten centimetres below the reference the thrust feedback is within its
    bounds and the increment, a thousandth, lands; one metre below it the
    thrust is saturated and the mass difference stays; half a millisecond
    after the last update the control law is not reached. *)
Lemma C8_witness :
  let above := reference_at (vec 0 0 (1 # 10)) false in
  let far := reference_at (vec 0 0 1) false in
  let increment :=
    km flying * vZ (control_error_Ep state_next above) * update_dt flying state_next in
  reaches_control flying state_next = true /\
  deq increment (XFin (1 # 1000)) = true /\
  uav_mass_difference (fst (update flying now state_next above)) =
    uav_mass_difference flying + increment /\
  uav_mass_difference (fst (update flying now state_next far)) =
    uav_mass_difference flying /\
  reaches_control flying state_too_soon = false /\
  uav_mass_difference (fst (update flying now state_too_soon above)) =
    uav_mass_difference flying.
Proof.
  intros above far increment.
  assert (Hrun : reaches_control flying state_next = true) by reflexivity.
  assert (Hskip : reaches_control flying state_too_soon = false) by reflexivity.
  destruct (proj1 (C8_mass_estimator flying now state_next above) Hrun)
    as (_ & _ & Hlands & _).
  destruct (proj1 (C8_mass_estimator flying now state_next far) Hrun)
    as (_ & _ & _ & Hstays & _).
  pose proof (proj2 (C8_mass_estimator flying now state_too_soon above) Hskip) as Hsame.
  split; [exact Hrun|]. split; [reflexivity|].
  split; [apply Hlands; [reflexivity | repeat split]|].
  split; [apply Hstays; [reflexivity | repeat split]|].
  split; [exact Hskip | exact Hsame].
Defined.

(** C8 as stated fails on the calls that do not reach the control law.  Half
    a millisecond after the last update, ten centimetres below the reference,
    [update] returns a command; the thrust feedback lies within its bounds,
    [km * Ep[2] * dt] is not zero, and the mass difference is not incremented.
    The same on the first call after an activation, ten milliseconds after
    the previous update. *)
Lemma C8_counterexample :
  let above := reference_at (vec 0 0 (1 # 10)) false in
  let activated := fst (activate flying (Some (previous_command 0))) in
  (let feedback_z := vZ (tick_feedback_w flying state_too_soon above) in
   let increment :=
     km flying * vZ (control_error_Ep state_too_soon above)
     * update_dt flying state_too_soon in
   snd (update flying now state_too_soon above) = Some (previous_command 0) /\
   isfinite feedback_z = true /\ (feedback_z >? thrust_saturation_ flying) = false /\
   (feedback_z <? 0) = false /\
   deq increment 0 = false /\
   deq (uav_mass_difference (fst (update flying now state_too_soon above)))
       (uav_mass_difference flying + increment) = false /\
   uav_mass_difference (fst (update flying now state_too_soon above)) =
     uav_mass_difference flying) /\
  (let feedback_z := vZ (tick_feedback_w activated state_next above) in
   let increment :=
     km activated * vZ (control_error_Ep state_next above)
     * update_dt activated state_next in
   snd (update activated now state_next above) =
     Some (activation_control_command_ activated) /\
   isfinite feedback_z = true /\ (feedback_z >? thrust_saturation_ activated) = false /\
   (feedback_z <? 0) = false /\
   deq increment 0 = false /\
   deq (uav_mass_difference (fst (update activated now state_next above)))
       (uav_mass_difference activated + increment) = false).
Proof. vm_compute. repeat split. Qed.

(** ** C9 *)

(** The scenario of the specification: [(1, 2)] becomes [(2, 1)] under the
    transform that swaps x and y, and [(0, 0)] when the transform fails. *)
Lemma C9_witness :
  Iw_w turning = (XFin 1, XFin 2) /\
  Iw_w (switchOdometrySource turning now state_next) = (XFin 2, XFin 1) /\
  Iw_w lost = (XFin 1, XFin 2) /\
  Iw_w (switchOdometrySource lost now state_next) = (XFin 0, XFin 0).
Proof.
  pose proof (C9_switchOdometrySource turning now state_next) as (Hswap & _).
  pose proof (C9_switchOdometrySource lost now state_next) as (Hlost & _).
  split; [reflexivity|]. split; [exact Hswap|]. split; [reflexivity | exact Hlost].
Defined.

(** * The further properties on the example data *)

Import Scenarios.

(** A controller that has flown is deactivated and activated again with the
    command of another controller; the state of its second call of [update]
    comes half a millisecond after the first. *)
Lemma X2_witness :
  exists old : AttitudeCommand.t xq,
    last_output_command flown = Some old /\
    AttitudeCommand.controller old = "NsfController"%string /\
    snd (update
           (fst (update (fst (activate (deactivate flown) (Some (previous_command 0))))
                   now state_next reference_here))
           now state_again reference_here) = Some old.
Proof.
  eexists. split; [reflexivity|]. split; [reflexivity|].
  exact (proj2 (X2_activate_keeps_last_output_command flown _ (previous_command 0) true
                  now now state_next state_again reference_here reference_here
                  eq_refl eq_refl)).
Defined.

(** A call ten milliseconds after the last update, then one half a millisecond
    later with another reference. *)
Lemma X3_witness :
  full_tick flying state_next /\
  snd (update flown now state_again reference_muted) =
    snd (update flying now state_next reference_ahead) /\
  Iw_w (fst (update flown now state_again reference_muted)) = Iw_w flown.
Proof.
  assert (Htick : full_tick flying state_next) by reflexivity.
  pose proof (X3_update_again_same_command flying now now state_next state_again
                reference_ahead reference_muted Htick eq_refl)
    as (_ & Hout & HIw & _).
  split; [exact Htick|]. split; [exact Hout | exact HIw].
Defined.

(** A controller before its activation, under [idle_calls]. *)
Lemma X4_witness :
  is_active idle = false /\
  forallb (fun k => negb (is_activation k)) idle_calls = true /\
  getStatus (exec_all idle idle_calls) = false /\
  snd (update (exec_all idle idle_calls) now state_next reference_here) = None.
Proof.
  pose proof (X4_inactive_until_activated idle idle_calls eq_refl eq_refl)
    as (_ & Hstatus & Hupdate).
  split; [reflexivity|]. split; [reflexivity|]. split; [exact Hstatus|].
  rewrite Hupdate. reflexivity.
Defined.

(** The command of [flying], one metre behind its reference. *)
Lemma X7_witness :
  full_tick flying state_next /\
  exists out : AttitudeCommand.t xq,
    snd (update flying now state_next reference_ahead) = Some out /\
    AttitudeCommand.total_mass out = uav_mass_ flying + uav_mass_difference flying /\
    AttitudeCommand.mass_difference out =
      uav_mass_difference (fst (update flying now state_next reference_ahead)).
Proof.
  assert (Htick : full_tick flying state_next) by reflexivity.
  split; [exact Htick|].
  destruct (X7_update_reports_estimates flying now state_next reference_ahead Htick)
    as (out & Hout & _ & Hdiff & Hmass & _).
  exists out. split; [exact Hout|]. split; [exact Hmass | exact Hdiff].
Defined.

(** The integrals of [flying], one metre behind its reference: the x axis of
    the world integral is gated and stays at zero, the body integral is not
    and takes a hundredth. *)
Lemma X8_witness :
  full_tick flying state_next /\
  deq (fst (Iw_w (fst (update flying now state_next reference_ahead))))
      (fst (Iw_w flying)) = true /\
  deq (fst (Ib_b (fst (update flying now state_next reference_ahead))))
      (XFin (1 # 100)) = true.
Proof.
  assert (Htick : full_tick flying state_next) by reflexivity.
  pose proof (X8_update_integrals flying now state_next reference_ahead Htick) as H.
  cbv zeta in H. destruct H as [HIw HIb].
  split; [exact Htick|]. split.
  - rewrite HIw. vm_compute. reflexivity.
  - rewrite HIb. vm_compute. reflexivity.
Defined.

(** The tilt of [flying] for a reference that is not a number. *)
Lemma X9_witness :
  full_tick flying state_next /\
  (0 <=? max_tilt_angle_ flying) = true /\
  in_range (fst (tick_sat_x flying state_next reference_nan))
    (- max_tilt_angle_ flying) (max_tilt_angle_ flying) /\
  in_range (fst (tick_sat_y flying state_next reference_nan))
    (- max_tilt_angle_ flying) (max_tilt_angle_ flying).
Proof.
  assert (Htick : full_tick flying state_next) by reflexivity.
  pose proof (X9_update_tilt_saturated flying now state_next reference_nan Htick eq_refl)
    as (Hx & Hy & _).
  split; [exact Htick|]. split; [reflexivity|]. split; [exact Hx | exact Hy].
Defined.

(** [flying] under [flight_calls], and under them after a reset. *)
Lemma X10_witness :
  within_limits flying /\
  forallb (fun k => negb (is_seed k)) flight_calls = true /\
  within_limits (exec_all flying flight_calls) /\
  within_limits (exec_all (resetDisturbanceEstimators flying) flight_calls).
Proof.
  assert (Hin : within_limits flying) by (repeat split).
  pose proof (X10_estimators_stay_within_limits flying flight_calls
                eq_refl eq_refl eq_refl eq_refl) as (Hrun & Hreset).
  split; [exact Hin|]. split; [reflexivity|].
  split; [exact (Hrun Hin) | apply Hreset; repeat split].
Defined.

(** A request for a proportional lateral gain of 4 while the muting is on, with
    a mute coefficient of [1/2]: after the tick the gain is 2. *)
Lemma X11_witness :
  let c' := timerGainsFilter (dynamicReconfigureCallback muted stiffer) in
  bypass_filter muted = true /\
  kpxy c' = XFin 2 + (XFin 4 * XFin (1 # 2) - XFin 2) /\
  (XQ.val (kpxy c') == 2)%Q /\
  drs_desired_gains c' = stiffer.
Proof.
  intros c'.
  pose proof (X11_reconfigure_under_bypass muted stiffer eq_refl) as H.
  cbv zeta in H. destruct H as (Hlat & _ & Hd & _).
  destruct (Forall_inv Hlat) as [Heq Hval].
  split; [reflexivity|]. split; [exact Heq|]. split; [|exact Hd].
  apply (Qeq_trans _ _ _ (Hval XQ.val ltac:(vm_compute; reflexivity)
                            ltac:(vm_compute; reflexivity))).
  vm_compute. reflexivity.
Defined.


(** A [Pid] after [pid_calls], then an infinite error. *)
Lemma X13_witness :
  let p := Pid.exec_all (pid_xy "x") pid_calls in
  in_range (Pid.integral p) (- XFin (1 # 10)) (XFin (1 # 10)) /\
  in_range (snd (Pid.update p (XInf false) (XFin 0))) (- XFin (1 # 2)) (XFin (1 # 2)).
Proof.
  pose proof (X13_Pid_bounded "x" (XFin 2) (XFin (1 # 2)) (XFin (1 # 10)) (XFin (1 # 10))
                (XFin (1 # 2)) (XFin (99 # 100)) pid_calls (XInf false) (XFin 0)
                eq_refl eq_refl) as (_ & _ & Hint & Hout & _).
  split; [exact Hint | exact Hout].
Defined.

(** An error of 1 saturates the output on the positive side: the integral is
    left at 0. *)
Lemma X14_witness :
  snd (saturate (Pid.control_output (pid_xy "x") (XFin 1) (XFin (1 # 100)))
         (Pid.saturation (pid_xy "x"))) = true /\
  (0 <? snd (Pid.update (pid_xy "x") (XFin 1) (XFin (1 # 100)))) = true /\
  Pid.integral (fst (Pid.update (pid_xy "x") (XFin 1) (XFin (1 # 100)))) =
    Pid.integral (pid_xy "x").
Proof.
  pose proof (X14_Pid_antiwindup (pid_xy "x") (XFin 1) (XFin (1 # 100))
                ltac:(repeat split)) as (_ & Hpos & _).
  split; [reflexivity|]. split; [reflexivity|].
  exact (Hpos eq_refl eq_refl eq_refl).
Defined.

(** An error that is not a number, then an error of 1. *)
Lemma X15_witness :
  isfinite XNaN = false /\
  snd (Pid.update (pid_xy "x") XNaN (XFin (1 # 100))) = 0 /\
  snd (Pid.update (fst (Pid.update (pid_xy "x") XNaN (XFin (1 # 100))))
         (XFin 1) (XFin (1 # 100))) = 0.
Proof.
  pose proof (X15_Pid_nonfinite_error (pid_xy "x") XNaN (XFin (1 # 100)) (XFin 1)
                (XFin (1 # 100)) eq_refl) as (H1 & _ & _ & H2 & _).
  split; [reflexivity|]. split; [exact H1 | exact H2].
Defined.

(** After an activation and two calls of [update], a clock that reads one
    second before the last update: [dt = -1]. *)
Lemma X17_witness :
  let ks := [PidController.CallActivate;
             PidController.CallUpdate 2000000000%Z 2000000001%Z 2000000002%Z
               odometry_origin reference_ahead;
             PidController.CallUpdate 2010000000%Z 2010000001%Z 2010000002%Z
               odometry_origin reference_ahead] in
  let c' := PidController.exec_all hovering ks in
  PidController.first_iteration c' = false /\
  (toSec (1010000001 - PidController.last_update c')%Z <=? dlit 0.001) = true /\
  snd (PidController.update c' 1010000001%Z 1010000002%Z 1010000003%Z
         odometry_origin reference_ahead) = None.
Proof.
  intros ks c'.
  assert (Hfirst : PidController.first_iteration c' = false) by reflexivity.
  assert (Hdt : (toSec (1010000001 - PidController.last_update c')%Z
                 <=? dlit 0.001) = true) by reflexivity.
  split; [exact Hfirst|]. split; [exact Hdt|].
  exact (f_equal snd
           (proj2 (X17_PidController_never_keeps_output hovering ks)
              1010000001%Z 1010000002%Z 1010000003%Z odometry_origin reference_ahead
              Hfirst Hdt)).
Defined.

(** A call ten milliseconds after the last update, one metre behind the
    reference: the action of [pid_x] is cut to [1/2], which is the pitch. *)
Lemma X19_witness :
  exists cmd : PidController.AttitudeCommand.t xq,
    snd (PidController.update hovering 2010000000%Z 2010000001%Z 2010000002%Z
           odometry_origin reference_ahead) = Some cmd /\
    deq (PidController.AttitudeCommand.pitch cmd) (XFin (1 # 2)) = true /\
    PidController.AttitudeCommand.yaw cmd = PositionCommand.yaw reference_ahead /\
    Pid.last_error
      (PidController.pid_x
         (fst (PidController.update hovering 2010000000%Z 2010000001%Z 2010000002%Z
                 odometry_origin reference_ahead))) = XFin 1 - XFin 0.
Proof.
  assert (Hdt : (toSec (2010000000 - PidController.last_update hovering)%Z
                 <=? dlit 0.001) = false) by reflexivity.
  pose proof (X19_PidController_update_command hovering 2010000000%Z 2010000001%Z
                2010000002%Z odometry_origin reference_ahead
                eq_refl Hdt eq_refl eq_refl eq_refl) as H.
  cbv zeta in H.
  destruct H as (cmd & Hcmd & Hpitch & _ & Hyaw & _ & _ & _ & _ & _ & Hx & _).
  exists cmd. split; [exact Hcmd|]. split; [|split; [exact Hyaw|]].
  - rewrite Hpitch. vm_compute. reflexivity.
  - rewrite Hx. reflexivity.
Defined.
